(** * CapyPDF: the document object table, draw-state nesting, shading
      serialisation, ICC profile storage, page registration and font-subset
      padding of [pdfdocument.cpp] and [drawcontext.hpp], embedded in Rocq.

    Conventions of the embedding.
    - [int32_t] values are [Z]; a cast of a container size to [int32_t] is
      written [to_int32].
    - [std::string] is [string]; binary streams are strings of bytes too, as
      in the source.
    - [double] is the kernel's binary64 [float].
    - [rvoe<T>] is [rvoe T]: a value, an [ErrorCode], or [Crash] for the paths
      that leave the program ([std::abort], a failed [assert], an exception
      nobody catches).
    - A member function of [PdfDocument] is a function from the document to a
      result and the document it leaves behind ([M]). *)

From Stdlib Require Import ZArith String Ascii Floats Uint63 DecimalString List Bool Lia.
From stdpp Require Import gmap strings list fin_maps.

Open Scope string_scope.
Open Scope Z_scope.

(** ** Results *)

(** The error kinds of [errorhandling.hpp], as the specification lists them. *)
Inductive ErrorCode : Type :=
| ColorOutOfRange | ColorspaceMismatch | OutputProfileMissing
| MissingIntentIdentifier | AnnotationReuse | StructureReuse
| RoleAlreadyDefined | SlashStart | NestedBMC | DrawStateEndMismatch
| UnclosedMarkedContent | InvalidDrawContextType | IncorrectDocumentForObject
| MissingGlyph | UnsupportedFormat | FreeTypeError | InvalidImageSize
| MissingPixels | MaskAndAlpha | NoCmykProfile | AnnotationMissingRect
| IndexOutOfBounds | Unreachable.

Inductive rvoe (A : Type) : Type :=
| Ok (a : A)
| Err (e : ErrorCode)
| Crash.
Arguments Ok {A} a.
Arguments Err {A} e.
Arguments Crash {A}.

Definition rbind {A B : Type} (m : rvoe A) (k : A -> rvoe B) : rvoe B :=
  match m with
  | Ok a => k a
  | Err e => Err e
  | Crash => Crash
  end.

Notation "x <~ m ;; k" := (rbind m (fun x => k))
  (at level 100, m at next level, right associativity).

(** [NoReturnValue]. *)
Definition NoReturnValue := unit.

(** ** Machine integers and text *)

Definition to_int32 (z : Z) : Z := (z + 2 ^ 31) mod 2 ^ 32 - 2 ^ 31.

Definition size_of {A : Type} (l : list A) : Z := Z.of_nat (length l).

(** [fmt::format("{}", n)] for an integer. *)
Definition fmt_int (z : Z) : string := NilZero.string_of_int (Z.to_int z).

Definition NL : string := String (ascii_of_nat 10) EmptyString.

(** ** Draw-state nesting ([drawcontext.hpp]) *)

Inductive DrawStateType : Type :=
| MarkedContent
| SaveState
| Text.

#[global] Instance DrawStateType_eq_dec : EqDecision DrawStateType.
Proof. solve_decision. Defined.

Inductive CapyPDF_Draw_Context_Type : Type :=
| CAPY_DC_PAGE
| CAPY_DC_COLOR_TILING
| CAPY_DC_FORM_XOBJECT
| CAPY_DC_TRANSPARENCY_GROUP.

#[global] Instance CapyPDF_Draw_Context_Type_eq_dec : EqDecision CapyPDF_Draw_Context_Type.
Proof. solve_decision. Defined.

Record PdfRectangle : Type := { x1 : float; y1 : float; x2 : float; y2 : float }.

(** The members of [PdfDrawContext] that the code below reads or writes.
    [doc] is the address held in the back pointer [PdfDocument *doc]. *)
Record PdfDrawContext : Type := {
  doc : Z;
  context_type : CapyPDF_Draw_Context_Type;
  commands : string;
  dstate_stack : list DrawStateType;
  bbox : PdfRectangle;
  marked_depth : Z;
  ind : string;
}.

Definition set_nesting (ctx : PdfDrawContext) (st : list DrawStateType) (i : string)
  : PdfDrawContext :=
  {| doc := doc ctx; context_type := context_type ctx; commands := commands ctx;
     dstate_stack := st; bbox := bbox ctx; marked_depth := marked_depth ctx; ind := i |}.

(** [std::string::pop_back]. *)
Fixpoint pop_back (s : string) : string :=
  match s with
  | EmptyString => EmptyString
  | String c EmptyString => EmptyString
  | String c rest => String c (pop_back rest)
  end.

(** [PdfDrawContext::indent]: the loop returns at the first entry equal to
    [dtype], and runs only for [MarkedContent]. *)
Definition indent (dtype : DrawStateType) (ctx : PdfDrawContext)
  : rvoe NoReturnValue * PdfDrawContext :=
  if bool_decide (dtype = MarkedContent)
     && existsb (fun s => bool_decide (s = dtype)) (dstate_stack ctx)
  then (Err NestedBMC, ctx)
  else (Ok tt, set_nesting ctx (dstate_stack ctx ++ [dtype]) (ind ctx ++ "  ")).

(** [PdfDrawContext::dedent]. *)
Definition dedent (dtype : DrawStateType) (ctx : PdfDrawContext)
  : rvoe NoReturnValue * PdfDrawContext :=
  match last (dstate_stack ctx) with
  | None => (Err DrawStateEndMismatch, ctx)
  | Some top =>
      if bool_decide (top ≠ dtype) then (Err DrawStateEndMismatch, ctx)
      else if (String.length (ind ctx) <? 2)%nat then (Crash, ctx)
      else (Ok tt, set_nesting ctx (removelast (dstate_stack ctx))
                     (pop_back (pop_back (ind ctx))))
  end.

Definition has_unclosed_state (ctx : PdfDrawContext) : bool :=
  negb (bool_decide (dstate_stack ctx = [])).

Definition get_w (ctx : PdfDrawContext) : float := PrimFloat.sub (x2 (bbox ctx)) (x1 (bbox ctx)).
Definition get_h (ctx : PdfDrawContext) : float := PrimFloat.sub (y2 (bbox ctx)) (y1 (bbox ctx)).

Record SerializedBasicContext : Type := {
  resource_dict : string;
  unclosed_object_dict : string;
  command_stream : string;
}.

Record SerializedXObject : Type := { dict : string; xcommand_stream : string }.

Inductive DCSerialization : Type :=
| BasicContext (sc : SerializedBasicContext)
| XObject (sx : SerializedXObject).

(** ** Colours and shadings *)

Inductive CapyPDF_Colorspace : Type :=
| CAPY_CS_DEVICE_RGB
| CAPY_CS_DEVICE_GRAY
| CAPY_CS_DEVICE_CMYK.

#[global] Instance CapyPDF_Colorspace_eq_dec : EqDecision CapyPDF_Colorspace.
Proof. solve_decision. Defined.

(** [(int)cs], the position in [colorspace_names]. *)
Definition colorspace_index (k : CapyPDF_Colorspace) : Z :=
  match k with
  | CAPY_CS_DEVICE_RGB => 0
  | CAPY_CS_DEVICE_GRAY => 1
  | CAPY_CS_DEVICE_CMYK => 2
  end.

Definition colorspace_names (k : CapyPDF_Colorspace) : string :=
  match k with
  | CAPY_CS_DEVICE_RGB => "/DeviceRGB"
  | CAPY_CS_DEVICE_GRAY => "/DeviceGray"
  | CAPY_CS_DEVICE_CMYK => "/DeviceCMYK"
  end.

(** [LimitDouble]: the wrapped number is read with [v()]. *)
Record LimitDouble : Type := { v : float }.

(** Modelled from the spec: the [Color] variant is declared in a header that
    is not part of the sources at hand; section 9 of the specification gives
    its alternatives (DeviceRGB, DeviceGray, DeviceCMYK, ICC, Lab, Separation,
    Pattern). The code below reads the components of the three device
    colours only, so the other four carry none here. *)
Inductive Color : Type :=
| DeviceRGBColor (r g b : LimitDouble)
| DeviceGrayColor (gray : LimitDouble)
| DeviceCMYKColor (c m y k : LimitDouble)
| ICCColor
| LabColor
| SeparationColor
| PatternColor.

Record Point : Type := { x : float; y : float }.

Record ShadingPoint : Type := { p : Point; c : Color }.

Record ShadingElement : Type := { sp : ShadingPoint; flag : Z }.

(** An element of a type 6 shading: [std::variant<FullCoonsPatch,
    ContinuationCoonsPatch>]. A full patch has 12 control points and 4 corner
    colours ([std::array]s in the source, lists here). *)
Inductive CoonsPatches : Type :=
| FullCoonsPatch (ps : list Point) (cs : list Color)
| ContinuationCoonsPatch (cflag : Z) (ps : list Point) (cs : list Color).

Module Shade.
(** [ShadingType4] and [ShadingType6] have the same members and differ in the
    element type. *)
Record t (Elt : Type) : Type := {
  elements : list Elt;
  minx : float;
  miny : float;
  maxx : float;
  maxy : float;
  colorspace : CapyPDF_Colorspace;
}.
Arguments elements {Elt} _.
Arguments minx {Elt} _.
Arguments miny {Elt} _.
Arguments maxx {Elt} _.
Arguments maxy {Elt} _.
Arguments colorspace {Elt} _.
End Shade.

Definition ShadingType4 : Type := Shade.t ShadingElement.
Definition ShadingType6 : Type := Shade.t CoonsPatches.

(** The colour is of the colourspace the shade declares. *)
Definition color_in_colorspace (k : CapyPDF_Colorspace) (col : Color) : bool :=
  match k, col with
  | CAPY_CS_DEVICE_RGB, DeviceRGBColor _ _ _ => true
  | CAPY_CS_DEVICE_GRAY, DeviceGrayColor _ => true
  | CAPY_CS_DEVICE_CMYK, DeviceCMYKColor _ _ _ _ => true
  | _, _ => false
  end.

Definition is_device_color (col : Color) : bool :=
  match col with
  | DeviceRGBColor _ _ _ | DeviceGrayColor _ | DeviceCMYKColor _ _ _ _ => true
  | _ => false
  end.

(** ** Numbers as bytes *)

(** Conversion of a [double] to an unsigned integer type: the fraction is
    dropped. C++ leaves the conversion of a NaN or an infinity undefined; it
    is 0 here. *)
Definition float_to_unsigned (f : float) : Z :=
  match Prim2SF f with
  | S754_finite s mant e =>
      let a := if 0 <=? e then Z.shiftl (Zpos mant) e else Z.shiftr (Zpos mant) (- e) in
      if s then - a else a
  | _ => 0
  end.

Definition byte_of (z : Z) : string :=
  String (ascii_of_N (Z.to_N (z mod 256))) EmptyString.

(** The [n] bytes of [z], most significant first: what [std::byteswap]
    followed by a copy of the object representation gives on a little-endian
    host. *)
Fixpoint be_bytes (n : nat) (z : Z) : string :=
  match n with
  | O => EmptyString
  | S n' => byte_of (Z.shiftr z (8 * Z.of_nat n')) ++ be_bytes n' z
  end.

(** [std::numeric_limits<T>::max()] of the unsigned type of [n] bytes. *)
Definition unsigned_max (n : nat) : Z := 2 ^ (8 * Z.of_nat n) - 1.

(** [append_floatvalue<T>], [T] the unsigned type of [n] bytes. *)
Definition append_floatvalue (n : nat) (buf : string) (val : float) : rvoe string :=
  if PrimFloat.ltb val 0 || PrimFloat.ltb 1 val then Err ColorOutOfRange
  else
    let cval :=
      float_to_unsigned (PrimFloat.mul (PrimFloat.of_uint63 (Uint63.of_Z (unsigned_max n))) val)
        mod 2 ^ (8 * Z.of_nat n) in
    Ok (buf ++ be_bytes n cval).

Definition to_char (z : Z) : Z := (z + 128) mod 256 - 128.

(** ** What the translation unit takes from the rest of the project

    Headers and helpers that are declared elsewhere: opaque payload types,
    text formatting of floating-point numbers, the compressor, the file
    reader, and the build flag that decides whether [assert] is compiled
    in. Every theorem below holds for every instance. *)
Class Env : Type := {
  NDEBUG : bool;
  Transition : Type;
  PageProperties : Type;
  TransparencyGroupExtra : Type;
  TtfFont : Type;
  (** [fmt::format] of a [double] with "{:f}" and with "{}". *)
  fmt_f : float -> string;
  fmt_g : float -> string;
  (** [serialize_trans(app, tr, indent)]: the text it appends. *)
  serialize_trans : Transition -> string -> string;
  pdfstring_quote : string -> string;
  utf8_to_pdfmetastr : string -> string;
  current_date_string : string;
  CAPYPDF_VERSION_STR : string;
  flate_compress : string -> rvoe string;
  load_file : string -> rvoe string;
  (** [PdfColorConverter::get_num_channels]. *)
  get_num_channels : string -> rvoe Z;
  (** [PdfDocument::ocg_object_number], a function of [ocg_items]. *)
  ocg_object_number : list Z -> Z -> Z;
  (** [PdfDrawContext::build_resource_dict] and [PdfDrawContext::serialize]. *)
  build_resource_dict : PdfDrawContext -> string;
  serialize : PdfDrawContext -> option TransparencyGroupExtra -> DCSerialization;
}.

Section Model.
Context {E : Env}.

(** [assert(b)]. *)
Definition cassert (b : bool) : rvoe unit :=
  if NDEBUG || b then Ok tt else Crash.

Definition ratio (a lo hi : float) : float :=
  PrimFloat.div (PrimFloat.sub a lo) (PrimFloat.sub hi lo).

(** The three branches of [serialize_shade4] that write a colour. *)
Definition shade4_color (k : CapyPDF_Colorspace) (s : string) (col : Color) : rvoe string :=
  match col with
  | DeviceRGBColor r g b =>
      if bool_decide (k ≠ CAPY_CS_DEVICE_RGB) then Err ColorspaceMismatch
      else
        s <~ append_floatvalue 2 s (v r) ;;
        s <~ append_floatvalue 2 s (v g) ;;
        append_floatvalue 2 s (v b)
  | DeviceGrayColor gray =>
      if bool_decide (k ≠ CAPY_CS_DEVICE_GRAY) then Err ColorspaceMismatch
      else append_floatvalue 2 s (v gray)
  | DeviceCMYKColor c m y k' =>
      if bool_decide (k ≠ CAPY_CS_DEVICE_CMYK) then Err ColorspaceMismatch
      else
        s <~ append_floatvalue 2 s (v c) ;;
        s <~ append_floatvalue 2 s (v m) ;;
        s <~ append_floatvalue 2 s (v y) ;;
        append_floatvalue 2 s (v k')
  | _ => Crash
  end.

(** One turn of the loop of [serialize_shade4]. *)
Definition shade4_element (shade : ShadingType4) (s : string) (e : ShadingElement)
  : rvoe string :=
  let xratio := ratio (x (p (sp e))) (Shade.minx shade) (Shade.maxx shade) in
  let yratio := ratio (y (p (sp e))) (Shade.miny shade) (Shade.maxy shade) in
  let flag := to_char (flag e) in
  _ <~ cassert ((0 <=? flag) && (flag <? 3)) ;;
  let s := s ++ byte_of flag in
  s <~ append_floatvalue 4 s xratio ;;
  s <~ append_floatvalue 4 s yratio ;;
  shade4_color (Shade.colorspace shade) s (c (sp e)).

(** A range-for loop whose body may return early from the function. *)
Fixpoint for_each {A S : Type} (body : S -> A -> rvoe S) (s : S) (l : list A) : rvoe S :=
  match l with
  | [] => Ok s
  | a :: rest => s' <~ body s a ;; for_each body s' rest
  end.

Definition serialize_shade4 (shade : ShadingType4) : rvoe string :=
  for_each (shade4_element shade) "" (Shade.elements shade).

Definition shade6_point (shade : ShadingType6) (s : string) (pt : Point) : rvoe string :=
  let xratio := ratio (x pt) (Shade.minx shade) (Shade.maxx shade) in
  let yratio := ratio (y pt) (Shade.miny shade) (Shade.maxy shade) in
  s <~ append_floatvalue 4 s xratio ;;
  append_floatvalue 4 s yratio.

Definition shade6_color (k : CapyPDF_Colorspace) (s : string) (colorobj : Color)
  : rvoe string :=
  match k with
  | CAPY_CS_DEVICE_RGB =>
      match colorobj with
      | DeviceRGBColor r g b =>
          s <~ append_floatvalue 2 s (v r) ;;
          s <~ append_floatvalue 2 s (v g) ;;
          append_floatvalue 2 s (v b)
      | _ => Err ColorspaceMismatch
      end
  | CAPY_CS_DEVICE_GRAY =>
      match colorobj with
      | DeviceGrayColor gray => append_floatvalue 2 s (v gray)
      | _ => Err ColorspaceMismatch
      end
  | CAPY_CS_DEVICE_CMYK =>
      match colorobj with
      | DeviceCMYKColor c m y k' =>
          s <~ append_floatvalue 2 s (v c) ;;
          s <~ append_floatvalue 2 s (v m) ;;
          s <~ append_floatvalue 2 s (v y) ;;
          append_floatvalue 2 s (v k')
      | _ => Err ColorspaceMismatch
      end
  end.

(** One turn of the outer loop of [serialize_shade6]. *)
Definition shade6_element (shade : ShadingType6) (s : string) (eh : CoonsPatches)
  : rvoe string :=
  match eh with
  | ContinuationCoonsPatch _ _ _ => Crash
  | FullCoonsPatch ps cs =>
      let flag := 0 in
      _ <~ cassert ((0 <=? flag) && (flag <? 3)) ;;
      let s := s ++ byte_of flag in
      s <~ for_each (shade6_point shade) s ps ;;
      for_each (shade6_color (Shade.colorspace shade)) s cs
  end.

Definition serialize_shade6 (shade : ShadingType6) : rvoe string :=
  for_each (shade6_element shade) "" (Shade.elements shade).

(** ** The document *)

Record FullPDFObject : Type := { dictionary : string; stream : string }.

Record DeflatePDFObject : Type := { unclosed_dictionary : string; dstream : string }.

Record DelayedPage : Type := {
  page_num : Z;
  custom_props : PageProperties;
  used_form_widgets : list Z;
  used_annotations : list Z;
  transition : option Transition;
  subnav_root : option Z;
  structparents : option Z;
}.

(** The alternatives of [ObjectType] that this file constructs, and the
    delayed ones of [load_font], by the members they are built from. *)
Inductive ObjectType : Type :=
| DummyIndexZero
| Full (o : FullPDFObject)
| Deflate (o : DeflatePDFObject)
| DelayedPages
| Page (o : DelayedPage)
| DelayedSubsetFontData (fid subset_num : Z)
| DelayedSubsetFontDescriptor (fid subfont_data_obj subset_num : Z)
| DelayedSubsetCMap (fid subset_num : Z)
| DelayedSubsetFont (fid subfont_descriptor_obj subfont_cmap_obj : Z).

Inductive CapyPDF_IntentSubtype : Type :=
| CAPY_INTENT_SUBTYPE_PDFX
| CAPY_INTENT_SUBTYPE_PDFA
| CAPY_INTENT_SUBTYPE_PDFE.

#[global] Instance CapyPDF_IntentSubtype_eq_dec : EqDecision CapyPDF_IntentSubtype.
Proof. solve_decision. Defined.

Definition intentnames (s : CapyPDF_IntentSubtype) : string :=
  match s with
  | CAPY_INTENT_SUBTYPE_PDFX => "/GTS_PDFX"
  | CAPY_INTENT_SUBTYPE_PDFA => "/GTS_PDFA"
  | CAPY_INTENT_SUBTYPE_PDFE => "/ISO_PDFE"
  end.

Record PdfGenerationData : Type := {
  title : string;
  author : string;
  creator : string;
  lang : string;
  output_colorspace : CapyPDF_Colorspace;
  subtype : option CapyPDF_IntentSubtype;
  intent_condition_identifier : string;
  compress_streams : bool;
  is_tagged : bool;
}.

(** The profiles the colour converter holds: [get_rgb()], [get_gray()],
    [get_cmyk()]. *)
Record PdfColorConverter : Type := {
  get_rgb : string;
  get_gray : string;
  get_cmyk : string;
}.

Record PageOffsets : Type := {
  resource_obj_num : Z;
  commands_obj_num : Z;
  page_obj_num : Z;
}.

Record IccInfo : Type := { stream_num : Z; object_num : Z; num_channels : Z }.

Record ImageSize : Type := { iw : Z; ih : Z }.

Record ImageInfo : Type := { image_size : ImageSize; obj : Z }.

Record StructureUsage : Type := { page_num_of : Z; mcid_num : Z }.

(** Modelled from the spec: [FontSubsetter] is implemented in a file that is
    not part of the sources at hand. Section 4.4: an ordered list of subsets,
    each a vector of glyph records (the codepoints, here; the reverse map from
    codepoint to local index is the position in the vector). *)
Record FontSubsetter : Type := { subset_list : list (list Z) }.

Record FontThingy : Type := { fontdata : TtfFont; subsets : FontSubsetter }.

(** The members of [PdfDocument] that the functions of this file touch. *)
Record PdfDocument : Type := {
  opts : PdfGenerationData;
  cm : PdfColorConverter;
  document_objects : list ObjectType;
  pages : list PageOffsets;
  icc_profiles : list IccInfo;
  image_info : list ImageInfo;
  separation_objects : list Z;
  form_use : gmap Z Z;
  annotation_use : gmap Z Z;
  structure_use : gmap Z StructureUsage;
  structure_parent_tree_items : list (list Z);
  transparency_groups : list Z;
  ocg_items : list Z;
  fonts : list FontThingy;
  output_profile : option Z;
  output_intent_object : option Z;
  page_group_object : Z;
  pages_object : Z;
}.

Definition set_document_objects (d : PdfDocument) (x : _) : PdfDocument :=
  {| opts := opts d; cm := cm d; document_objects := x; pages := pages d;
     icc_profiles := icc_profiles d; image_info := image_info d;
     separation_objects := separation_objects d; form_use := form_use d;
     annotation_use := annotation_use d; structure_use := structure_use d;
     structure_parent_tree_items := structure_parent_tree_items d;
     transparency_groups := transparency_groups d; ocg_items := ocg_items d;
     fonts := fonts d; output_profile := output_profile d;
     output_intent_object := output_intent_object d;
     page_group_object := page_group_object d; pages_object := pages_object d |}.

Definition set_pages (d : PdfDocument) (x : _) : PdfDocument :=
  {| opts := opts d; cm := cm d; document_objects := document_objects d; pages := x;
     icc_profiles := icc_profiles d; image_info := image_info d;
     separation_objects := separation_objects d; form_use := form_use d;
     annotation_use := annotation_use d; structure_use := structure_use d;
     structure_parent_tree_items := structure_parent_tree_items d;
     transparency_groups := transparency_groups d; ocg_items := ocg_items d;
     fonts := fonts d; output_profile := output_profile d;
     output_intent_object := output_intent_object d;
     page_group_object := page_group_object d; pages_object := pages_object d |}.

Definition set_icc_profiles (d : PdfDocument) (x : _) : PdfDocument :=
  {| opts := opts d; cm := cm d; document_objects := document_objects d; pages := pages d;
     icc_profiles := x; image_info := image_info d;
     separation_objects := separation_objects d; form_use := form_use d;
     annotation_use := annotation_use d; structure_use := structure_use d;
     structure_parent_tree_items := structure_parent_tree_items d;
     transparency_groups := transparency_groups d; ocg_items := ocg_items d;
     fonts := fonts d; output_profile := output_profile d;
     output_intent_object := output_intent_object d;
     page_group_object := page_group_object d; pages_object := pages_object d |}.

Definition set_image_info (d : PdfDocument) (x : _) : PdfDocument :=
  {| opts := opts d; cm := cm d; document_objects := document_objects d; pages := pages d;
     icc_profiles := icc_profiles d; image_info := x;
     separation_objects := separation_objects d; form_use := form_use d;
     annotation_use := annotation_use d; structure_use := structure_use d;
     structure_parent_tree_items := structure_parent_tree_items d;
     transparency_groups := transparency_groups d; ocg_items := ocg_items d;
     fonts := fonts d; output_profile := output_profile d;
     output_intent_object := output_intent_object d;
     page_group_object := page_group_object d; pages_object := pages_object d |}.

Definition set_separation_objects (d : PdfDocument) (x : _) : PdfDocument :=
  {| opts := opts d; cm := cm d; document_objects := document_objects d; pages := pages d;
     icc_profiles := icc_profiles d; image_info := image_info d; separation_objects := x;
     form_use := form_use d; annotation_use := annotation_use d;
     structure_use := structure_use d;
     structure_parent_tree_items := structure_parent_tree_items d;
     transparency_groups := transparency_groups d; ocg_items := ocg_items d;
     fonts := fonts d; output_profile := output_profile d;
     output_intent_object := output_intent_object d;
     page_group_object := page_group_object d; pages_object := pages_object d |}.

Definition set_form_use (d : PdfDocument) (x : _) : PdfDocument :=
  {| opts := opts d; cm := cm d; document_objects := document_objects d; pages := pages d;
     icc_profiles := icc_profiles d; image_info := image_info d;
     separation_objects := separation_objects d; form_use := x;
     annotation_use := annotation_use d; structure_use := structure_use d;
     structure_parent_tree_items := structure_parent_tree_items d;
     transparency_groups := transparency_groups d; ocg_items := ocg_items d;
     fonts := fonts d; output_profile := output_profile d;
     output_intent_object := output_intent_object d;
     page_group_object := page_group_object d; pages_object := pages_object d |}.

Definition set_annotation_use (d : PdfDocument) (x : _) : PdfDocument :=
  {| opts := opts d; cm := cm d; document_objects := document_objects d; pages := pages d;
     icc_profiles := icc_profiles d; image_info := image_info d;
     separation_objects := separation_objects d; form_use := form_use d;
     annotation_use := x; structure_use := structure_use d;
     structure_parent_tree_items := structure_parent_tree_items d;
     transparency_groups := transparency_groups d; ocg_items := ocg_items d;
     fonts := fonts d; output_profile := output_profile d;
     output_intent_object := output_intent_object d;
     page_group_object := page_group_object d; pages_object := pages_object d |}.

Definition set_structure_use (d : PdfDocument) (x : _) : PdfDocument :=
  {| opts := opts d; cm := cm d; document_objects := document_objects d; pages := pages d;
     icc_profiles := icc_profiles d; image_info := image_info d;
     separation_objects := separation_objects d; form_use := form_use d;
     annotation_use := annotation_use d; structure_use := x;
     structure_parent_tree_items := structure_parent_tree_items d;
     transparency_groups := transparency_groups d; ocg_items := ocg_items d;
     fonts := fonts d; output_profile := output_profile d;
     output_intent_object := output_intent_object d;
     page_group_object := page_group_object d; pages_object := pages_object d |}.

Definition set_structure_parent_tree_items (d : PdfDocument) (x : _) : PdfDocument :=
  {| opts := opts d; cm := cm d; document_objects := document_objects d; pages := pages d;
     icc_profiles := icc_profiles d; image_info := image_info d;
     separation_objects := separation_objects d; form_use := form_use d;
     annotation_use := annotation_use d; structure_use := structure_use d;
     structure_parent_tree_items := x; transparency_groups := transparency_groups d;
     ocg_items := ocg_items d; fonts := fonts d; output_profile := output_profile d;
     output_intent_object := output_intent_object d;
     page_group_object := page_group_object d; pages_object := pages_object d |}.

Definition set_transparency_groups (d : PdfDocument) (x : _) : PdfDocument :=
  {| opts := opts d; cm := cm d; document_objects := document_objects d; pages := pages d;
     icc_profiles := icc_profiles d; image_info := image_info d;
     separation_objects := separation_objects d; form_use := form_use d;
     annotation_use := annotation_use d; structure_use := structure_use d;
     structure_parent_tree_items := structure_parent_tree_items d;
     transparency_groups := x; ocg_items := ocg_items d; fonts := fonts d;
     output_profile := output_profile d; output_intent_object := output_intent_object d;
     page_group_object := page_group_object d; pages_object := pages_object d |}.

Definition set_fonts (d : PdfDocument) (x : _) : PdfDocument :=
  {| opts := opts d; cm := cm d; document_objects := document_objects d; pages := pages d;
     icc_profiles := icc_profiles d; image_info := image_info d;
     separation_objects := separation_objects d; form_use := form_use d;
     annotation_use := annotation_use d; structure_use := structure_use d;
     structure_parent_tree_items := structure_parent_tree_items d;
     transparency_groups := transparency_groups d; ocg_items := ocg_items d; fonts := x;
     output_profile := output_profile d; output_intent_object := output_intent_object d;
     page_group_object := page_group_object d; pages_object := pages_object d |}.

Definition set_output_profile (d : PdfDocument) (x : _) : PdfDocument :=
  {| opts := opts d; cm := cm d; document_objects := document_objects d; pages := pages d;
     icc_profiles := icc_profiles d; image_info := image_info d;
     separation_objects := separation_objects d; form_use := form_use d;
     annotation_use := annotation_use d; structure_use := structure_use d;
     structure_parent_tree_items := structure_parent_tree_items d;
     transparency_groups := transparency_groups d; ocg_items := ocg_items d;
     fonts := fonts d; output_profile := x; output_intent_object := output_intent_object d;
     page_group_object := page_group_object d; pages_object := pages_object d |}.

Definition set_output_intent_object (d : PdfDocument) (x : _) : PdfDocument :=
  {| opts := opts d; cm := cm d; document_objects := document_objects d; pages := pages d;
     icc_profiles := icc_profiles d; image_info := image_info d;
     separation_objects := separation_objects d; form_use := form_use d;
     annotation_use := annotation_use d; structure_use := structure_use d;
     structure_parent_tree_items := structure_parent_tree_items d;
     transparency_groups := transparency_groups d; ocg_items := ocg_items d;
     fonts := fonts d; output_profile := output_profile d; output_intent_object := x;
     page_group_object := page_group_object d; pages_object := pages_object d |}.

Definition set_page_group_object (d : PdfDocument) (x : _) : PdfDocument :=
  {| opts := opts d; cm := cm d; document_objects := document_objects d; pages := pages d;
     icc_profiles := icc_profiles d; image_info := image_info d;
     separation_objects := separation_objects d; form_use := form_use d;
     annotation_use := annotation_use d; structure_use := structure_use d;
     structure_parent_tree_items := structure_parent_tree_items d;
     transparency_groups := transparency_groups d; ocg_items := ocg_items d;
     fonts := fonts d; output_profile := output_profile d;
     output_intent_object := output_intent_object d; page_group_object := x;
     pages_object := pages_object d |}.

Definition set_pages_object (d : PdfDocument) (x : _) : PdfDocument :=
  {| opts := opts d; cm := cm d; document_objects := document_objects d; pages := pages d;
     icc_profiles := icc_profiles d; image_info := image_info d;
     separation_objects := separation_objects d; form_use := form_use d;
     annotation_use := annotation_use d; structure_use := structure_use d;
     structure_parent_tree_items := structure_parent_tree_items d;
     transparency_groups := transparency_groups d; ocg_items := ocg_items d;
     fonts := fonts d; output_profile := output_profile d;
     output_intent_object := output_intent_object d;
     page_group_object := page_group_object d; pages_object := x |}.

(** The document as the constructor leaves it: the options and the colour
    converter stored, every container empty. The two object numbers are
    written by [init] before anything reads them. *)
Definition new_document (d : PdfGenerationData) (conv : PdfColorConverter) : PdfDocument :=
  {| opts := d; cm := conv; document_objects := []; pages := []; icc_profiles := [];
     image_info := []; separation_objects := []; form_use := ∅; annotation_use := ∅;
     structure_use := ∅; structure_parent_tree_items := []; transparency_groups := [];
     ocg_items := []; fonts := []; output_profile := None; output_intent_object := None;
     page_group_object := 0; pages_object := 0 |}.

(** A member function: the result and the document afterwards. *)
Definition M (A : Type) : Type := PdfDocument -> rvoe A * PdfDocument.

Definition ret {A : Type} (a : A) : M A := fun d => (Ok a, d).

Definition fail {A : Type} (e : ErrorCode) : M A := fun d => (Err e, d).

Definition crash {A : Type} : M A := fun d => (Crash, d).

Definition bind {A B : Type} (m : M A) (k : A -> M B) : M B :=
  fun d =>
    match m d with
    | (Ok a, d') => k a d'
    | (Err e, d') => (Err e, d')
    | (Crash, d') => (Crash, d')
    end.

Definition lift {A : Type} (r : rvoe A) : M A := fun d => (r, d).

Definition get {A : Type} (f : PdfDocument -> A) : M A := fun d => (Ok (f d), d).

Definition modify (f : PdfDocument -> PdfDocument) : M unit := fun d => (Ok tt, f d).

Notation "x <- m ;; k" := (bind m (fun x => k))
  (at level 100, m at next level, right associativity).

(** [PdfDocument::add_object]. *)
Definition add_object (object : ObjectType) : M Z :=
  fun d =>
    let object_num := to_int32 (size_of (document_objects d)) in
    (Ok object_num, set_document_objects d (document_objects d ++ [object])).

(** [v.at(i)] for a signed index: outside the vector it throws. *)
Definition at_ {A : Type} (l : list A) (i : Z) : rvoe A :=
  if i <? 0 then Crash
  else match l !! Z.to_nat i with
       | Some a => Ok a
       | None => Crash
       end.

(** *** ICC profiles *)

(** The loop of [PdfDocument::find_icc_profile] from index [i] on. *)
Fixpoint find_icc_profile_from (objs : list ObjectType) (contents : string)
    (profiles : list IccInfo) (i : Z) : rvoe (option Z) :=
  match profiles with
  | [] => Ok None
  | info :: rest =>
      stream_obj <~ at_ objs (stream_num info) ;;
      match stream_obj with
      | Deflate stream_data =>
          if bool_decide (dstream stream_data = contents) then Ok (Some (to_int32 i))
          else find_icc_profile_from objs contents rest (i + 1)
      | _ => Crash
      end
  end.

Definition find_icc_profile (contents : string) : M (option Z) :=
  fun d => (find_icc_profile_from (document_objects d) contents (icc_profiles d) 0, d).

(** [PdfDocument::store_icc_profile]. *)
Definition store_icc_profile (contents : string) (n_channels : Z) : M Z :=
  existing <- find_icc_profile contents ;;
  _ <- lift (cassert (negb (bool_decide (is_Some existing)))) ;;
  if bool_decide (contents = "") then ret (-1)
  else
    let buf := "<<
  /N " ++ fmt_int n_channels ++ NL in
    stream_obj_id <- add_object (Deflate {| unclosed_dictionary := buf; dstream := contents |}) ;;
    obj_id <- add_object (Full {| dictionary := "[ /ICCBased " ++ fmt_int stream_obj_id
                                                  ++ " 0 R ]" ++ NL;
                                  stream := "" |}) ;;
    _ <- modify (fun d => set_icc_profiles d
                   (icc_profiles d ++ [{| stream_num := stream_obj_id; object_num := obj_id;
                                           num_channels := n_channels |}])) ;;
    n <- get (fun d => size_of (icc_profiles d)) ;;
    ret (to_int32 n - 1).

(** [PdfDocument::load_icc_file]. *)
Definition load_icc_file (fname : string) : M Z :=
  contents <- lift (load_file fname) ;;
  iccid <- find_icc_profile contents ;;
  match iccid with
  | Some id => ret id
  | None =>
      n_channels <- lift (get_num_channels contents) ;;
      store_icc_profile contents n_channels
  end.

(** *** Construction *)

(** [PdfDocument::generate_info_object]. *)
Definition generate_info_object : M NoReturnValue :=
  o <- get opts ;;
  let dict := "<<" ++ NL in
  let dict :=
    if negb (bool_decide (title o = "")) then
      dict ++ "  /Title " ++ utf8_to_pdfmetastr (title o) ++ NL
    else dict in
  let dict :=
    if negb (bool_decide (author o = "")) then
      dict ++ "  /Author " ++ utf8_to_pdfmetastr (author o) ++ NL
    else dict in
  let dict :=
    if negb (bool_decide (creator o = "")) then
      dict ++ "  /Creator " ++ utf8_to_pdfmetastr (creator o) ++ NL
    else dict in
  let dict := dict ++ "  /Producer (CapyPDF " ++ CAPYPDF_VERSION_STR ++ ")" ++ NL in
  let dict := dict ++ "  /CreationDate " ++ current_date_string ++ NL in
  let dict := dict ++ "  /ModDate " ++ current_date_string ++ NL in
  let dict := dict ++ "  /Trapped /False" ++ NL in
  let dict :=
    if bool_decide (default CAPY_INTENT_SUBTYPE_PDFA (subtype o) = CAPY_INTENT_SUBTYPE_PDFX)
    then dict ++ "  /GTS_PDFXVersion (PDF/X-3:2003)" ++ NL
    else dict in
  let dict := dict ++ ">>" ++ NL in
  _ <- add_object (Full {| dictionary := dict; stream := "" |}) ;;
  ret tt.

(** [PdfDocument::create_separation]. *)
Definition create_separation (name : string) (fallback_c fallback_m fallback_y fallback_k
    : LimitDouble) : M Z :=
  let strm := "{ dup " ++ fmt_g (v fallback_c) ++ " mul
exch " ++ fmt_g (v fallback_m) ++ " exch dup " ++ fmt_g (v fallback_y) ++ " mul
exch " ++ fmt_g (v fallback_k) ++ " mul
}
" in
  let buf := "<<
  /FunctionType 4
  /Domain [ 0.0 1.0 ]
  /Range [ 0.0 1.0 0.0 1.0 0.0 1.0 0.0 1.0 ]
  /Length " ++ fmt_int (Z.of_nat (String.length strm)) ++ "
>>
" in
  fn_num <- add_object (Full {| dictionary := buf; stream := strm |}) ;;
  let buf := "[
  /Separation
    /" ++ name ++ "
    /DeviceCMYK
    " ++ fmt_int fn_num ++ " 0 R
]
" in
  sep <- add_object (Full {| dictionary := buf; stream := "" |}) ;;
  _ <- modify (fun d => set_separation_objects d (separation_objects d ++ [sep])) ;;
  n <- get (fun d => size_of (separation_objects d)) ;;
  ret (to_int32 n - 1).

(** [PdfDocument::create_page_group]. *)
Definition create_page_group : M Z :=
  o <- get opts ;;
  let buf := "<<
  /S /Transparency
  /CS " ++ colorspace_names (output_colorspace o) ++ "
>>
" in
  add_object (Full {| dictionary := buf; stream := "" |}).

(** [PdfDocument::create_output_intent]. *)
Definition create_output_intent : M unit :=
  o <- get opts ;;
  prof <- get output_profile ;;
  _ <- lift (cassert (bool_decide (is_Some prof))) ;;
  _ <- lift (cassert (bool_decide (is_Some (subtype o)))) ;;
  match prof, subtype o with
  | Some id, Some st =>
      profiles <- get icc_profiles ;;
      info <- lift (at_ profiles id) ;;
      let buf := "<<
  /Type /OutputIntent
  /S " ++ intentnames st ++ "
  /OutputConditionIdentifier " ++ pdfstring_quote (intent_condition_identifier o) ++ "
  /DestOutputProfile " ++ fmt_int (stream_num info) ++ " 0 R
>>
" in
      n <- add_object (Full {| dictionary := buf; stream := "" |}) ;;
      modify (fun d => set_output_intent_object d (Some n))
  | _, _ => crash
  end.

Definition one : LimitDouble := {| v := 1 |}.

(** [PdfDocument::init]. *)
Definition init : M NoReturnValue :=
  _ <- modify (fun d => set_document_objects d (document_objects d ++ [DummyIndexZero])) ;;
  _ <- generate_info_object ;;
  o <- get opts ;;
  conv <- get cm ;;
  _ <- (if bool_decide (output_colorspace o = CAPY_CS_DEVICE_CMYK)
        then _ <- create_separation "All" one one one one ;; ret tt
        else ret tt) ;;
  _ <- match output_colorspace o with
       | CAPY_CS_DEVICE_RGB =>
           if negb (bool_decide (get_rgb conv = "")) then
             id <- store_icc_profile (get_rgb conv) 3 ;;
             modify (fun d => set_output_profile d (Some id))
           else ret tt
       | CAPY_CS_DEVICE_GRAY =>
           if negb (bool_decide (get_gray conv = "")) then
             id <- store_icc_profile (get_gray conv) 1 ;;
             modify (fun d => set_output_profile d (Some id))
           else ret tt
       | CAPY_CS_DEVICE_CMYK =>
           if bool_decide (get_cmyk conv = "") then fail OutputProfileMissing
           else
             id <- store_icc_profile (get_cmyk conv) 4 ;;
             modify (fun d => set_output_profile d (Some id))
       end ;;
  pg <- create_page_group ;;
  _ <- modify (fun d => set_page_group_object d pg) ;;
  _ <- modify (fun d => set_document_objects d (document_objects d ++ [DelayedPages])) ;;
  _ <- modify (fun d => set_pages_object d (to_int32 (size_of (document_objects d) - 1))) ;;
  if bool_decide (is_Some (subtype o)) then
    prof <- get output_profile ;;
    if negb (bool_decide (is_Some prof)) then fail OutputProfileMissing
    else if bool_decide (intent_condition_identifier o = "") then fail MissingIntentIdentifier
    else _ <- create_output_intent ;; ret tt
  else ret tt.

(** [PdfDocument::construct]. *)
Definition construct (d : PdfGenerationData) (conv : PdfColorConverter)
  : rvoe PdfDocument :=
  match init (new_document d conv) with
  | (Ok _, newdoc) => Ok newdoc
  | (Err e, _) => Err e
  | (Crash, _) => Crash
  end.

(** *** Images *)

Inductive CapyPDF_Image_Interpolation : Type :=
| CAPY_INTERPOLATION_AUTO
| CAPY_INTERPOLATION_PIXELATED
| CAPY_INTERPOLATION_SMOOTH.

Record ImageMetadata : Type := {
  w : Z;
  h : Z;
  pixel_depth : Z;
  alpha_depth : Z;
  interp : CapyPDF_Image_Interpolation;
  cs : CapyPDF_Colorspace;
}.

Record RasterImage : Type := {
  md : ImageMetadata;
  pixels : string;
  alpha : string;
  icc_profile : string;
}.

(** [ColorspaceType], a [std::variant] of a device colourspace and an ICC
    profile id. *)
Inductive ColorspaceType : Type :=
| DeviceCs (k : CapyPDF_Colorspace)
| IccCs (id : Z).

(** [PdfDocument::add_image_object]. *)
Definition add_image_object (width height bits_per_component : Z)
    (interpolate : CapyPDF_Image_Interpolation) (colorspace : ColorspaceType)
    (smask_id : option Z) (is_mask : bool) (uncompressed_bytes : string) : M Z :=
  compressed <- lift (flate_compress uncompressed_bytes) ;;
  let buf := "<<
  /Type /XObject
  /Subtype /Image
  /Width " ++ fmt_int width ++ "
  /Height " ++ fmt_int height ++ "
  /BitsPerComponent " ++ fmt_int bits_per_component ++ "
  /Length " ++ fmt_int (Z.of_nat (String.length compressed)) ++ "
  /Filter /FlateDecode
" in
  let buf :=
    match interpolate with
    | CAPY_INTERPOLATION_PIXELATED => buf ++ "  /Interpolate false" ++ NL
    | CAPY_INTERPOLATION_SMOOTH => buf ++ "  /Interpolate true" ++ NL
    | CAPY_INTERPOLATION_AUTO => buf
    end in
  buf <- (if is_mask then ret (buf ++ "  /ImageMask true" ++ NL)
          else match colorspace with
               | DeviceCs k => ret (buf ++ "  /ColorSpace " ++ colorspace_names k ++ NL)
               | IccCs id =>
                   profiles <- get icc_profiles ;;
                   info <- lift (at_ profiles id) ;;
                   ret (buf ++ "  /ColorSpace " ++ fmt_int (object_num info) ++ " 0 R" ++ NL)
               end) ;;
  let buf :=
    match smask_id with
    | Some sm => buf ++ "  /SMask " ++ fmt_int sm ++ " 0 R" ++ NL
    | None => buf
    end in
  let buf := buf ++ ">>" ++ NL in
  im_id <- add_object (Full {| dictionary := buf; stream := compressed |}) ;;
  _ <- modify (fun d => set_image_info d
                 (image_info d ++ [{| image_size := {| iw := width; ih := height |};
                                      obj := im_id |}])) ;;
  n <- get (fun d => size_of (image_info d)) ;;
  ret (to_int32 n - 1).

Definition num_channels_for (k : CapyPDF_Colorspace) : Z :=
  match k with
  | CAPY_CS_DEVICE_RGB => 3
  | CAPY_CS_DEVICE_GRAY => 1
  | CAPY_CS_DEVICE_CMYK => 4
  end.

(** [PdfDocument::add_image]. *)
Definition add_image (image : RasterImage) (is_mask : bool) : M Z :=
  let imd := md image in
  if (w imd <=? 0) || (h imd <=? 0) then fail InvalidImageSize
  else if bool_decide (pixels image = "") then fail MissingPixels
  else if is_mask && negb (bool_decide (alpha image = "")) then fail MaskAndAlpha
  else
    smask_id <- (if negb (bool_decide (alpha image = "")) then
                   imobj <- add_image_object (w imd) (h imd) (alpha_depth imd) (interp imd)
                              (DeviceCs CAPY_CS_DEVICE_GRAY) None false (alpha image) ;;
                   infos <- get image_info ;;
                   info <- lift (at_ infos imobj) ;;
                   ret (Some (obj info))
                 else ret None) ;;
    if negb (bool_decide (icc_profile image = "")) then
      icc_id <- store_icc_profile (icc_profile image) (num_channels_for (cs imd)) ;;
      add_image_object (w imd) (h imd) (pixel_depth imd) (interp imd) (IccCs icc_id)
        smask_id is_mask (pixels image)
    else if bool_decide (cs imd = CAPY_CS_DEVICE_GRAY) then
      add_image_object (w imd) (h imd) (pixel_depth imd) (interp imd) (DeviceCs (cs imd))
        smask_id is_mask (pixels image)
    else
      o <- get opts ;;
      conv <- get cm ;;
      match output_colorspace o with
      | CAPY_CS_DEVICE_RGB | CAPY_CS_DEVICE_GRAY =>
          _ <- lift (cassert (negb (bool_decide (cs imd = CAPY_CS_DEVICE_GRAY)))) ;;
          add_image_object (w imd) (h imd) (pixel_depth imd) (interp imd) (DeviceCs (cs imd))
            smask_id is_mask (pixels image)
      | CAPY_CS_DEVICE_CMYK =>
          _ <- lift (cassert (negb (bool_decide (cs imd = CAPY_CS_DEVICE_GRAY)))) ;;
          if bool_decide (get_cmyk conv = "") then fail NoCmykProfile
          else if negb (bool_decide (cs imd = CAPY_CS_DEVICE_CMYK)) then fail UnsupportedFormat
          else
            add_image_object (w imd) (h imd) (pixel_depth imd) (interp imd)
              (DeviceCs (cs imd)) smask_id is_mask (pixels image)
      end.

(** *** Shadings, patterns and transparency groups *)

Definition decode_rows (k : CapyPDF_Colorspace) : string :=
  match k with
  | CAPY_CS_DEVICE_RGB => "    0 1
    0 1
    0 1
"
  | CAPY_CS_DEVICE_GRAY => "  0 1" ++ NL
  | CAPY_CS_DEVICE_CMYK => "    0 1
    0 1
    0 1
    0 1
"
  end.

(** The dictionary that both mesh overloads of [add_shading] format. *)
Definition mesh_shading_dict {Elt : Type} (shadingtype : Z) (shade : Shade.t Elt)
    (serialized : string) : string :=
  "<<
  /ShadingType " ++ fmt_int shadingtype ++ "
  /ColorSpace " ++ colorspace_names (Shade.colorspace shade) ++ "
  /BitsPerCoordinate 32
  /BitsPerComponent 16
  /BitsPerFlag 8
  /Length " ++ fmt_int (Z.of_nat (String.length serialized)) ++ "
  /Decode [
    " ++ fmt_f (Shade.minx shade) ++ " " ++ fmt_f (Shade.maxx shade) ++ "
    " ++ fmt_f (Shade.miny shade) ++ " " ++ fmt_f (Shade.maxy shade) ++ "
" ++ decode_rows (Shade.colorspace shade) ++ "  ]
>>
".

(** [PdfDocument::add_shading(const ShadingType4 &)]. *)
Definition add_shading4 (shade : ShadingType4) : M Z :=
  serialized <- lift (serialize_shade4 shade) ;;
  add_object (Full {| dictionary := mesh_shading_dict 4 shade serialized;
                      stream := serialized |}).

(** [PdfDocument::add_shading(const ShadingType6 &)]. *)
Definition add_shading6 (shade : ShadingType6) : M Z :=
  serialized <- lift (serialize_shade6 shade) ;;
  add_object (Full {| dictionary := mesh_shading_dict 6 shade serialized;
                      stream := serialized |}).

(** [PdfDocument::add_pattern]; [this] is the address of the document the
    member function is called on. *)
Definition add_pattern (this : Z) (ctx : PdfDrawContext) : M Z :=
  if bool_decide (doc ctx ≠ this) then fail IncorrectDocumentForObject
  else if bool_decide (context_type ctx ≠ CAPY_DC_COLOR_TILING) then fail InvalidDrawContextType
  else if bool_decide (marked_depth ctx ≠ 0) then fail UnclosedMarkedContent
  else
    let resources := build_resource_dict ctx in
    let cmds := commands ctx in
    let pattern_dict := "<<
  /Type /Pattern
  /PatternType 1
  /PaintType 1
  /TilingType 1
  /BBox [ " ++ fmt_f 0 ++ " " ++ fmt_f 0 ++ " " ++ fmt_f (get_w ctx) ++ " "
            ++ fmt_f (get_h ctx) ++ " ]
  /XStep " ++ fmt_f (get_w ctx) ++ "
  /YStep " ++ fmt_f (get_h ctx) ++ "
  /Resources " ++ resources ++ "
  /Length " ++ fmt_int (Z.of_nat (String.length cmds)) ++ "
>>
" in
    add_object (Full {| dictionary := pattern_dict; stream := cmds |}).

(** [PdfDocument::add_transparency_group]. [std::get<SerializedXObject>]
    throws on the other alternative. *)
Definition add_transparency_group (this : Z) (ctx : PdfDrawContext)
    (ex : option TransparencyGroupExtra) : M Z :=
  if bool_decide (context_type ctx ≠ CAPY_DC_TRANSPARENCY_GROUP) then
    fail InvalidDrawContextType
  else if bool_decide (marked_depth ctx ≠ 0) then fail UnclosedMarkedContent
  else
    match serialize ctx ex with
    | XObject sx =>
        objid <- add_object (Full {| dictionary := dict sx; stream := xcommand_stream sx |}) ;;
        _ <- modify (fun d => set_transparency_groups d (transparency_groups d ++ [objid])) ;;
        n <- get (fun d => size_of (transparency_groups d)) ;;
        ret (to_int32 n - 1)
    | BasicContext _ => crash
    end.

(** *** Pages *)

Record SubPageNavigation : Type := { ocg_id : Z; tr : option Transition }.

(** The body of the loop over [subnav] in [create_subnavigation], for index
    [i], [prev] being [subnav[i - 1]] when [i > 0]. *)
Definition subnav_node (ocgs : list Z) (first_obj : Z) (i : Z) (sn : SubPageNavigation)
    (prev : option SubPageNavigation) : string :=
  let buf := "<<
  /Type /NavNode
" in
  let buf := buf ++ "  /NA  <<" ++ NL in
  let buf := buf ++ "    /S /SetOCGState
    /State [ /ON " ++ fmt_int (ocg_object_number ocgs (ocg_id sn)) ++ " 0 R ]
" in
  let buf :=
    match tr sn with
    | Some t => buf ++ "    /Next <<
      /S /Trans
" ++ serialize_trans t "      " ++ "    >>" ++ NL
    | None => buf
    end in
  let buf := buf ++ "  >>" ++ NL in
  let buf := buf ++ "  /Next " ++ fmt_int (first_obj + i + 1) ++ " 0 R" ++ NL in
  let buf :=
    match prev with
    | Some pv => buf ++ "  /PA <<
    /S /SetOCGState
    /State [ /OFF " ++ fmt_int (ocg_object_number ocgs (ocg_id pv)) ++ " 0 R ]
  >>
" ++ "  /Prev " ++ fmt_int (first_obj + i - 1) ++ " 0 R" ++ NL
    | None => buf
    end in
  buf ++ ">>" ++ NL.

Fixpoint subnav_nodes (ocgs : list Z) (first_obj : Z) (i : Z)
    (prev : option SubPageNavigation) (subnav : list SubPageNavigation) : M unit :=
  match subnav with
  | [] => ret tt
  | sn :: rest =>
      _ <- add_object (Full {| dictionary := subnav_node ocgs first_obj i sn prev;
                               stream := "" |}) ;;
      subnav_nodes ocgs first_obj (i + 1) (Some sn) rest
  end.

Definition ocg_refs (ocgs : list Z) (subnav : list SubPageNavigation) : string :=
  fold_left (fun acc i => acc ++ "      " ++ fmt_int (ocg_object_number ocgs (ocg_id i))
                              ++ " 0 R" ++ NL) subnav "".

(** [PdfDocument::create_subnavigation]. *)
Definition create_subnavigation (subnav : list SubPageNavigation) : M Z :=
  _ <- lift (cassert (negb (bool_decide (subnav = [])))) ;;
  match last subnav with
  | None => crash
  | Some back =>
      ocgs <- get ocg_items ;;
      n <- get (fun d => size_of (document_objects d)) ;;
      let root_obj := to_int32 n in
      let rootbuf := "<<
  /Type /NavNode
  /NA <<
    /S /SetOCGState
    /State [ /OFF
" ++ ocg_refs ocgs subnav ++ "    ]
  >>
" ++ "  /Next " ++ fmt_int (root_obj + 1) ++ " 0 R" ++ NL ++ "  /PA <<
    /S /SetOCGState
    /State [ /ON
" ++ ocg_refs ocgs subnav ++ "    ]
  >>
" ++ "  /Prev " ++ fmt_int (root_obj + 1 + size_of subnav) ++ " 0 R
>>
" in
      _ <- add_object (Full {| dictionary := rootbuf; stream := "" |}) ;;
      n <- get (fun d => size_of (document_objects d)) ;;
      let first_obj := to_int32 n in
      _ <- subnav_nodes ocgs first_obj 0 None subnav ;;
      _ <- add_object (Full {| dictionary := "<<
  /Type /NavNode
  /PA <<
    /S /SetOCGState
    /State [ /OFF " ++ fmt_int (ocg_object_number ocgs (ocg_id back)) ++ " 0 R ]
  >>
  /Prev " ++ fmt_int (first_obj + size_of subnav - 1) ++ " 0 R
>>
"; stream := "" |}) ;;
      ret root_obj
  end.

(** The three loops at the head of [add_page] return at the first id that a
    usage map already holds. *)
Definition used_in {V : Type} (use : gmap Z V) (ids : list Z) : bool :=
  existsb (fun a => bool_decide (is_Some (use !! a))) ids.

(** [form_use[fw] = page_object_num] for each id. *)
Definition mark_used (ids : list Z) (page_object_num : Z) (use : gmap Z Z) : gmap Z Z :=
  fold_left (fun u a => <[a := page_object_num]> u) ids use.

(** [structure_use[s] = StructureUsage{page, mcid_num++}] for each id, in order. *)
Fixpoint mark_structures (structs : list Z) (page mcid : Z) (use : gmap Z StructureUsage)
  : gmap Z StructureUsage :=
  match structs with
  | [] => use
  | st :: rest =>
      mark_structures rest page (mcid + 1)
        (<[st := {| page_num_of := page; mcid_num := mcid |}]> use)
  end.

(** [PdfDocument::add_page]. The two sets are [std::unordered_set]s; a loop
    over one visits its elements once each, in an order that the hash table
    decides and the source does not fix. Here it is the order [elements]
    gives; what is proved about pages depends on which ids a page lists,
    not on their order. *)
Definition add_page (resource_dict unclosed_object_dict command_stream : string)
    (custom_props : PageProperties) (fws annots : gset Z) (structs : list Z)
    (transition : option Transition) (subnav : list SubPageNavigation)
  : M NoReturnValue :=
  fun d0 =>
  if used_in (form_use d0) (elements fws) then (Err AnnotationReuse, d0)
  else if used_in (annotation_use d0) (elements annots) then (Err AnnotationReuse, d0)
  else if used_in (structure_use d0) structs then (Err StructureReuse, d0)
  else
    (resource_num <- add_object (Full {| dictionary := resource_dict; stream := "" |}) ;;
     o <- get opts ;;
     commands_num <-
       (if compress_streams o then
          add_object (Deflate {| unclosed_dictionary := unclosed_object_dict;
                                 dstream := command_stream |})
        else
          add_object (Full {| dictionary :=
                                unclosed_object_dict ++ "  /Length "
                                  ++ fmt_int (Z.of_nat (String.length command_stream)) ++ "
>>
";
                              stream := command_stream |})) ;;
     npages <- get (fun d => size_of (pages d)) ;;
     subnav_root <- (if negb (bool_decide (subnav = [])) then
                       root <- create_subnavigation subnav ;; ret (Some root)
                     else ret None) ;;
     structparents <- (if negb (bool_decide (structs = [])) then
                         n <- get (fun d => size_of (structure_parent_tree_items d)) ;;
                         _ <- modify (fun d => set_structure_parent_tree_items d
                                        (structure_parent_tree_items d ++ [structs])) ;;
                         ret (Some (to_int32 n))
                       else ret None) ;;
     let pg := {| page_num := to_int32 npages; custom_props := custom_props;
                  used_form_widgets := elements fws; used_annotations := elements annots;
                  transition := transition; subnav_root := subnav_root;
                  structparents := structparents |} in
     page_object_num <- add_object (Page pg) ;;
     _ <- modify (fun d => set_form_use d (mark_used (elements fws) page_object_num (form_use d))) ;;
     _ <- modify (fun d => set_annotation_use d
                    (mark_used (elements annots) page_object_num (annotation_use d))) ;;
     _ <- modify (fun d => set_structure_use d
                    (mark_structures structs (to_int32 (size_of (pages d))) 0 (structure_use d))) ;;
     _ <- modify (fun d => set_pages d
                    (pages d ++ [{| resource_obj_num := resource_num;
                                    commands_obj_num := commands_num;
                                    page_obj_num := page_object_num |}])) ;;
     ret tt) d0.

(** *** Font subsets *)

Definition num_subsets (fs : FontSubsetter) : Z := size_of (subset_list fs).

(** [get_subset(i)]; an index outside the list is a crash. *)
Definition get_subset (fs : FontSubsetter) (i : Z) : rvoe (list Z) := at_ (subset_list fs) i.

(** The position of [codepoint] in a vector, with the index of the first
    position counted from [i]. *)
Fixpoint index_of (codepoint : Z) (glyphs : list Z) (i : Z) : option Z :=
  match glyphs with
  | [] => None
  | g :: rest => if bool_decide (g = codepoint) then Some i else index_of codepoint rest (i + 1)
  end.

(** The first subset, counted from [i], that holds [codepoint]. *)
Fixpoint find_glyph_from (codepoint : Z) (ss : list (list Z)) (i : Z) : option (Z * Z) :=
  match ss with
  | [] => None
  | glyphs :: rest =>
      match index_of codepoint glyphs 0 with
      | Some j => Some (i, j)
      | None => find_glyph_from codepoint rest (i + 1)
      end
  end.

Definition find_glyph (fs : FontSubsetter) (codepoint : Z) : option (Z * Z) :=
  find_glyph_from codepoint (subset_list fs) 0.

(** Modelled from the spec: [unchecked_insert_glyph_to_last_subset], of the
    missing [FontSubsetter]; it "bypasses dedup": the codepoint goes to the
    end of the last subset, whatever the subsets hold. The result is
    (subset index, local glyph id) and the subsetter afterwards. *)
Definition unchecked_insert_glyph_to_last_subset (codepoint : Z) (fs : FontSubsetter)
  : (Z * Z) * FontSubsetter :=
  match last (subset_list fs) with
  | Some glyphs =>
      ((num_subsets fs - 1, size_of glyphs),
       {| subset_list := (removelast (subset_list fs) ++ [glyphs ++ [codepoint]])%list |})
  | None => ((0, 0), {| subset_list := [[codepoint]] |})
  end.

Definition max_glyphs : Z := 256.

(** Modelled from the spec: [get_glyph_subset], of the missing
    [FontSubsetter]. Section 4.4: "if the codepoint already has a slot in any
    subset, return it; otherwise, if the last subset has a free slot (<256
    entries), append there; otherwise open a new subset and append." *)
Definition get_glyph_subset (codepoint : Z) (fs : FontSubsetter)
  : (Z * Z) * FontSubsetter :=
  match find_glyph fs codepoint with
  | Some slot => (slot, fs)
  | None =>
      match last (subset_list fs) with
      | Some glyphs =>
          if size_of glyphs <? max_glyphs then unchecked_insert_glyph_to_last_subset codepoint fs
          else ((num_subsets fs, 0), {| subset_list := (subset_list fs ++ [[codepoint]])%list |})
      | None => ((0, 0), {| subset_list := [[codepoint]] |})
      end
  end.

Definition SPACE : Z := 32.
Definition max_count : nat := 100.

(** The inner loop of [pad_subset_fonts]: [n] turns are left, the next one is
    turn [i]. [None] when the loop ends with [padding_succeeded] false. *)
Fixpoint pad_loop (n : nat) (i : Z) (subset_id : Z) (subsetter : FontSubsetter)
  : rvoe (option FontSubsetter) :=
  match n with
  | O => Ok None
  | S n' =>
      glyphs <~ get_subset subsetter subset_id ;;
      if size_of glyphs =? SPACE then Ok (Some subsetter)
      else
        let cur_glyph_codepoint := 33 + i in
        pad_loop n' (i + 1) subset_id (snd (get_glyph_subset cur_glyph_codepoint subsetter))
  end.

(** The body of the outer loop of [pad_subset_fonts], for one font. *)
Definition pad_subsetter (subsetter : FontSubsetter) : rvoe FontSubsetter :=
  _ <~ cassert (0 <? num_subsets subsetter) ;;
  let subset_id := num_subsets subsetter - 1 in
  glyphs <~ get_subset subsetter subset_id ;;
  if SPACE <? size_of glyphs then Ok subsetter
  else
    padded <~ pad_loop max_count 0 subset_id subsetter ;;
    match padded with
    | None => Crash
    | Some subsetter =>
        let subsetter := snd (unchecked_insert_glyph_to_last_subset 32 subsetter) in
        glyphs <~ get_subset subsetter subset_id ;;
        _ <~ cassert (size_of glyphs =? SPACE + 1) ;;
        Ok subsetter
    end.

Definition pad_font (sf : FontThingy) : rvoe FontThingy :=
  padded <~ pad_subsetter (subsets sf) ;;
  Ok {| fontdata := fontdata sf; subsets := padded |}.

Fixpoint pad_fonts (l : list FontThingy) : rvoe (list FontThingy) :=
  match l with
  | [] => Ok []
  | sf :: rest =>
      sf' <~ pad_font sf ;;
      rest' <~ pad_fonts rest ;;
      Ok (sf' :: rest')
  end.

(** [PdfDocument::pad_subset_fonts]. *)
Definition pad_subset_fonts : M unit :=
  fs <- get fonts ;;
  padded <- lift (pad_fonts fs) ;;
  modify (fun d => set_fonts d padded).

End Model.

(** * More of the translation unit

    The functions of [pdfdocument.cpp] and [drawcontext.hpp] that the
    sections above do not need: the remaining registrations of images,
    colour spaces, functions, shadings, graphics states and builtin fonts,
    the padding of a glyph vector, the role map, the outline tree and the
    hash of a font subset. Members of [PdfDocument] that the record above
    does not have are passed to the functions that use them. *)

(** ** The hash of a font subset ([drawcontext.hpp]) *)

(** [FontSubset]: a font id and the index of one of its subsets. *)
Record FontSubset : Type := { fid : Z; subset_id : Z }.

(** [std::hash<FontSubset>::operator()], for a [size_t] of [size_t_bytes]
    bytes: both members are converted to [size_t], and the sum wraps. *)
Definition hash_FontSubset (size_t_bytes : Z) (s : FontSubset) : Z :=
  let modulus := 2 ^ (8 * size_t_bytes) in
  let x := fid s mod modulus in
  let y := subset_id s mod modulus in
  if size_t_bytes =? 8 then (Z.shiftl x 32 mod modulus + y) mod modulus
  else (Z.shiftl x 16 mod modulus + y) mod modulus.

(** ** Padding a glyph vector *)

(** [TTGlyphs], a [std::variant]: [RegularGlyph] holds a codepoint; the code
    below asks of the other alternatives only that they are not a
    [RegularGlyph], so they are one constructor with their index in the
    variant. *)
Inductive TTGlyphs : Type :=
| RegularGlyph (unicode_codepoint : Z)
| OtherGlyph (alternative : Z).

#[global] Instance TTGlyphs_eq_dec : EqDecision TTGlyphs.
Proof. solve_decision. Defined.

(** The lambda [glfind] of [pad_subset_until_space]. *)
Definition glfind (cur_glyph_codepoint : Z) (g : TTGlyphs) : bool :=
  match g with
  | RegularGlyph unicode_codepoint => bool_decide (unicode_codepoint = cur_glyph_codepoint)
  | OtherGlyph _ => false
  end.

(** The loop of [pad_subset_until_space]: [n] turns are left, the next one is
    turn [i]. [None] when the loop ends with [padding_succeeded] false. *)
Fixpoint pad_until_space_loop (n : nat) (i : Z) (subset_glyphs : list TTGlyphs)
  : option (list TTGlyphs) :=
  match n with
  | O => None
  | S n' =>
      if size_of subset_glyphs =? SPACE then Some subset_glyphs
      else
        let cur_glyph_codepoint := 33 + i in
        if existsb (glfind cur_glyph_codepoint) subset_glyphs
        then pad_until_space_loop n' (i + 1) subset_glyphs
        else pad_until_space_loop n' (i + 1)
               (subset_glyphs ++ [RegularGlyph cur_glyph_codepoint])%list
  end.

(** ** The role map *)

Record RolemapEnty : Type := { name : string; builtin : Z }.

(** [name.front() == '/']. *)
Definition starts_with_slash (s : string) : bool :=
  match s with
  | String ch _ => bool_decide (ch = "/"%char)
  | EmptyString => false
  end.

(** [PdfDocument::add_rolemap_entry]; it reads and writes the member
    [rolemap] only, which is passed in and out. *)
Definition add_rolemap_entry (new_name : string) (builtin_type : Z)
    (rolemap : list RolemapEnty) : rvoe Z * list RolemapEnty :=
  if bool_decide (new_name = "") || starts_with_slash new_name then (Err SlashStart, rolemap)
  else if existsb (fun i => bool_decide (name i = new_name)) rolemap
       then (Err RoleAlreadyDefined, rolemap)
       else
         let rolemap := (rolemap ++ [{| name := new_name; builtin := builtin_type |}])%list in
         (Ok (to_int32 (size_of rolemap) - 1), rolemap).

(** ** The outline tree *)

(** [Outline]: the title, the destination page and the parent given to
    [add_outline]. *)
Record Outline : Type := { otitle : string; dest : Z; oparent : option Z }.

(** The member [outlines], as this file uses it: the items, and the two maps
    from an outline id to its parent and to its children ([-1] stands for
    the top level). *)
Record Outlines : Type := {
  items : list Outline;
  parent : gmap Z Z;
  children : gmap Z (list Z);
}.

(** [PdfDocument::add_outline]; it reads and writes the member [outlines]
    only, which is passed in and out. [children[par_id]] makes an empty
    vector when the key is new. *)
Definition add_outline (title_utf8 : string) (dest_page : Z) (parent_id : option Z)
    (outlines : Outlines) : rvoe Z * Outlines :=
  let cur_id := to_int32 (size_of (items outlines)) in
  let par_id := default (-1) parent_id in
  (Ok cur_id,
   {| items := (items outlines
                  ++ [{| otitle := title_utf8; dest := dest_page; oparent := parent_id |}])%list;
      parent := <[cur_id := par_id]> (parent outlines);
      children := <[par_id := (default [] (children outlines !! par_id) ++ [cur_id])%list]>
                    (children outlines) |}).

(** [std::map::at], which throws when the key is missing. *)
Definition map_at {V : Type} (m : gmap Z V) (key : Z) : rvoe V :=
  match m !! key with
  | Some value => Ok value
  | None => Crash
  end.

(** [std::find]: the position of the first element equal to [x]. *)
Fixpoint find_index (x : Z) (l : list Z) : option nat :=
  match l with
  | [] => None
  | y :: rest => if bool_decide (y = x) then Some O else option_map S (find_index x rest)
  end.

(** The [/Prev] and [/Next] entries of an outline item. When [std::find]
    does not find the item among its siblings the [assert] fails, and
    without the [assert] the iterator past the end is incremented, which is
    undefined. *)
Definition outline_links (first_obj_num cur_id : Z) (siblings : list Z) (oitem : string)
  : rvoe string :=
  if 1 <? size_of siblings then
    match find_index cur_id siblings with
    | None => Crash
    | Some loc =>
        let oitem :=
          match loc with
          | O => oitem
          | S before =>
              match siblings !! before with
              | Some prevloc => oitem ++ "  /Prev " ++ fmt_int (first_obj_num + prevloc)
                                  ++ " 0 R" ++ NL
              | None => oitem
              end
          end in
        let oitem :=
          match siblings !! S loc with
          | Some nextloc => oitem ++ "  /Next " ++ fmt_int (first_obj_num + nextloc)
                              ++ " 0 R" ++ NL
          | None => oitem
          end in
        Ok oitem
    end
  else Ok oitem.

(** The [/First], [/Last] and [/Count] entries of an outline item that has
    an entry in [children]; [front] of an empty vector is undefined. *)
Definition outline_children (first_obj_num : Z) (childs : option (list Z)) (oitem : string)
  : rvoe string :=
  match childs with
  | Some [] => Crash
  | Some (front :: more) =>
      Ok (oitem ++ "  /First " ++ fmt_int (first_obj_num + front) ++ " 0 R" ++ NL
                ++ "  /Last " ++ fmt_int (first_obj_num + List.last more front) ++ " 0 R" ++ NL
                ++ "  /Count " ++ fmt_int (- to_int32 (size_of (front :: more))) ++ NL)
  | None => Ok oitem
  end.

(** ** Records of the headers *)

Module Jpg.
(** [jpg_image]. *)
Record jpg_image : Type := { w : Z; h : Z; file_contents : string }.
End Jpg.

(** [LabColorSpace]. *)
Record LabColorSpace : Type := {
  xw : float; yw : float; zw : float;
  amin : float; amax : float; bmin : float; bmax : float;
}.

(** [GraphicsState]: every member is a [std::optional]. The members that are
    enumerations are their integer values. *)
Record GraphicsState : Type := {
  LW : option float;
  LC : option Z;
  LJ : option Z;
  ML : option float;
  RI : option Z;
  OP : option bool;
  op : option bool;
  OPM : option Z;
  FL : option float;
  SM : option float;
  BM : option Z;
  CA : option LimitDouble;
  ca : option LimitDouble;
  AIS : option bool;
  TK : option bool;
}.

Definition rendering_intent_names : list string :=
  ["RelativeColorimetric"; "AbsoluteColorimetric"; "Saturation"; "Perceptual"]%list.

Definition blend_mode_names : list string :=
  ["Normal"; "Multiply"; "Screen"; "Overlay"; "Darken"; "Lighten"; "ColorDodge";
   "ColorBurn"; "HardLight"; "SoftLight"; "Difference"; "Exclusion"; "Hue";
   "Saturation"; "Color"; "Luminosity"]%list.

(** [FunctionType2]. *)
Record FunctionType2 : Type := {
  domain : list float;
  C0 : Color;
  C1 : Color;
  n : float;
}.

(** [std::variant::index] of a [Color]: the position of the alternative it
    holds. *)
Definition color_index (col : Color) : Z :=
  match col with
  | DeviceRGBColor _ _ _ => 0
  | DeviceGrayColor _ => 1
  | DeviceCMYKColor _ _ _ _ => 2
  | ICCColor => 3
  | LabColor => 4
  | SeparationColor => 5
  | PatternColor => 6
  end.

Module Shade2.
(** [ShadingType2]. *)
Record t : Type := {
  colorspace : CapyPDF_Colorspace;
  x0 : float; y0 : float; x1 : float; y1 : float;
  function : Z;
  extend0 : bool;
  extend1 : bool;
}.
End Shade2.

Module Shade3.
(** [ShadingType3]. *)
Record t : Type := {
  colorspace : CapyPDF_Colorspace;
  x0 : float; y0 : float; r0 : float;
  x1 : float; y1 : float; r1 : float;
  function : Z;
  extend0 : bool;
  extend1 : bool;
}.
End Shade3.

Definition ShadingType2 : Type := Shade2.t.
Definition ShadingType3 : Type := Shade3.t.

Section Registrations.
Context {E : Env}.

#[local] Notation "x <- m ;; k" := (bind m (fun x => k))
  (at level 100, m at next level, right associativity).

(** [PdfDocument::pad_subset_until_space]. *)
Definition pad_subset_until_space (subset_glyphs : list TTGlyphs) : rvoe (list TTGlyphs) :=
  if SPACE <? size_of subset_glyphs then Ok subset_glyphs
  else
    match pad_until_space_loop max_count 0 subset_glyphs with
    | None => Crash
    | Some subset_glyphs =>
        let subset_glyphs := (subset_glyphs ++ [RegularGlyph SPACE])%list in
        _ <~ cassert (size_of subset_glyphs =? SPACE + 1) ;;
        Ok subset_glyphs
    end.

Definition set_ocg_items (d : PdfDocument) (x : list Z) : PdfDocument :=
  {| opts := opts d; cm := cm d; document_objects := document_objects d; pages := pages d;
     icc_profiles := icc_profiles d; image_info := image_info d;
     separation_objects := separation_objects d; form_use := form_use d;
     annotation_use := annotation_use d; structure_use := structure_use d;
     structure_parent_tree_items := structure_parent_tree_items d;
     transparency_groups := transparency_groups d; ocg_items := x;
     fonts := fonts d; output_profile := output_profile d;
     output_intent_object := output_intent_object d;
     page_group_object := page_group_object d; pages_object := pages_object d |}.

(** [PdfDocument::add_lab_colorspace]. *)
Definition add_lab_colorspace (lab : LabColorSpace) : M Z :=
  let buf := "[ /Lab
  <<
    /WhitePoint [ " ++ fmt_f (xw lab) ++ " " ++ fmt_f (yw lab) ++ " " ++ fmt_f (zw lab) ++ " ]
    /Range [ " ++ fmt_f (amin lab) ++ " " ++ fmt_f (amax lab) ++ " " ++ fmt_f (bmin lab)
               ++ " " ++ fmt_f (bmax lab) ++ " ]
  >>
]
" in
  _ <- add_object (Full {| dictionary := buf; stream := "" |}) ;;
  size <- get (fun d => size_of (document_objects d)) ;;
  ret (to_int32 size - 1).

(** [PdfDocument::add_mask_image]. *)
Definition add_mask_image (image : RasterImage) : M Z :=
  let imd := md image in
  if negb (bool_decide (cs imd = CAPY_CS_DEVICE_GRAY))
     || negb (bool_decide (pixel_depth imd = 1))
  then fail UnsupportedFormat
  else
    add_image_object (w imd) (h imd) (pixel_depth imd) (interp imd) (DeviceCs (cs imd))
      None true (pixels image).

(** [PdfDocument::embed_jpg]. *)
Definition embed_jpg (jpg : Jpg.jpg_image) (interpolate : CapyPDF_Image_Interpolation) : M Z :=
  let buf := "<<
  /Type /XObject
  /Subtype /Image
  /ColorSpace /DeviceRGB
  /Width " ++ fmt_int (Jpg.w jpg) ++ "
  /Height " ++ fmt_int (Jpg.h jpg) ++ "
  /BitsPerComponent 8
  /Length " ++ fmt_int (Z.of_nat (String.length (Jpg.file_contents jpg))) ++ "
  /Filter /DCTDecode
>>
" in
  let buf :=
    match interpolate with
    | CAPY_INTERPOLATION_PIXELATED => buf ++ "  /Interpolate false" ++ NL
    | CAPY_INTERPOLATION_SMOOTH => buf ++ "  /Interpolate true" ++ NL
    | CAPY_INTERPOLATION_AUTO => buf
    end in
  im_id <- add_object (Full {| dictionary := buf; stream := Jpg.file_contents jpg |}) ;;
  _ <- modify (fun d => set_image_info d
                 (image_info d ++ [{| image_size := {| iw := Jpg.w jpg; ih := Jpg.h jpg |};
                                      obj := im_id |}])%list) ;;
  size <- get (fun d => size_of (image_info d)) ;;
  ret (to_int32 size - 1).

(** ["true"] or ["false"]. *)
Definition fmt_bool (b : bool) : string := if b then "true" else "false".

(** One optional key of the graphics state dictionary. *)
Definition gs_key {A : Type} (key : string) (fmt : A -> string) (value : option A)
    (buf : string) : string :=
  match value with
  | Some a => buf ++ "  /" ++ key ++ " " ++ fmt a ++ NL
  | None => buf
  end.

(** The same for a key whose value is looked up in an array of names with
    [at], which throws outside the array. *)
Definition gs_name_key (key : string) (names : list string) (value : option Z)
    (buf : string) : rvoe string :=
  match value with
  | Some i => nm <~ at_ names i ;; Ok (buf ++ "  /" ++ key ++ " /" ++ nm ++ NL)
  | None => Ok buf
  end.

(** [PdfDocument::add_graphics_state]. *)
Definition add_graphics_state (state : GraphicsState) : M Z :=
  size <- get (fun d => size_of (document_objects d)) ;;
  let id := to_int32 size in
  let buf := "<<
  /Type /ExtGState
" in
  let buf := gs_key "LW" fmt_f (LW state) buf in
  let buf := gs_key "LC" fmt_int (LC state) buf in
  let buf := gs_key "LJ" fmt_int (LJ state) buf in
  let buf := gs_key "ML" fmt_f (ML state) buf in
  buf <- lift (gs_name_key "RenderingIntent" rendering_intent_names (RI state) buf) ;;
  let buf := gs_key "OP" fmt_bool (OP state) buf in
  let buf := gs_key "op" fmt_bool (op state) buf in
  let buf := gs_key "OPM" fmt_int (OPM state) buf in
  let buf := gs_key "FL" fmt_f (FL state) buf in
  let buf := gs_key "SM" fmt_f (SM state) buf in
  buf <- lift (gs_name_key "BM" blend_mode_names (BM state) buf) ;;
  let buf := gs_key "CA" (fun x => fmt_f (v x)) (CA state) buf in
  let buf := gs_key "ca" (fun x => fmt_f (v x)) (ca state) buf in
  let buf := gs_key "AIS" fmt_bool (AIS state) buf in
  let buf := gs_key "TK" fmt_bool (TK state) buf in
  let buf := buf ++ ">>" ++ NL in
  _ <- add_object (Full {| dictionary := buf; stream := "" |}) ;;
  ret id.

(** [color2numbers]: the text it appends. *)
Definition color2numbers (col : Color) : rvoe string :=
  match col with
  | DeviceRGBColor r g b => Ok (fmt_g (v r) ++ " " ++ fmt_g (v g) ++ " " ++ fmt_g (v b))
  | DeviceGrayColor gray => Ok (fmt_g (v gray))
  | DeviceCMYKColor c m y k =>
      Ok (fmt_g (v c) ++ " " ++ fmt_g (v m) ++ " " ++ fmt_g (v y) ++ " " ++ fmt_g (v k))
  | _ => Crash
  end.

(** [PdfDocument::add_function]. *)
Definition add_function (func : FunctionType2) : M Z :=
  let functiontype := 2 in
  if negb (color_index (C0 func) =? color_index (C1 func)) then fail ColorspaceMismatch
  else
    let buf := "<<
  /FunctionType " ++ fmt_int functiontype ++ "
  /N " ++ fmt_g (n func) ++ "
" in
    let buf := buf ++ "  /Domain [ " in
    let buf := fold_left (fun acc dm => acc ++ fmt_g dm ++ " ") (domain func) buf in
    let buf := buf ++ "]" ++ NL in
    let buf := buf ++ "  /C0 [ " in
    c0 <- lift (color2numbers (C0 func)) ;;
    let buf := buf ++ c0 in
    let buf := buf ++ "]" ++ NL in
    let buf := buf ++ "  /C1 [ " in
    c1 <- lift (color2numbers (C1 func)) ;;
    let buf := buf ++ c1 in
    let buf := buf ++ "]" ++ NL in
    let buf := buf ++ ">>" ++ NL in
    add_object (Full {| dictionary := buf; stream := "" |}).

(** [PdfDocument::add_shading(const ShadingType2 &)]. *)
Definition add_shading2 (shade : ShadingType2) : M Z :=
  let shadingtype := 2 in
  let buf := "<<
  /ShadingType " ++ fmt_int shadingtype ++ "
  /ColorSpace " ++ colorspace_names (Shade2.colorspace shade) ++ "
  /Coords [ " ++ fmt_f (Shade2.x0 shade) ++ " " ++ fmt_f (Shade2.y0 shade) ++ " "
              ++ fmt_f (Shade2.x1 shade) ++ " " ++ fmt_f (Shade2.y1 shade) ++ " ]
  /Function " ++ fmt_int (Shade2.function shade) ++ " 0 R
  /Extend [ " ++ fmt_bool (Shade2.extend0 shade) ++ " " ++ fmt_bool (Shade2.extend1 shade) ++ " ]
>>
" in
  add_object (Full {| dictionary := buf; stream := "" |}).

(** [PdfDocument::add_shading(const ShadingType3 &)]. *)
Definition add_shading3 (shade : ShadingType3) : M Z :=
  let shadingtype := 3 in
  let buf := "<<
  /ShadingType " ++ fmt_int shadingtype ++ "
  /ColorSpace " ++ colorspace_names (Shade3.colorspace shade) ++ "
  /Coords [ " ++ fmt_f (Shade3.x0 shade) ++ " " ++ fmt_f (Shade3.y0 shade) ++ " "
              ++ fmt_f (Shade3.r0 shade) ++ " " ++ fmt_f (Shade3.x1 shade) ++ " "
              ++ fmt_f (Shade3.y1 shade) ++ " " ++ fmt_f (Shade3.r1 shade) ++ "]
  /Function " ++ fmt_int (Shade3.function shade) ++ " 0 R
  /Extend [ " ++ fmt_bool (Shade3.extend0 shade) ++ " " ++ fmt_bool (Shade3.extend1 shade) ++ " ]
>>
" in
  add_object (Full {| dictionary := buf; stream := "" |}).

(** [PdfDocument::add_optional_content_group]; [g_name] is the member [name]
    of the [OptionalContentGroup]. *)
Definition add_optional_content_group (g_name : string) : M Z :=
  id <- add_object (Full {| dictionary := "<<
  /Type /OCG
  /Name " ++ pdfstring_quote g_name ++ "
>>
"; stream := "" |}) ;;
  _ <- modify (fun d => set_ocg_items d (ocg_items d ++ [id])%list) ;;
  size <- get (fun d => size_of (ocg_items d)) ;;
  ret (to_int32 size - 1).

(** The body of the loop of [create_outlines] up to [add_object]: the
    dictionary of item [cur_id]. *)
Definition outline_item (outlines : Outlines) (pgs : list PageOffsets)
    (first_obj_num catalog_obj_num cur_id : Z) (cur_obj : Outline) : rvoe string :=
  let titlestr := utf8_to_pdfmetastr (otitle cur_obj) in
  parent_id <~ map_at (parent outlines) cur_id ;;
  siblings <~ map_at (children outlines) parent_id ;;
  page <~ at_ pgs (dest cur_obj) ;;
  let oitem := "<<
  /Title " ++ titlestr ++ "
  /Dest [ " ++ fmt_int (page_obj_num page) ++ " 0 R /XYZ null null null]
" in
  oitem <~ outline_links first_obj_num cur_id siblings oitem ;;
  oitem <~ outline_children first_obj_num (children outlines !! cur_id) oitem ;;
  Ok (oitem ++ "  /Parent "
            ++ fmt_int (if 0 <=? parent_id then first_obj_num + parent_id else catalog_obj_num)
            ++ " 0 R
>>").

(** The loop of [create_outlines], from [cur_id] on, over the items that are
    left. *)
Fixpoint outline_nodes (outlines : Outlines) (first_obj_num catalog_obj_num cur_id : Z)
    (todo : list Outline) : M unit :=
  match todo with
  | []%list => ret tt
  | (cur_obj :: rest)%list =>
      pgs <- get pages ;;
      oitem <- lift (outline_item outlines pgs first_obj_num catalog_obj_num cur_id cur_obj) ;;
      _ <- add_object (Full {| dictionary := oitem; stream := "" |}) ;;
      outline_nodes outlines first_obj_num catalog_obj_num (cur_id + 1) rest
  end.

(** [PdfDocument::create_outlines]; the member [outlines] is passed in. The
    loop runs while [cur_id] is below the size as an [int32_t]. *)
Definition create_outlines (outlines : Outlines) : M Z :=
  size <- get (fun d => size_of (document_objects d)) ;;
  let first_obj_num := to_int32 size in
  let count := to_int32 (size_of (items outlines)) in
  let catalog_obj_num := first_obj_num + count in
  _ <- outline_nodes outlines first_obj_num catalog_obj_num 0
         (take (Z.to_nat count) (items outlines)) ;;
  top_level <- lift (map_at (children outlines) (-1)) ;;
  match top_level with
  | []%list => crash
  | (front :: more)%list =>
      let buf := "<<
  /Type /Outlines
  /First " ++ fmt_int (first_obj_num + front) ++ " 0 R
  /Last " ++ fmt_int (first_obj_num + List.last more front) ++ " 0 R
  /Count " ++ fmt_int (size_of top_level) ++ "
>>
" in
      size <- get (fun d => size_of (document_objects d)) ;;
      _ <- lift (cassert (catalog_obj_num =? to_int32 size)) ;;
      add_object (Full {| dictionary := buf; stream := "" |})
  end.

(** [font_names]. *)
Definition font_names : list string :=
  ["Times-Roman"; "Helvetica"; "Courier"; "Symbol"; "Times-Roman-Bold"; "Helvetica-Bold";
   "Courier-Bold"; "ZapfDingbats"; "Times-Italic"; "Helvetica-Oblique"; "Courier-Oblique";
   "Times-BoldItalic"; "Helvetica-BoldOblique"; "Courier-BoldOblique"]%list.

(** [FontInfo], by the four values [get_builtin_font_id] builds it from, in
    the order of the initialiser; the third is the number of the font
    object. *)
Definition FontInfo : Type := Z * Z * Z * Z.

Definition font_object_of (info : FontInfo) : Z := snd (fst info).

(** The members [font_objects] and [builtin_fonts], which
    [get_builtin_font_id] reads and writes beside the object table. *)
Record FontTables : Type := {
  font_objects : list FontInfo;
  builtin_fonts : gmap Z Z;
}.

(** The dictionary of a builtin font. *)
Definition builtin_font_dict (font_name : string) : string :=
  "<<
  /Type /Font
  /Subtype /Type1
  /BaseFont /" ++ font_name ++ "
>>
".

(** [PdfDocument::get_builtin_font_id], for a [size_t] of [size_t_bytes]
    bytes; [font] is the value of the enumeration. [font_names[font]] is not
    checked: outside the array it is undefined. *)
Definition get_builtin_font_id (size_t_bytes : Z) (font : Z) (tables : FontTables)
  : M (Z * FontTables) :=
  match builtin_fonts tables !! font with
  | Some id => ret (id, tables)
  | None =>
      match (if font <? 0 then None else font_names !! Z.to_nat font) with
      | None => crash
      | Some font_name =>
          obj <- add_object (Full {| dictionary := builtin_font_dict font_name;
                                     stream := "" |}) ;;
          let font_objects :=
            (font_objects tables ++ [(-1, -1, obj, 2 ^ (8 * size_t_bytes) - 1)])%list in
          let fontid := to_int32 (size_of font_objects) - 1 in
          ret (fontid, {| font_objects := font_objects;
                          builtin_fonts := <[font := fontid]> (builtin_fonts tables) |})
      end
  end.

End Registrations.

Open Scope list_scope.

(** * Vocabulary of the statements *)

(** ** Results, ranges and padding *)

Definition failed {A : Type} (r : rvoe A) : bool :=
  match r with
  | Ok _ => false
  | _ => true
  end.

(** The value passes the range check of [append_floatvalue]. *)
Definition in_unit_range (val : float) : bool :=
  negb (PrimFloat.ltb val 0 || PrimFloat.ltb 1 val).

(** No subset holds the codepoint. *)
Definition is_fresh (ss : list (list Z)) (codepoint : Z) : bool :=
  match find_glyph_from codepoint ss 0 with
  | None => true
  | Some _ => false
  end.

(** The codepoints turns [i], [i + 1], ... of the padding loop try: [n] of
    them, from ['!' + i] on. *)
Fixpoint candidates (i : Z) (n : nat) : list Z :=
  match n with
  | O => []
  | S n' => (33 + i) :: candidates (i + 1) n'
  end.

(** The codepoints the loop can still add when it is entered: those of the
    first 99 turns that no subset holds. The loop has 100 turns, but it only
    looks at the size at the head of a turn, so what the last turn adds
    comes too late. *)
Definition fresh_candidates (ss : list (list Z)) : list Z :=
  List.filter (is_fresh ss) (candidates 0 99).

(** What padding adds to a last subset [glyphs] before the space. *)
Definition padding (ss : list (list Z)) (glyphs : list Z) : list Z :=
  take (32 - length glyphs) (fresh_candidates ss).

(** The last subset is long enough already, or enough codepoints are left
    to fill it up to 32. *)
Definition can_pad (fs : FontSubsetter) : Prop :=
  exists pre glyphs,
    subset_list fs = pre ++ [glyphs]
    /\ ((length glyphs <= 32)%nat ->
        (32 - length glyphs <= length (fresh_candidates (subset_list fs)))%nat).

(** [fs'] is [fs] padded: unchanged when the last subset has more than 32
    elements; otherwise the last subset got the padding and then the space,
    which makes 33 elements with the space at index 32. *)
Definition padded_from (fs fs' : FontSubsetter) : Prop :=
  exists pre glyphs,
    subset_list fs = pre ++ [glyphs]
    /\ ((32 < length glyphs)%nat -> fs' = fs)
    /\ ((length glyphs <= 32)%nat ->
        subset_list fs' = pre ++ [glyphs ++ padding (subset_list fs) glyphs ++ [32]]
        /\ length (glyphs ++ padding (subset_list fs) glyphs) = 32%nat
        /\ length (glyphs ++ padding (subset_list fs) glyphs ++ [32]) = 33%nat
        /\ (glyphs ++ padding (subset_list fs) glyphs ++ [32]) !! 32%nat = Some 32
        /\ Forall (fun cp => 33 <= cp < 132 /\ is_fresh (subset_list fs) cp = true)
             (padding (subset_list fs) glyphs)).

(** No id is in the lists of two pages. *)
Definition at_most_one_page (ls : list (list Z)) : Prop :=
  forall (i j : nat) (li lj : list Z) (a : Z),
    ls !! i = Some li -> ls !! j = Some lj -> a ∈ li -> a ∈ lj -> i = j.

(** The id is in the list of some page. *)
Definition attached (ls : list (list Z)) (a : Z) : Prop := exists l, l ∈ ls /\ a ∈ l.

(** The keys of the usage map are the ids attached to a page. *)
Definition marks_exact {V : Type} (use : gmap Z V) (ls : list (list Z)) : Prop :=
  forall a : Z, is_Some (use !! a) <-> attached ls a.

(** ** Documents, pages and calls *)

Section Vocabulary.
Context {E : Env}.

(** The flag, the coordinates of a type 4 vertex pass their checks. *)
Definition vertex_in_range (shade : ShadingType4) (e : ShadingElement) : bool :=
  (NDEBUG || ((0 <=? to_char (flag e)) && (to_char (flag e) <? 3)))
  && in_unit_range (ratio (x (p (sp e))) (Shade.minx shade) (Shade.maxx shade))
  && in_unit_range (ratio (y (p (sp e))) (Shade.miny shade) (Shade.maxy shade)).

(** A plain object: anything but a page. *)
Definition plain (o : ObjectType) : Prop :=
  match o with
  | Page _ => False
  | _ => True
  end.

(** [d'] is [d] with plain objects appended to the table and the usage maps
    and the structure parent tree untouched. *)
Definition grows (d d' : PdfDocument) : Prop :=
  (exists extra, document_objects d' = document_objects d ++ extra /\ Forall plain extra)
  /\ form_use d' = form_use d
  /\ annotation_use d' = annotation_use d
  /\ structure_use d' = structure_use d
  /\ structure_parent_tree_items d' = structure_parent_tree_items d
  /\ pages d' = pages d
  /\ opts d' = opts d.

(** The member function leaves a grown document, whatever it returns. *)
Definition keeps_usage {A : Type} (m : M A) : Prop := forall d, grows d (snd (m d)).

(** The member function returns a value, whatever the document. *)
Definition succeeds {A : Type} (m : M A) : Prop := forall d, exists a d', m d = (Ok a, d').

(** The page objects of the table, in table order. *)
Definition page_objects (objs : list ObjectType) : list DelayedPage :=
  omap (fun o => match o with Page pg => Some pg | _ => None end) objs.

(** The form widgets, annotations and structure items of each page. The
    structure items of a page are its entry of the structure parent tree. *)
Definition widgets_by_page (d : PdfDocument) : list (list Z) :=
  map used_form_widgets (page_objects (document_objects d)).

Definition annotations_by_page (d : PdfDocument) : list (list Z) :=
  map used_annotations (page_objects (document_objects d)).

Definition usage_inv (d : PdfDocument) : Prop :=
  marks_exact (form_use d) (widgets_by_page d)
  /\ at_most_one_page (widgets_by_page d)
  /\ marks_exact (annotation_use d) (annotations_by_page d)
  /\ at_most_one_page (annotations_by_page d)
  /\ marks_exact (structure_use d) (structure_parent_tree_items d)
  /\ at_most_one_page (structure_parent_tree_items d).

(** The calls a client makes on a constructed document. *)
Inductive Operation : Type :=
| OpAddPage (resource_dict unclosed_object_dict command_stream : string)
    (custom_props : PageProperties) (fws annots : gset Z) (structs : list Z)
    (transition : option Transition) (subnav : list SubPageNavigation)
| OpAddShading4 (shade : ShadingType4)
| OpAddShading6 (shade : ShadingType6)
| OpAddPattern (this : Z) (ctx : PdfDrawContext)
| OpAddTransparencyGroup (this : Z) (ctx : PdfDrawContext) (ex : option TransparencyGroupExtra)
| OpLoadIccFile (fname : string)
| OpAddImage (image : RasterImage) (is_mask : bool)
| OpPadSubsetFonts.

(** The document after the call, whatever the call returned. *)
Definition run_operation (op : Operation) (d : PdfDocument) : PdfDocument :=
  match op with
  | OpAddPage rd ud cstream cp fws annots structs trn subnav =>
      snd (add_page rd ud cstream cp fws annots structs trn subnav d)
  | OpAddShading4 shade => snd (add_shading4 shade d)
  | OpAddShading6 shade => snd (add_shading6 shade d)
  | OpAddPattern this ctx => snd (add_pattern this ctx d)
  | OpAddTransparencyGroup this ctx ex => snd (add_transparency_group this ctx ex d)
  | OpLoadIccFile fname => snd (load_icc_file fname d)
  | OpAddImage image is_mask => snd (add_image image is_mask d)
  | OpPadSubsetFonts => snd (pad_subset_fonts d)
  end.

Definition run_operations (ops : list Operation) (d : PdfDocument) : PdfDocument :=
  fold_left (fun d' op => run_operation op d') ops d.

End Vocabulary.

(** The contents of the streams the registered profiles point to. *)
Definition profile_streams {E : Env} (d : PdfDocument) : list (rvoe ObjectType) :=
  map (fun info => at_ (document_objects d) (stream_num info)) (icc_profiles d).

(** ** Calls on a draw context *)

(** The two calls that change the draw-state stack. *)
Inductive NestingCall : Type :=
| Indent (dtype : DrawStateType)
| Dedent (dtype : DrawStateType).

Definition nesting_call (call : NestingCall) (ctx : PdfDrawContext)
  : rvoe NoReturnValue * PdfDrawContext :=
  match call with
  | Indent dtype => indent dtype ctx
  | Dedent dtype => dedent dtype ctx
  end.

(** Calls in a row, each under [ERCV]: the first failure is returned. *)
Fixpoint nesting_calls (calls : list NestingCall) (ctx : PdfDrawContext)
  : rvoe NoReturnValue * PdfDrawContext :=
  match calls with
  | [] => (Ok tt, ctx)
  | call :: rest =>
      match nesting_call call ctx with
      | (Ok _, ctx') => nesting_calls rest ctx'
      | failure => failure
      end
  end.

(** The context after the calls, whatever each of them returned. *)
Definition after_nesting_calls (calls : list NestingCall) (ctx : PdfDrawContext)
  : PdfDrawContext :=
  fold_left (fun ctx' call => snd (nesting_call call ctx')) calls ctx.

(** The indentation is two characters per open state, and at most one open
    state is a marked-content block. *)
Definition well_nested (ctx : PdfDrawContext) : Prop :=
  String.length (ind ctx) = (2 * length (dstate_stack ctx))%nat
  /\ (count_occ DrawStateType_eq_dec (dstate_stack ctx) MarkedContent <= 1)%nat.

(** ** Glyph vectors *)

(** The codepoints of [n] turns of the loop of [pad_subset_until_space], from
    turn [i] on, that the vector does not hold as a regular glyph, in the
    order the loop tries them. *)
Definition free_codepoints_from (i : Z) (n : nat) (subset_glyphs : list TTGlyphs) : list Z :=
  List.filter (fun cp => negb (existsb (glfind cp) subset_glyphs)) (candidates i n).

(** What [pad_subset_until_space] adds before the space: free codepoints of
    the first 99 turns (the loop has 100, but it looks at the size at the
    head of a turn only), as many as are missing to 32 elements. *)
Definition glyph_padding (subset_glyphs : list TTGlyphs) : list Z :=
  take (32 - length subset_glyphs) (free_codepoints_from 0 99 subset_glyphs).

(** ** Mesh shadings *)

(** The components of a device colour pass the range check of
    [append_floatvalue]. *)
Definition color_in_range (col : Color) : bool :=
  match col with
  | DeviceRGBColor r g b => in_unit_range (v r) && in_unit_range (v g) && in_unit_range (v b)
  | DeviceGrayColor gray => in_unit_range (v gray)
  | DeviceCMYKColor c m y k =>
      in_unit_range (v c) && in_unit_range (v m) && in_unit_range (v y) && in_unit_range (v k)
  | _ => false
  end.

(** A control point of a type 6 patch lies in the bounding box of its shade. *)
Definition point_in_range (shade : ShadingType6) (pt : Point) : bool :=
  in_unit_range (ratio (x pt) (Shade.minx shade) (Shade.maxx shade))
  && in_unit_range (ratio (y pt) (Shade.miny shade) (Shade.maxy shade)).

(** A full patch with its 12 control points and 4 corner colours. *)
Definition full_patch (eh : CoonsPatches) : Prop :=
  match eh with
  | FullCoonsPatch ps cs => length ps = 12%nat /\ length cs = 4%nat
  | ContinuationCoonsPatch _ _ _ => False
  end.

Section MeshVocabulary.
Context {E : Env}.

(** A vertex of a type 4 shade that [serialize_shade4] writes: flag and
    coordinates pass their checks, and the colour is a device colour of the
    declared colourspace with components in range. *)
Definition vertex_ok (shade : ShadingType4) (e : ShadingElement) : bool :=
  vertex_in_range shade e
  && color_in_colorspace (Shade.colorspace shade) (c (sp e))
  && color_in_range (c (sp e)).

(** A patch of a type 6 shade that [serialize_shade6] writes. *)
Definition patch_ok (shade : ShadingType6) (eh : CoonsPatches) : bool :=
  match eh with
  | FullCoonsPatch ps cs =>
      forallb (point_in_range shade) ps
      && forallb (fun col => color_in_colorspace (Shade.colorspace shade) col
                             && color_in_range col) cs
  | ContinuationCoonsPatch _ _ _ => false
  end.

End MeshVocabulary.

(** ** The role map *)

(** A name that [add_rolemap_entry] accepts: not empty, no leading slash. *)
Definition valid_role_name (s : string) : bool :=
  negb (bool_decide (s = "") || starts_with_slash s).

(** The role map after the calls, whatever each of them returned. *)
Definition after_rolemap_calls (calls : list (string * Z)) (rolemap : list RolemapEnty)
  : list RolemapEnty :=
  fold_left (fun rm call => snd (add_rolemap_entry (fst call) (snd call) rm)) calls rolemap.

(** ** Calls on a document *)

Section CallVocabulary.
Context {E : Env}.

(** The calls of [Operation] and the registrations of the second part. *)
Inductive Call : Type :=
| CallOperation (op : Operation)
| CallAddMaskImage (image : RasterImage)
| CallEmbedJpg (jpg : Jpg.jpg_image) (interpolate : CapyPDF_Image_Interpolation)
| CallAddLabColorspace (lab : LabColorSpace)
| CallAddGraphicsState (state : GraphicsState)
| CallAddFunction (func : FunctionType2)
| CallAddShading2 (shade : ShadingType2)
| CallAddShading3 (shade : ShadingType3)
| CallAddOptionalContentGroup (g_name : string)
| CallCreateSeparation (sep_name : string) (fallback_c fallback_m fallback_y fallback_k
    : LimitDouble).

(** The document after the call, whatever the call returned. *)
Definition run_call (call : Call) (d : PdfDocument) : PdfDocument :=
  match call with
  | CallOperation op => run_operation op d
  | CallAddMaskImage image => snd (add_mask_image image d)
  | CallEmbedJpg jpg interpolate => snd (embed_jpg jpg interpolate d)
  | CallAddLabColorspace lab => snd (add_lab_colorspace lab d)
  | CallAddGraphicsState state => snd (add_graphics_state state d)
  | CallAddFunction func => snd (add_function func d)
  | CallAddShading2 shade => snd (add_shading2 shade d)
  | CallAddShading3 shade => snd (add_shading3 shade d)
  | CallAddOptionalContentGroup g_name => snd (add_optional_content_group g_name d)
  | CallCreateSeparation sep_name fc fm fy fk => snd (create_separation sep_name fc fm fy fk d)
  end.

Definition run_calls (calls : list Call) (d : PdfDocument) : PdfDocument :=
  fold_left (fun d' call => run_call call d') calls d.

(** [d'] holds everything [d] holds, where [d] holds it: the options and the
    colour converter are the same, every table of [d] is the beginning of the
    table of [d'], every key of a usage map of [d] has the same value in
    [d'], and the object numbers that [init] stored are the same. *)
Definition extends (d d' : PdfDocument) : Prop :=
  opts d' = opts d
  /\ cm d' = cm d
  /\ document_objects d `prefix_of` document_objects d'
  /\ pages d `prefix_of` pages d'
  /\ icc_profiles d `prefix_of` icc_profiles d'
  /\ image_info d `prefix_of` image_info d'
  /\ separation_objects d `prefix_of` separation_objects d'
  /\ structure_parent_tree_items d `prefix_of` structure_parent_tree_items d'
  /\ transparency_groups d `prefix_of` transparency_groups d'
  /\ ocg_items d `prefix_of` ocg_items d'
  /\ form_use d ⊆ form_use d'
  /\ annotation_use d ⊆ annotation_use d'
  /\ structure_use d ⊆ structure_use d'
  /\ output_profile d' = output_profile d
  /\ output_intent_object d' = output_intent_object d
  /\ page_group_object d' = page_group_object d
  /\ pages_object d' = pages_object d.

(** The member function leaves a document related to the one it was given,
    whatever it returns. *)
Definition steps (R : PdfDocument -> PdfDocument -> Prop) {A : Type} (m : M A) : Prop :=
  forall d, R d (snd (m d)).

End CallVocabulary.

(** ** What an object number designates *)

Section RefVocabulary.
Context {E : Env}.


Definition is_full (o : ObjectType) : Prop :=
  match o with
  | Full _ => True
  | _ => False
  end.

Definition is_deflate (o : ObjectType) : Prop :=
  match o with
  | Deflate _ => True
  | _ => False
  end.

(** A stream with or without compression: what [add_page] makes of the
    command stream. *)
Definition is_stream (o : ObjectType) : Prop :=
  match o with
  | Full _ | Deflate _ => True
  | _ => False
  end.

(** The object number [n] designates an entry of the table, and that entry
    is of kind [K]. *)
Definition designates (K : ObjectType -> Prop) (d : PdfDocument) (n : Z) : Prop :=
  exists o, at_ (document_objects d) n = Ok o /\ K o.

(** Every object number that a resource table holds designates an object of
    the kind that was registered: a compressed stream and a dictionary for
    an ICC profile, a dictionary or stream object for an image, a
    separation, a transparency group and an optional content group. *)
Definition resources_resolve (d : PdfDocument) : Prop :=
  Forall (fun info => designates is_deflate d (stream_num info)
                      /\ designates is_full d (object_num info)) (icc_profiles d)
  /\ Forall (fun info => designates is_full d (obj info)) (image_info d)
  /\ Forall (designates is_full d) (separation_objects d)
  /\ Forall (designates is_full d) (transparency_groups d)
  /\ Forall (designates is_full d) (ocg_items d).

(** The object numbers that [init] stores designate what [init] made: the
    page-tree placeholder, the page group dictionary, the output intent
    dictionary; and the output profile is a registered ICC profile. *)
Definition roots_resolve (d : PdfDocument) : Prop :=
  at_ (document_objects d) (pages_object d) = Ok DelayedPages
  /\ designates is_full d (page_group_object d)
  /\ (forall n, output_intent_object d = Some n -> designates is_full d n)
  /\ (forall id, output_profile d = Some id ->
        exists info, at_ (icc_profiles d) id = Ok info).

(** The table has at most 2^31 entries: every object number that was handed
    out is the index of its object. *)
Definition numbers_fit (d : PdfDocument) : Prop := size_of (document_objects d) <= 2 ^ 31.

(** [resources_resolve] as a relation between the documents before and
    after a call: true after, when it was true before. *)
Definition keeps_resources (d d' : PdfDocument) : Prop :=
  (numbers_fit d -> resources_resolve d) -> (numbers_fit d' -> resources_resolve d').

(** What the first steps of [init] leave alone. *)
Definition before_profile (d d' : PdfDocument) : Prop :=
  icc_profiles d' = icc_profiles d /\ output_profile d' = output_profile d
  /\ output_intent_object d' = output_intent_object d.

(** What [add_page] leaves alone, whatever it returns. *)
Definition same_resources (d d' : PdfDocument) : Prop :=
  cm d' = cm d /\ icc_profiles d' = icc_profiles d /\ image_info d' = image_info d
  /\ separation_objects d' = separation_objects d
  /\ transparency_groups d' = transparency_groups d /\ ocg_items d' = ocg_items d
  /\ fonts d' = fonts d /\ output_profile d' = output_profile d
  /\ output_intent_object d' = output_intent_object d
  /\ page_group_object d' = page_group_object d /\ pages_object d' = pages_object d.

(** The stream object of every registered profile is a compressed stream
    that holds bytes, and there are no more profiles than objects. *)
Definition profiles_stored (d : PdfDocument) : Prop :=
  size_of (icc_profiles d) <= size_of (document_objects d)
  /\ Forall (fun info => exists o, at_ (document_objects d) (stream_num info) = Ok (Deflate o)
                                   /\ dstream o <> "")
       (icc_profiles d).

(** [profiles_stored] as a relation between the documents before and after
    a call. *)
Definition keeps_profiles (d d' : PdfDocument) : Prop :=
  (numbers_fit d -> profiles_stored d) -> (numbers_fit d' -> profiles_stored d').

(** The bytes of the profile with this id, when it has a stream. *)
Definition profile_bytes (d : PdfDocument) (id : Z) : option string :=
  match at_ (icc_profiles d) id with
  | Ok info =>
      match at_ (document_objects d) (stream_num info) with
      | Ok (Deflate o) => Some (dstream o)
      | _ => None
      end
  | _ => None
  end.

End RefVocabulary.

(** ** What the page list and the usage maps point to *)

Section PageVocabulary.
Context {E : Env}.

(** A page object at index [i] of the page list: it carries the index, its
    navigation root (when it has one) is the number of a dictionary, and its
    structure parents (when it has some) are an entry of the structure
    parent tree. *)
Definition page_object_ok (d : PdfDocument) (i : nat) (pg : DelayedPage) : Prop :=
  page_num pg = Z.of_nat i
  /\ (forall root, subnav_root pg = Some root -> designates is_full d root)
  /\ (forall k, structparents pg = Some k ->
        exists structs, at_ (structure_parent_tree_items d) k = Ok structs).

(** Every entry of the page list holds the numbers of the resource
    dictionary, the command stream and the page object of its page, and the
    page object is as above. Every form widget and annotation of a usage map
    is mapped to the number of the page object that lists it. Every
    structure item of the usage map is mapped to the index of its page and
    to its position in the structure parents of that page. *)
Definition pages_resolve (d : PdfDocument) : Prop :=
  size_of (structure_parent_tree_items d) <= size_of (pages d)
  /\ size_of (pages d) <= size_of (document_objects d)
  /\ (forall (i : nat) (po : PageOffsets),
        pages d !! i = Some po ->
        designates is_full d (resource_obj_num po)
        /\ designates is_stream d (commands_obj_num po)
        /\ exists pg, at_ (document_objects d) (page_obj_num po) = Ok (Page pg)
                      /\ page_object_ok d i pg)
  /\ (forall (widget n : Z),
        form_use d !! widget = Some n ->
        exists pg, at_ (document_objects d) n = Ok (Page pg)
                   /\ widget ∈ used_form_widgets pg)
  /\ (forall (annotation n : Z),
        annotation_use d !! annotation = Some n ->
        exists pg, at_ (document_objects d) n = Ok (Page pg)
                   /\ annotation ∈ used_annotations pg)
  /\ (forall (item : Z) (u : StructureUsage),
        structure_use d !! item = Some u ->
        exists po pg k structs,
          at_ (pages d) (page_num_of u) = Ok po
          /\ at_ (document_objects d) (page_obj_num po) = Ok (Page pg)
          /\ structparents pg = Some k
          /\ at_ (structure_parent_tree_items d) k = Ok structs
          /\ at_ structs (mcid_num u) = Ok item).

(** [pages_resolve] as a relation between the documents before and after a
    call: true after, when it was true before. *)
Definition keeps_pages (d d' : PdfDocument) : Prop :=
  (numbers_fit d -> pages_resolve d) -> (numbers_fit d' -> pages_resolve d').

End PageVocabulary.

(** [cm.get_rgb()], [cm.get_gray()] or [cm.get_cmyk()]: the profile of the
    output colourspace. *)
Definition output_profile_bytes (gd : PdfGenerationData) (conv : PdfColorConverter) : string :=
  match output_colorspace gd with
  | CAPY_CS_DEVICE_RGB => get_rgb conv
  | CAPY_CS_DEVICE_GRAY => get_gray conv
  | CAPY_CS_DEVICE_CMYK => get_cmyk conv
  end.

(** ** What a call hands out *)

Section HandleVocabulary.
Context {E : Env}.

(** The member functions whose result is the number of the object they
    add. *)
Inductive ObjectCall : Type :=
| ObjLabColorspace (lab : LabColorSpace)
| ObjGraphicsState (state : GraphicsState)
| ObjFunction (func : FunctionType2)
| ObjShading2 (shade : ShadingType2)
| ObjShading3 (shade : ShadingType3)
| ObjShading4 (shade : ShadingType4)
| ObjShading6 (shade : ShadingType6)
| ObjPattern (this : Z) (ctx : PdfDrawContext).

Definition object_call (call : ObjectCall) : M Z :=
  match call with
  | ObjLabColorspace lab => add_lab_colorspace lab
  | ObjGraphicsState state => add_graphics_state state
  | ObjFunction func => add_function func
  | ObjShading2 shade => add_shading2 shade
  | ObjShading3 shade => add_shading3 shade
  | ObjShading4 shade => add_shading4 shade
  | ObjShading6 shade => add_shading6 shade
  | ObjPattern this ctx => add_pattern this ctx
  end.

(** The member functions whose result is an index into a table of object
    numbers, and that always register a new entry. *)
Inductive TableCall : Type :=
| TabSeparation (sep_name : string) (fallback_c fallback_m fallback_y fallback_k : LimitDouble)
| TabOptionalContentGroup (g_name : string)
| TabTransparencyGroup (this : Z) (ctx : PdfDrawContext) (ex : option TransparencyGroupExtra)
| TabEmbedJpg (jpg : Jpg.jpg_image) (interpolate : CapyPDF_Image_Interpolation)
| TabMaskImage (image : RasterImage)
| TabImage (image : RasterImage) (is_mask : bool).

Definition table_call (call : TableCall) : M Z :=
  match call with
  | TabSeparation sep_name fc fm fy fk => create_separation sep_name fc fm fy fk
  | TabOptionalContentGroup g_name => add_optional_content_group g_name
  | TabTransparencyGroup this ctx ex => add_transparency_group this ctx ex
  | TabEmbedJpg jpg interpolate => embed_jpg jpg interpolate
  | TabMaskImage image => add_mask_image image
  | TabImage image is_mask => add_image image is_mask
  end.

(** The size of the table that the call appends to. *)
Definition table_size (call : TableCall) (d : PdfDocument) : Z :=
  match call with
  | TabSeparation _ _ _ _ _ => size_of (separation_objects d)
  | TabOptionalContentGroup _ => size_of (ocg_items d)
  | TabTransparencyGroup _ _ _ => size_of (transparency_groups d)
  | TabEmbedJpg _ _ | TabMaskImage _ | TabImage _ _ => size_of (image_info d)
  end.

(** The object number that this table holds at [id]; [at] throws outside
    the table. *)
Definition registered_object (call : TableCall) (d : PdfDocument) (id : Z) : rvoe Z :=
  match call with
  | TabSeparation _ _ _ _ _ => at_ (separation_objects d) id
  | TabOptionalContentGroup _ => at_ (ocg_items d) id
  | TabTransparencyGroup _ _ _ => at_ (transparency_groups d) id
  | TabEmbedJpg _ _ | TabMaskImage _ | TabImage _ _ =>
      info <~ at_ (image_info d) id ;; Ok (obj info)
  end.

(** The object is the one this call makes: the stream of an image is what
    [flate_compress] made of the pixels, that of a JPEG the bytes of the
    file, that of a transparency group the command stream of the
    serialised context. *)
Definition made_by (call : TableCall) (o : FullPDFObject) : Prop :=
  match call with
  | TabSeparation _ _ _ _ _ => stream o = ""
  | TabOptionalContentGroup _ => stream o = ""
  | TabTransparencyGroup _ ctx ex =>
      exists sx, serialize ctx ex = XObject sx
                 /\ dictionary o = dict sx /\ stream o = xcommand_stream sx
  | TabEmbedJpg jpg _ => stream o = Jpg.file_contents jpg
  | TabMaskImage image | TabImage image _ => flate_compress (pixels image) = Ok (stream o)
  end.

(** The size that an image entry records, when the call registers an
    image. *)
Definition recorded_size (call : TableCall) (d : PdfDocument) (id : Z) : Prop :=
  match call with
  | TabEmbedJpg jpg _ =>
      exists info, at_ (image_info d) id = Ok info
                   /\ image_size info = {| iw := Jpg.w jpg; ih := Jpg.h jpg |}
  | TabMaskImage image | TabImage image _ =>
      exists info, at_ (image_info d) id = Ok info
                   /\ image_size info = {| iw := w (md image); ih := h (md image) |}
  | _ => True
  end.

(** A call of a [TableCall] that returns an id has appended one entry to its
    table and, last, the object of that entry. *)
Definition registers (call : TableCall) (d d1 : PdfDocument) (id : Z) : Prop :=
  exists (pre : list ObjectType) (o : FullPDFObject),
    document_objects d `prefix_of` pre
    /\ document_objects d1 = pre ++ [Full o]
    /\ made_by call o
    /\ id = to_int32 (table_size call d1) - 1
    /\ match call with
       | TabSeparation _ _ _ _ _ =>
           separation_objects d1 = separation_objects d ++ [to_int32 (size_of pre)]
       | TabOptionalContentGroup _ => ocg_items d1 = ocg_items d ++ [to_int32 (size_of pre)]
       | TabTransparencyGroup _ _ _ =>
           transparency_groups d1 = transparency_groups d ++ [to_int32 (size_of pre)]
       | TabEmbedJpg jpg _ =>
           image_info d1
           = image_info d ++ [{| image_size := {| iw := Jpg.w jpg; ih := Jpg.h jpg |};
                                 obj := to_int32 (size_of pre) |}]
       | TabMaskImage image | TabImage image _ =>
           exists infos,
             image_info d `prefix_of` infos
             /\ image_info d1
                = infos ++ [{| image_size := {| iw := w (md image); ih := h (md image) |};
                               obj := to_int32 (size_of pre) |}]
       end.

End HandleVocabulary.

(** ** Outlines *)

Definition empty_outlines : Outlines := {| items := []; parent := ∅; children := ∅ |}.

(** The member [outlines] after calls of [add_outline]; a call is given as the
    [Outline] it stores. *)
Definition after_outline_calls (calls : list Outline) (outlines : Outlines) : Outlines :=
  fold_left (fun o call => snd (add_outline (otitle call) (dest call) (oparent call) o))
    calls outlines.

(** The key under which [add_outline] files the call in [children]. *)
Definition parent_key (call : Outline) : Z := default (-1) (oparent call).

(** The ids, counted from [k], of the calls that were filed under [key]. *)
Fixpoint filed_under (key : Z) (k : Z) (calls : list Outline) : list Z :=
  match calls with
  | [] => []
  | call :: rest =>
      if bool_decide (parent_key call = key) then k :: filed_under key (k + 1) rest
      else filed_under key (k + 1) rest
  end.

(** ** Builtin fonts *)

Section FontVocabulary.
Context {E : Env}.

(** Every builtin font that has an id has its own: the id is an index of
    [font_objects], the entry there holds the number of the dictionary of
    this font, and no other font has the same id. *)
Definition font_tables_ok (tables : FontTables) (d : PdfDocument) : Prop :=
  (forall (font id : Z),
     builtin_fonts tables !! font = Some id ->
     exists (info : FontInfo) (font_name : string),
       at_ (font_objects tables) id = Ok info
       /\ at_ font_names font = Ok font_name
       /\ at_ (document_objects d) (font_object_of info)
          = Ok (Full {| dictionary := builtin_font_dict font_name; stream := "" |}))
  /\ (forall (font1 font2 id : Z),
        builtin_fonts tables !! font1 = Some id ->
        builtin_fonts tables !! font2 = Some id -> font1 = font2).

End FontVocabulary.

(** * Sample inputs *)

(** An instance of [Env], to run the functions on concrete inputs: a debug
    build ([assert] compiled in), unit payloads, and text helpers that do
    nothing interesting. The theorems do not depend on it. *)
Definition debug_env : Env :=
  {| NDEBUG := false; Transition := unit; PageProperties := unit;
     TransparencyGroupExtra := unit; TtfFont := unit;
     fmt_f := fun _ => "0.000000"; fmt_g := fun _ => "0";
     serialize_trans := fun _ _ => ""; pdfstring_quote := fun t => ("(" ++ t ++ ")")%string;
     utf8_to_pdfmetastr := fun t => ("(" ++ t ++ ")")%string;
     current_date_string := "(D:20240101000000Z)"; CAPYPDF_VERSION_STR := "0";
     flate_compress := fun t => Ok t; load_file := fun t => Ok t;
     get_num_channels := fun _ => Ok 3;
     ocg_object_number := fun ocgs i => nth (Z.to_nat i) ocgs 0;
     build_resource_dict := fun _ => "<<>>";
     serialize := fun ctx _ => XObject {| dict := "<<>>"; xcommand_stream := commands ctx |} |}.

(** The same with [assert] compiled out. *)
Definition release_env : Env :=
  {| NDEBUG := true; Transition := unit; PageProperties := unit;
     TransparencyGroupExtra := unit; TtfFont := unit;
     fmt_f := fun _ => "0.000000"; fmt_g := fun _ => "0";
     serialize_trans := fun _ _ => ""; pdfstring_quote := fun t => ("(" ++ t ++ ")")%string;
     utf8_to_pdfmetastr := fun t => ("(" ++ t ++ ")")%string;
     current_date_string := "(D:20240101000000Z)"; CAPYPDF_VERSION_STR := "0";
     flate_compress := fun t => Ok t; load_file := fun t => Ok t;
     get_num_channels := fun _ => Ok 3;
     ocg_object_number := fun ocgs i => nth (Z.to_nat i) ocgs 0;
     build_resource_dict := fun _ => "<<>>";
     serialize := fun ctx _ => XObject {| dict := "<<>>"; xcommand_stream := commands ctx |} |}.

Definition rgb_options : PdfGenerationData :=
  {| title := "sample"; author := ""; creator := ""; lang := "";
     output_colorspace := CAPY_CS_DEVICE_RGB; subtype := None;
     intent_condition_identifier := ""; compress_streams := false; is_tagged := false |}.

Definition no_profiles : PdfColorConverter := {| get_rgb := ""; get_gray := ""; get_cmyk := "" |}.

(** The document [PdfDocument::construct] returns for these options. *)
Definition sample_document {E : Env} : PdfDocument := snd (init (new_document rgb_options no_profiles)).

Definition ld (f : float) : LimitDouble := {| v := f |}.

Definition vertex (px py : float) (col : Color) : ShadingElement :=
  {| sp := {| p := {| x := px; y := py |}; c := col |}; flag := 0 |}.

Definition unit_square_shade {Elt : Type} (k : CapyPDF_Colorspace) (l : list Elt) : Shade.t Elt :=
  {| Shade.elements := l; Shade.minx := 0; Shade.miny := 0; Shade.maxx := 1; Shade.maxy := 1;
     Shade.colorspace := k |}.




Definition corner : Point := {| x := 0; y := 0 |}.

Definition red : Color := DeviceRGBColor (ld 1) (ld 0) (ld 0).


(** A type 6 shade with a full patch followed by a continuation patch. *)
Definition shade6_with_continuation : ShadingType6 :=
  unit_square_shade CAPY_CS_DEVICE_RGB
    [FullCoonsPatch (repeat corner 12) [red; red; red; red];
     ContinuationCoonsPatch 1 (repeat corner 8) [red; red]].

(** A transparency-group context that belongs to the document at address 2. *)
Definition foreign_group_context : PdfDrawContext :=
  {| doc := 2; context_type := CAPY_DC_TRANSPARENCY_GROUP; commands := "q Q";
     dstate_stack := []; bbox := {| x1 := 0; y1 := 0; x2 := 100; y2 := 100 |};
     marked_depth := 0; ind := "" |}.

(** A tiling-pattern context of the document at address 1. *)
Definition pattern_context : PdfDrawContext :=
  {| doc := 1; context_type := CAPY_DC_COLOR_TILING; commands := "0 0 1 1 re f";
     dstate_stack := []; bbox := {| x1 := 0; y1 := 0; x2 := 10; y2 := 10 |};
     marked_depth := 0; ind := "" |}.

(** A 1x1 RGB image that embeds the profile "PROFILE". *)
Definition image_with_profile : RasterImage :=
  {| md := {| w := 1; h := 1; pixel_depth := 8; alpha_depth := 8;
              interp := CAPY_INTERPOLATION_AUTO; cs := CAPY_CS_DEVICE_RGB |};
     pixels := "abc"; alpha := ""; icc_profile := "PROFILE" |}.

(** The sample document with one page that carries annotation 5 and
    structure item 7. *)
Definition one_page_document : PdfDocument :=
  run_operations (E:=debug_env)
    [OpAddPage (E:=debug_env) "<<>>" "<<" "q Q" tt ∅ {[5]} [7] None []]
    (sample_document (E:=debug_env)).

(** A font with ["Hi"] after the glyph 0 in its only subset. *)
Definition font_hi : FontThingy (E:=debug_env) :=
  @Build_FontThingy debug_env tt {| subset_list := [[0; 72; 105]] |}.

Definition document_hi : PdfDocument (E:=debug_env) :=
  set_fonts (sample_document (E:=debug_env)) [font_hi].

(** A subsetter that was asked for the 256 codepoints from ['!'] on, and
    then for one more: a full first subset that holds every padding
    candidate, and a second subset of one glyph. *)
Definition crowded_subsetter : FontSubsetter :=
  fold_left (fun fs cp => snd (get_glyph_subset cp fs))
    (candidates 0 256 ++ [5000]) {| subset_list := [[]] |}.

Definition crowded_document : PdfDocument (E:=debug_env) :=
  set_fonts (sample_document (E:=debug_env))
    [@Build_FontThingy debug_env tt crowded_subsetter].

(** A page context with nothing open. *)
Definition fresh_context : PdfDrawContext :=
  {| doc := 1; context_type := CAPY_DC_PAGE; commands := "";
     dstate_stack := []; bbox := {| x1 := 0; y1 := 0; x2 := 200; y2 := 100 |};
     marked_depth := 0; ind := "" |}.

(** A DeviceRGB triangle. *)
Definition shade4_rgb_triangle : ShadingType4 :=
  unit_square_shade CAPY_CS_DEVICE_RGB
    [vertex 0 0 (DeviceRGBColor (ld 1) (ld 0) (ld 0));
     vertex 1 0 (DeviceRGBColor (ld 0) (ld 1) (ld 0));
     vertex 0 1 (DeviceRGBColor (ld 0) (ld 0) (ld 1))].

(** A DeviceGray shade of one full patch. *)
Definition shade6_gray_patch : ShadingType6 :=
  unit_square_shade CAPY_CS_DEVICE_GRAY
    [FullCoonsPatch (repeat corner 12) (repeat (DeviceGrayColor (ld 0.5)) 4)].

(** A DeviceRGB image of two pixels with an alpha channel and no profile. *)
Definition image_with_alpha : RasterImage :=
  {| md := {| w := 2; h := 1; pixel_depth := 8; alpha_depth := 8;
              interp := CAPY_INTERPOLATION_AUTO; cs := CAPY_CS_DEVICE_RGB |};
     pixels := "abcdef"; alpha := "xy"; icc_profile := "" |}.

(** Options and a converter for DeviceCMYK output, and the document
    [PdfDocument::construct] returns for them. *)
Definition cmyk_options : PdfGenerationData :=
  {| title := "sample"; author := ""; creator := ""; lang := "";
     output_colorspace := CAPY_CS_DEVICE_CMYK; subtype := None;
     intent_condition_identifier := ""; compress_streams := false; is_tagged := false |}.

Definition cmyk_profile : PdfColorConverter :=
  {| get_rgb := ""; get_gray := ""; get_cmyk := "CMYK" |}.

Definition cmyk_document : PdfDocument (E:=debug_env) :=
  snd (init (new_document cmyk_options cmyk_profile)).

(** A chapter at the top level and a section below it, both pointing to the
    first page. *)
Definition sample_outline_calls : list Outline :=
  [{| otitle := "Chapter"; dest := 0; oparent := None |};
   {| otitle := "Section"; dest := 0; oparent := Some 0 |}].

(** * Lemmas and theorems *)

(** ** Loops that may return early *)

Section Results.
Context {A S : Type}.

Lemma for_each_app (body : S -> A -> rvoe S) (l1 l2 : list A) (s : S) :
  for_each body s (l1 ++ l2) = (s' <~ for_each body s l1 ;; for_each body s' l2).
Proof.
  revert s. induction l1 as [|a l1 IH]; intros s; simpl; [reflexivity|].
  destruct (body s a) as [s'| |]; simpl; auto.
Qed.

(** A loop whose body fails at one element, whatever the accumulator, fails. *)
Lemma for_each_failed (body : S -> A -> rvoe S) (pre post : list A) (a : A) (s : S) :
  (forall s', failed (body s' a) = true) ->
  failed (for_each body s (pre ++ a :: post)) = true.
Proof.
  intros Hbad. rewrite for_each_app.
  destruct (for_each body s pre) as [s'| |]; simpl; auto.
  specialize (Hbad s'). destruct (body s' a); simpl in *; auto; discriminate.
Qed.

(** The loop stops with the result of the first element that fails. *)
Lemma for_each_first_failure (body : S -> A -> rvoe S) (pre post : list A) (a : A)
    (s s' : S) (r : rvoe S) :
  for_each body s pre = Ok s' ->
  body s' a = r -> failed r = true ->
  for_each body s (pre ++ a :: post) = r.
Proof.
  intros Hpre Hbody Hr. rewrite for_each_app, Hpre. simpl. rewrite Hbody.
  destruct r; simpl in *; auto; discriminate.
Qed.

End Results.

(** ** Shading serialisation *)

Section Shading.
Context {E : Env}.









Lemma add_shading6_failed (shade : ShadingType6) (d : PdfDocument) :
  failed (serialize_shade6 shade) = true ->
  add_shading6 shade d = (match serialize_shade6 shade with
                          | Ok _ => Crash
                          | Err e => Err e
                          | Crash => Crash
                          end, d).
Proof.
  unfold add_shading6, bind, lift. destruct (serialize_shade6 shade); simpl; auto; discriminate.
Qed.

End Shading.

(** C7: a type 6 shade that holds a continuation patch is never serialised:
    [serialize_shade6] fails, [add_shading] fails with it and adds no object.
    When the patches before the continuation patch serialise, the failure is
    the [std::abort] of the "not yet supported" branch. *)
Theorem add_shading6_continuation_fails {E : Env} (shade : ShadingType6) (d : PdfDocument)
    (pre post : list CoonsPatches) (cflag : Z) (ps : list Point) (cs : list Color) :
  Shade.elements shade = pre ++ ContinuationCoonsPatch cflag ps cs :: post ->
  failed (serialize_shade6 shade) = true
  /\ failed (fst (add_shading6 shade d)) = true
  /\ snd (add_shading6 shade d) = d
  /\ (forall s, for_each (shade6_element shade) "" pre = Ok s ->
        serialize_shade6 shade = Crash /\ add_shading6 shade d = (Crash, d)).
Proof.
  intros Hel.
  assert (Hf : failed (serialize_shade6 shade) = true).
  { unfold serialize_shade6. rewrite Hel. apply for_each_failed. intros s'. reflexivity. }
  pose proof (add_shading6_failed shade d Hf) as Hadd.
  split; [exact Hf|]. rewrite Hadd. simpl.
  split; [now destruct (serialize_shade6 shade)|].
  split; [reflexivity|].
  intros s Hpre.
  assert (Hc : serialize_shade6 shade = Crash).
  { unfold serialize_shade6. rewrite Hel.
    now apply (for_each_first_failure _ _ _ _ _ s). }
  rewrite Hc. auto.
Qed.

Lemma add_shading6_continuation_fails_witness :
  failed (serialize_shade6 (E:=debug_env) shade6_with_continuation) = true
  /\ failed (fst (add_shading6 shade6_with_continuation (sample_document (E:=debug_env)))) = true
  /\ snd (add_shading6 shade6_with_continuation (sample_document (E:=debug_env)))
     = sample_document (E:=debug_env)
  /\ (forall s,
        for_each (shade6_element (E:=debug_env) shade6_with_continuation) ""
          [FullCoonsPatch (repeat corner 12) [red; red; red; red]] = Ok s ->
        serialize_shade6 (E:=debug_env) shade6_with_continuation = Crash
        /\ add_shading6 shade6_with_continuation (sample_document (E:=debug_env))
           = (Crash, sample_document (E:=debug_env))).
Proof.
  apply (add_shading6_continuation_fails (E:=debug_env) shade6_with_continuation
           sample_document [FullCoonsPatch (repeat corner 12) [red; red; red; red]] []
           1 (repeat corner 8) [red; red]).
  reflexivity.
Defined.




(** ** How member functions change the document *)

Section Frames.
Context {E : Env}.

Lemma grows_refl (d : PdfDocument) : grows d d.
Proof.
  repeat split; auto. exists []. split; [now rewrite app_nil_r | constructor].
Qed.

Lemma grows_trans (d1 d2 d3 : PdfDocument) : grows d1 d2 -> grows d2 d3 -> grows d1 d3.
Proof.
  intros ((e1 & H1 & P1) & F1 & A1 & S1 & T1 & G1 & O1)
         ((e2 & H2 & P2) & F2 & A2 & S2 & T2 & G2 & O2).
  repeat split; try congruence.
  exists (e1 ++ e2). split; [rewrite H2, H1; now rewrite app_assoc | now apply Forall_app].
Qed.

Lemma keeps_bind {A B : Type} (m : M A) (k : A -> M B) :
  keeps_usage m -> (forall a, keeps_usage (k a)) -> keeps_usage (bind m k).
Proof.
  intros Hm Hk d0. unfold bind. specialize (Hm d0).
  destruct (m d0) as [[a| |] d'] eqn:Heq; simpl in *; auto.
  eapply grows_trans; [exact Hm | apply Hk].
Qed.

Lemma keeps_ret {A : Type} (a : A) : keeps_usage (ret a).
Proof. intros d0. apply grows_refl. Qed.

Lemma keeps_fail {A : Type} (e : ErrorCode) : keeps_usage (fail (A:=A) e).
Proof. intros d0. apply grows_refl. Qed.

Lemma keeps_crash {A : Type} : keeps_usage (crash (A:=A)).
Proof. intros d0. apply grows_refl. Qed.

Lemma keeps_lift {A : Type} (r : rvoe A) : keeps_usage (lift r).
Proof. intros d0. apply grows_refl. Qed.

Lemma keeps_get {A : Type} (f : PdfDocument -> A) : keeps_usage (get f).
Proof. intros d0. apply grows_refl. Qed.

Lemma keeps_modify (f : PdfDocument -> PdfDocument) :
  (forall d, grows d (f d)) -> keeps_usage (modify f).
Proof. intros H d0. apply H. Qed.

Lemma keeps_add_object (o : ObjectType) : plain o -> keeps_usage (add_object o).
Proof.
  intros Hp d0. unfold add_object. simpl. repeat split; auto.
  exists [o]. split; [reflexivity | now constructor].
Qed.

Lemma grows_push_plain (d : PdfDocument) (o : ObjectType) :
  plain o -> grows d (set_document_objects d (document_objects d ++ [o])).
Proof.
  intros Hp. repeat split; auto. exists [o]. split; [reflexivity | now constructor].
Qed.

(** Writing a member that [grows] does not look at. *)
Lemma grows_same (d d' : PdfDocument) :
  document_objects d' = document_objects d -> form_use d' = form_use d ->
  annotation_use d' = annotation_use d -> structure_use d' = structure_use d ->
  structure_parent_tree_items d' = structure_parent_tree_items d ->
  pages d' = pages d -> opts d' = opts d -> grows d d'.
Proof.
  intros H1 H2 H3 H4 H5 H6 H7. repeat split; auto.
  exists []. split; [now rewrite app_nil_r | constructor].
Qed.

Create HintDb keeps.

Ltac keeps_auto :=
  repeat first
    [ apply keeps_ret | apply keeps_fail | apply keeps_crash | apply keeps_lift
    | apply keeps_get
    | apply keeps_add_object; exact I
    | apply keeps_modify; intros ?; first [ apply grows_push_plain; exact I
                                          | apply grows_same; reflexivity ]
    | solve [auto with keeps nocore]
    | apply keeps_bind; [| intros ?]
    | match goal with
      | |- keeps_usage (if ?b then _ else _) => destruct b
      | |- keeps_usage (match ?o with _ => _ end) => destruct o
      end ].

Lemma keeps_find_icc_profile (contents : string) : keeps_usage (find_icc_profile contents).
Proof. intros d0. apply grows_refl. Qed.
#[local] Hint Resolve keeps_find_icc_profile : keeps.

Lemma keeps_store_icc_profile (contents : string) (n : Z) :
  keeps_usage (store_icc_profile contents n).
Proof. unfold store_icc_profile. keeps_auto. Qed.
#[local] Hint Resolve keeps_store_icc_profile : keeps.

Lemma keeps_load_icc_file (fname : string) : keeps_usage (load_icc_file fname).
Proof. unfold load_icc_file. keeps_auto. Qed.

Lemma keeps_generate_info_object : keeps_usage generate_info_object.
Proof. unfold generate_info_object. keeps_auto. Qed.
#[local] Hint Resolve keeps_generate_info_object : keeps.

Lemma keeps_create_separation (name : string) (fc fm fy fk : LimitDouble) :
  keeps_usage (create_separation name fc fm fy fk).
Proof. unfold create_separation. keeps_auto. Qed.
#[local] Hint Resolve keeps_create_separation : keeps.

Lemma keeps_create_page_group : keeps_usage create_page_group.
Proof. unfold create_page_group. keeps_auto. Qed.
#[local] Hint Resolve keeps_create_page_group : keeps.

Lemma keeps_create_output_intent : keeps_usage create_output_intent.
Proof. unfold create_output_intent. keeps_auto. Qed.
#[local] Hint Resolve keeps_create_output_intent : keeps.

Lemma keeps_init : keeps_usage init.
Proof. unfold init. keeps_auto. Qed.

(** [init] puts the sentinel first: the table it leaves is the table it was
    given, then [DummyIndexZero], then plain objects. *)
Lemma init_sentinel (d : PdfDocument) :
  exists extra,
    document_objects (snd (init d)) = document_objects d ++ DummyIndexZero :: extra.
Proof.
  unfold init. unfold bind at 1. cbn [modify].
  match goal with
  | |- context [snd (?m ?d1)] => set (rest := m); set (d' := d1)
  end.
  assert (Hk : keeps_usage rest) by (subst rest; keeps_auto).
  destruct (Hk d') as ((extra & Hobj & _) & _).
  exists extra. etransitivity; [exact Hobj|].
  subst d'. cbn [document_objects set_document_objects]. now rewrite <- app_assoc.
Qed.

Lemma keeps_add_image_object (wd ht bpc : Z) (ip : CapyPDF_Image_Interpolation)
    (k : ColorspaceType) (sm : option Z) (mask : bool) (bytes : string) :
  keeps_usage (add_image_object wd ht bpc ip k sm mask bytes).
Proof. unfold add_image_object. keeps_auto. Qed.
#[local] Hint Resolve keeps_add_image_object : keeps.

Lemma keeps_add_image (image : RasterImage) (mask : bool) : keeps_usage (add_image image mask).
Proof. unfold add_image. keeps_auto. Qed.

Lemma keeps_add_shading4 (shade : ShadingType4) : keeps_usage (add_shading4 shade).
Proof. unfold add_shading4. keeps_auto. Qed.

Lemma keeps_add_shading6 (shade : ShadingType6) : keeps_usage (add_shading6 shade).
Proof. unfold add_shading6. keeps_auto. Qed.

Lemma keeps_add_pattern (this : Z) (ctx : PdfDrawContext) : keeps_usage (add_pattern this ctx).
Proof. unfold add_pattern. keeps_auto. Qed.

Lemma keeps_add_transparency_group (this : Z) (ctx : PdfDrawContext)
    (ex : option TransparencyGroupExtra) :
  keeps_usage (add_transparency_group this ctx ex).
Proof. unfold add_transparency_group. keeps_auto. Qed.

Lemma keeps_pad_subset_fonts : keeps_usage pad_subset_fonts.
Proof. unfold pad_subset_fonts. keeps_auto. Qed.

Lemma keeps_subnav_nodes (ocgs : list Z) (first_obj : Z) (subnav : list SubPageNavigation) :
  forall i prev, keeps_usage (subnav_nodes ocgs first_obj i prev subnav).
Proof.
  induction subnav as [|sn rest IH]; intros i prev; simpl; [apply keeps_ret|].
  apply keeps_bind; [apply keeps_add_object; exact I | intros _; apply IH].
Qed.
#[local] Hint Resolve keeps_subnav_nodes : keeps.

Lemma keeps_create_subnavigation (subnav : list SubPageNavigation) :
  keeps_usage (create_subnavigation subnav).
Proof. unfold create_subnavigation. keeps_auto. Qed.

End Frames.

(** ** Pages *)

Section Pages.
Context {E : Env}.

Lemma succeeds_bind {A B : Type} (m : M A) (k : A -> M B) :
  succeeds m -> (forall a, succeeds (k a)) -> succeeds (bind m k).
Proof.
  intros Hm Hk d0. unfold bind. destruct (Hm d0) as (a & d' & ->). apply Hk.
Qed.

Lemma succeeds_ret {A : Type} (a : A) : succeeds (ret a).
Proof. intros d0. unfold ret. eauto. Qed.

Lemma succeeds_get {A : Type} (f : PdfDocument -> A) : succeeds (get f).
Proof. intros d0. unfold get. eauto. Qed.

Lemma succeeds_modify (f : PdfDocument -> PdfDocument) : succeeds (modify f).
Proof. intros d0. unfold modify. eauto. Qed.

Lemma succeeds_add_object (o : ObjectType) : succeeds (add_object o).
Proof. intros d0. unfold add_object. eauto. Qed.

Lemma succeeds_subnav_nodes (ocgs : list Z) (first_obj : Z) (subnav : list SubPageNavigation) :
  forall i prev, succeeds (subnav_nodes ocgs first_obj i prev subnav).
Proof.
  induction subnav as [|sn rest IH]; intros i prev; simpl; [apply succeeds_ret|].
  apply succeeds_bind; [apply succeeds_add_object | intros _; apply IH].
Qed.

Lemma succeeds_create_subnavigation (subnav : list SubPageNavigation) :
  subnav <> [] -> succeeds (create_subnavigation subnav).
Proof.
  intros Hne. unfold create_subnavigation, cassert.
  rewrite bool_decide_eq_false_2 by assumption. rewrite orb_true_r.
  apply succeeds_bind; [intros d0; unfold lift; eauto|]. intros _.
  destruct (last subnav) eqn:Hlast.
  - repeat first [ apply succeeds_ret | apply succeeds_get | apply succeeds_add_object
                 | apply succeeds_subnav_nodes | apply succeeds_bind; [|intros ?] ].
  - apply last_None in Hlast. contradiction.
Qed.

Lemma bind_ok {A B : Type} (m : M A) (k : A -> M B) (d d' : PdfDocument) (a : A) :
  m d = (Ok a, d') -> bind m k d = k a d'.
Proof. intros H. unfold bind. now rewrite H. Qed.

(** The ids a loop of [add_page] looks up. *)
Lemma used_in_false {V : Type} (use : gmap Z V) (ids : list Z) :
  used_in use ids = false <-> (forall a, a ∈ ids -> use !! a = None).
Proof.
  unfold used_in. split.
  - intros H a Ha. destruct (use !! a) eqn:Hu; [|reflexivity].
    assert (existsb (fun a => bool_decide (is_Some (use !! a))) ids = true) as Ht.
    { apply existsb_exists. exists a. split; [now apply list_elem_of_In|].
      apply bool_decide_eq_true. rewrite Hu. eauto. }
    congruence.
  - intros H. apply not_true_is_false. intros Ht.
    apply existsb_exists in Ht as (a & Ha & Hd).
    apply bool_decide_eq_true in Hd. apply list_elem_of_In in Ha.
    rewrite (H a Ha) in Hd. now destruct Hd.
Qed.

Lemma used_in_true {V : Type} (use : gmap Z V) (ids : list Z) (a : Z) :
  a ∈ ids -> is_Some (use !! a) -> used_in use ids = true.
Proof.
  intros Ha Hs. unfold used_in. apply existsb_exists. exists a.
  split; [now apply list_elem_of_In | now apply bool_decide_eq_true].
Qed.

Lemma mark_used_lookup (ids : list Z) (n : Z) (use : gmap Z Z) (a : Z) :
  is_Some (mark_used ids n use !! a) <-> a ∈ ids \/ is_Some (use !! a).
Proof.
  unfold mark_used. revert use. induction ids as [|b ids IH]; intros use; simpl.
  - split; [auto | intros [H|H]; [inversion H | exact H]].
  - rewrite IH. rewrite elem_of_cons. destruct (decide (a = b)) as [->|Hne].
    + rewrite lookup_insert_eq. split; eauto.
    + rewrite lookup_insert_ne by congruence. split; intros [H|H]; auto.
      destruct H as [H|H]; [congruence | auto].
Qed.

Lemma mark_structures_lookup (structs : list Z) (page mcid : Z) (use : gmap Z StructureUsage)
    (a : Z) :
  is_Some (mark_structures structs page mcid use !! a) <-> a ∈ structs \/ is_Some (use !! a).
Proof.
  revert mcid use. induction structs as [|b structs IH]; intros mcid use; simpl.
  - split; [auto | intros [H|H]; [inversion H | exact H]].
  - rewrite IH. rewrite elem_of_cons. destruct (decide (a = b)) as [->|Hne].
    + rewrite lookup_insert_eq. split; eauto.
    + rewrite lookup_insert_ne by congruence. split; intros [H|H]; auto.
      destruct H as [H|H]; [congruence | auto].
Qed.

Lemma add_page_ok (rd ud cstream : string) (cp : PageProperties) (fws annots : gset Z)
    (structs : list Z) (trn : option Transition) (subnav : list SubPageNavigation)
    (d : PdfDocument) :
  used_in (form_use d) (elements fws) = false ->
  used_in (annotation_use d) (elements annots) = false ->
  used_in (structure_use d) structs = false ->
  exists extra pg n1 n2 po d',
    add_page rd ud cstream cp fws annots structs trn subnav d = (Ok tt, d')
    /\ document_objects d' = document_objects d ++ extra ++ [Page pg]
    /\ Forall plain extra
    /\ used_form_widgets pg = elements fws
    /\ used_annotations pg = elements annots
    /\ form_use d' = mark_used (elements fws) n1 (form_use d)
    /\ annotation_use d' = mark_used (elements annots) n1 (annotation_use d)
    /\ structure_use d' = mark_structures structs n2 0 (structure_use d)
    /\ structure_parent_tree_items d'
       = (if bool_decide (structs = []) then structure_parent_tree_items d
          else structure_parent_tree_items d ++ [structs])
    /\ pages d' = pages d ++ [po]
    /\ opts d' = opts d.
Proof.
  intros H1 H2 H3. unfold add_page. rewrite H1, H2, H3.
  erewrite bind_ok by reflexivity.
  erewrite bind_ok by reflexivity.
  match goal with |- context [bind ?m _ ?d1] => 
    assert (Hc : exists cn dC, m d1 = (Ok cn, dC) /\ grows d dC) end.
  { cbn [opts set_document_objects]. destruct (compress_streams (opts d)).
    - eexists _, _. split; [reflexivity|].
      repeat split; auto. eexists [_; _]. split; [cbn; now rewrite <- app_assoc|].
      repeat constructor.
    - eexists _, _. split; [reflexivity|].
      repeat split; auto. eexists [_; _]. split; [cbn; now rewrite <- app_assoc|].
      repeat constructor. }
  destruct Hc as (cn & dC & HeqC & HgC). rewrite (bind_ok _ _ _ _ _ HeqC).
  erewrite bind_ok by reflexivity.
  match goal with |- context [bind ?m _ dC] => 
    assert (Hs : exists sr dS, m dC = (Ok sr, dS) /\ grows dC dS) end.
  { destruct (bool_decide (subnav = [])) eqn:Hsn; simpl.
    - eexists _, _. split; [reflexivity | apply grows_refl].
    - apply bool_decide_eq_false in Hsn.
      destruct (succeeds_create_subnavigation subnav Hsn dC) as (root & dS & Hroot).
      pose proof (keeps_create_subnavigation subnav dC) as Hk. rewrite Hroot in Hk.
      eexists _, _. split; [erewrite bind_ok by exact Hroot; reflexivity | exact Hk]. }
  destruct Hs as (sr & dS & HeqS & HgS). rewrite (bind_ok _ _ _ _ _ HeqS).
  pose proof (grows_trans _ _ _ HgC HgS) as Hg.
  destruct Hg as ((extra & Hobj & Hplain) & Hf & Ha & Hsu & Hsp & Hpg & Hop).
  destruct (bool_decide (structs = [])) eqn:Hst; cbn [negb].
  - exists extra. eexists _, _, _, _, _. split; [reflexivity|].
    cbn. rewrite Hobj, Hf, Ha, Hsu, Hsp, Hpg, Hop.
    repeat split; auto. 1: now rewrite <- app_assoc. all: reflexivity.
  - exists extra. eexists _, _, _, _, _. split; [reflexivity|].
    cbn. rewrite Hobj, Hf, Ha, Hsu, Hsp, Hpg, Hop.
    repeat split; auto. 1: now rewrite <- app_assoc. all: reflexivity.
Qed.

End Pages.

(** ** Which page an id is attached to *)

Section Usage.
Context {E : Env}.

Lemma page_objects_app (l1 l2 : list ObjectType) :
  page_objects (l1 ++ l2) = page_objects l1 ++ page_objects l2.
Proof. apply omap_app. Qed.

Lemma page_objects_plain (extra : list ObjectType) :
  Forall plain extra -> page_objects extra = [].
Proof.
  induction 1 as [|o extra Ho _ IH]; [reflexivity|].
  destruct o; try contradiction; exact IH.
Qed.

Lemma at_most_one_page_snoc (ls : list (list Z)) (l : list Z) :
  at_most_one_page ls ->
  (forall l' a, l' ∈ ls -> a ∈ l' -> a ∉ l) ->
  at_most_one_page (ls ++ [l]).
Proof.
  intros Hls Hnew i j li lj a Hi Hj Hai Haj.
  assert (Hcase : forall k lk, (ls ++ [l]) !! k = Some lk ->
                    (ls !! k = Some lk /\ (k < length ls)%nat) \/ (k = length ls /\ lk = l)).
  { intros k lk Hk. destruct (decide (k < length ls)%nat) as [Hlt|Hge].
    - left. rewrite lookup_app_l in Hk by assumption. auto.
    - right. rewrite lookup_app_r in Hk by lia.
      destruct (k - length ls)%nat as [|n] eqn:Hn; simpl in Hk; [|now destruct n].
      inversion Hk. split; [lia | reflexivity]. }
  destruct (Hcase i li Hi) as [[Hi' Hil]|[-> ->]];
    destruct (Hcase j lj Hj) as [[Hj' Hjl]|[-> ->]].
  - eapply Hls; eauto.
  - exfalso. eapply Hnew; [eapply list_elem_of_lookup_2; exact Hi' | exact Hai | exact Haj].
  - exfalso. eapply Hnew; [eapply list_elem_of_lookup_2; exact Hj' | exact Haj | exact Hai].
  - reflexivity.
Qed.

Lemma attached_snoc (ls : list (list Z)) (l : list Z) (a : Z) :
  attached (ls ++ [l]) a <-> a ∈ l \/ attached ls a.
Proof.
  unfold attached. split.
  - intros (l' & Hl' & Ha). apply elem_of_app in Hl' as [Hl'|Hl'].
    + right. eauto.
    + apply list_elem_of_singleton in Hl'. subst l'. now left.
  - intros [Ha|(l' & Hl' & Ha)].
    + exists l. split; [apply elem_of_app; right; now apply list_elem_of_singleton | exact Ha].
    + exists l'. split; [apply elem_of_app; now left | exact Ha].
Qed.

Lemma marks_exact_snoc {V : Type} (use use' : gmap Z V) (ls : list (list Z)) (l : list Z) :
  marks_exact use ls ->
  (forall a, is_Some (use' !! a) <-> a ∈ l \/ is_Some (use !! a)) ->
  marks_exact use' (ls ++ [l]).
Proof.
  intros Hls Hnew a. rewrite Hnew, attached_snoc, (Hls a). reflexivity.
Qed.

Lemma marks_exact_same {V : Type} (use use' : gmap Z V) (ls : list (list Z)) :
  marks_exact use ls ->
  (forall a, is_Some (use' !! a) <-> is_Some (use !! a)) ->
  marks_exact use' ls.
Proof. intros Hls Hsame a. now rewrite Hsame. Qed.

Lemma usage_inv_new_document (gd : PdfGenerationData) (conv : PdfColorConverter) :
  usage_inv (new_document gd conv).
Proof.
  unfold usage_inv, widgets_by_page, annotations_by_page. simpl.
  assert (Hempty : forall V : Type, marks_exact (V:=V) ∅ []).
  { intros V a. rewrite lookup_empty. split; [intros [? ?]; discriminate|].
    intros (l & Hl & _). now apply elem_of_nil in Hl. }
  assert (Hone : at_most_one_page []).
  { intros i j li lj a Hi. now rewrite lookup_nil in Hi. }
  repeat split; try apply Hempty; try apply Hone.
Qed.

Lemma usage_inv_grows (d d' : PdfDocument) : grows d d' -> usage_inv d -> usage_inv d'.
Proof.
  intros ((extra & Hobj & Hplain) & Hf & Ha & Hs & Ht & _ & _).
  unfold usage_inv, widgets_by_page, annotations_by_page.
  rewrite Hobj, page_objects_app, (page_objects_plain extra Hplain), app_nil_r.
  now rewrite Hf, Ha, Hs, Ht.
Qed.

(** A page that passes the three checks keeps the invariant. *)
Lemma usage_inv_add_page (rd ud cstream : string) (cp : PageProperties) (fws annots : gset Z)
    (structs : list Z) (trn : option Transition) (subnav : list SubPageNavigation)
    (d : PdfDocument) :
  usage_inv d ->
  usage_inv (snd (add_page rd ud cstream cp fws annots structs trn subnav d)).
Proof.
  intros Hinv.
  destruct (used_in (form_use d) (elements fws)) eqn:H1;
    [unfold add_page; now rewrite H1|].
  destruct (used_in (annotation_use d) (elements annots)) eqn:H2;
    [unfold add_page; now rewrite H1, H2|].
  destruct (used_in (structure_use d) structs) eqn:H3;
    [unfold add_page; now rewrite H1, H2, H3|].
  destruct (add_page_ok rd ud cstream cp fws annots structs trn subnav d H1 H2 H3)
    as (extra & pg & n1 & n2 & po & d' & Heq & Hobj & Hplain & Hw & Han & Hf & Ha & Hs & Ht & _).
  rewrite Heq. simpl.
  destruct Hinv as (Mw & Ow & Ma & Oa & Ms & Os).
  pose proof (proj1 (used_in_false _ _) H1) as N1.
  pose proof (proj1 (used_in_false _ _) H2) as N2.
  pose proof (proj1 (used_in_false _ _) H3) as N3.
  unfold usage_inv, widgets_by_page, annotations_by_page.
  rewrite Hobj, !page_objects_app, (page_objects_plain extra Hplain), app_nil_l.
  replace (page_objects [Page pg]) with [pg] by reflexivity.
  rewrite !map_app. simpl. rewrite Hw, Han, Hf, Ha, Hs, Ht.
  assert (Hnone : forall {V : Type} (use : gmap Z V) (ids : list Z) (ls : list (list Z)),
             marks_exact use ls -> (forall a, a ∈ ids -> use !! a = None) ->
             forall l' a, l' ∈ ls -> a ∈ l' -> a ∉ ids).
  { intros V use ids ls Hm Hn l' a Hl' Ha' Hin.
    assert (Hsome : is_Some (use !! a)) by (apply Hm; exists l'; auto).
    rewrite (Hn a Hin) in Hsome. now destruct Hsome. }
  split; [|split; [|split; [|split]]].
  - eapply marks_exact_snoc; [exact Mw|]. intros a. apply mark_used_lookup.
  - apply at_most_one_page_snoc; [exact Ow | now apply (Hnone _ (form_use d))].
  - eapply marks_exact_snoc; [exact Ma|]. intros a. apply mark_used_lookup.
  - apply at_most_one_page_snoc; [exact Oa | now apply (Hnone _ (annotation_use d))].
  - destruct (bool_decide (structs = [])) eqn:Hst.
    + split; [|exact Os]. apply bool_decide_eq_true in Hst. subst structs.
      eapply marks_exact_same; [exact Ms|]. intros a. reflexivity.
    + split.
      * eapply marks_exact_snoc; [exact Ms|]. intros a. apply mark_structures_lookup.
      * apply at_most_one_page_snoc; [exact Os | now apply (Hnone _ (structure_use d))].
Qed.

Lemma usage_inv_run_operation (op : Operation) (d : PdfDocument) :
  usage_inv d -> usage_inv (run_operation op d).
Proof.
  destruct op; simpl.
  - apply usage_inv_add_page.
  - apply usage_inv_grows, keeps_add_shading4.
  - apply usage_inv_grows, keeps_add_shading6.
  - apply usage_inv_grows, keeps_add_pattern.
  - apply usage_inv_grows, keeps_add_transparency_group.
  - apply usage_inv_grows, keeps_load_icc_file.
  - apply usage_inv_grows, keeps_add_image.
  - apply usage_inv_grows, keeps_pad_subset_fonts.
Qed.

Lemma usage_inv_run_operations (ops : list Operation) (d : PdfDocument) :
  usage_inv d -> usage_inv (run_operations ops d).
Proof.
  revert d. induction ops as [|op ops IH]; intros d Hinv; simpl; [exact Hinv|].
  apply IH. now apply usage_inv_run_operation.
Qed.

Lemma usage_inv_init (gd : PdfGenerationData) (conv : PdfColorConverter) :
  usage_inv (snd (init (new_document gd conv))).
Proof.
  eapply usage_inv_grows; [apply keeps_init | apply usage_inv_new_document].
Qed.

(** Every call appends to the object table and changes no entry of it. *)
Lemma run_operation_appends (op : Operation) (d : PdfDocument) :
  exists extra, document_objects (run_operation op d) = document_objects d ++ extra.
Proof.
  assert (Hg : forall d', grows d d' -> exists extra,
                 document_objects d' = document_objects d ++ extra).
  { intros d' ((extra & Hobj & _) & _). eauto. }
  destruct op as [rd ud cstream cp fws annots structs trn subnav| | | | | | |]; simpl.
  - destruct (used_in (form_use d) (elements fws)) eqn:H1;
      [unfold add_page; rewrite H1; exists []; simpl; now rewrite app_nil_r|].
    destruct (used_in (annotation_use d) (elements annots)) eqn:H2;
      [unfold add_page; rewrite H1, H2; exists []; simpl; now rewrite app_nil_r|].
    destruct (used_in (structure_use d) structs) eqn:H3;
      [unfold add_page; rewrite H1, H2, H3; exists []; simpl; now rewrite app_nil_r|].
    destruct (add_page_ok rd ud cstream cp fws annots structs trn subnav d H1 H2 H3)
      as (extra & pg & n1 & n2 & po & d' & Heq & Hobj & _).
    rewrite Heq. simpl. eauto.
  - apply Hg, keeps_add_shading4.
  - apply Hg, keeps_add_shading6.
  - apply Hg, keeps_add_pattern.
  - apply Hg, keeps_add_transparency_group.
  - apply Hg, keeps_load_icc_file.
  - apply Hg, keeps_add_image.
  - apply Hg, keeps_pad_subset_fonts.
Qed.

Lemma run_operations_appends (ops : list Operation) (d : PdfDocument) :
  exists extra, document_objects (run_operations ops d) = document_objects d ++ extra.
Proof.
  revert d. induction ops as [|op ops IH]; intros d; simpl.
  - exists []. now rewrite app_nil_r.
  - destruct (IH (run_operation op d)) as (e2 & H2).
    destruct (run_operation_appends op d) as (e1 & H1).
    exists (e1 ++ e2). now rewrite H2, H1, app_assoc.
Qed.

End Usage.

(** ** Pages: theorems *)

(** C10: when [add_page] returns an error, that error is [AnnotationReuse] or
    [StructureReuse], and the document is the one the call was given: the
    object table, the page list and the three usage maps are unchanged. *)
Theorem add_page_atomic_on_failure {E : Env} (resource_dict unclosed_object_dict
    command_stream : string) (custom_props : PageProperties) (fws annots : gset Z)
    (structs : list Z) (transition : option Transition) (subnav : list SubPageNavigation)
    (d : PdfDocument) (e : ErrorCode) :
  fst (add_page resource_dict unclosed_object_dict command_stream custom_props fws annots
         structs transition subnav d) = Err e ->
  (e = AnnotationReuse \/ e = StructureReuse)
  /\ snd (add_page resource_dict unclosed_object_dict command_stream custom_props fws annots
            structs transition subnav d) = d
  /\ document_objects (snd (add_page resource_dict unclosed_object_dict command_stream
                              custom_props fws annots structs transition subnav d))
     = document_objects d
  /\ pages (snd (add_page resource_dict unclosed_object_dict command_stream
                   custom_props fws annots structs transition subnav d)) = pages d
  /\ form_use (snd (add_page resource_dict unclosed_object_dict command_stream
                      custom_props fws annots structs transition subnav d)) = form_use d
  /\ annotation_use (snd (add_page resource_dict unclosed_object_dict command_stream
                            custom_props fws annots structs transition subnav d))
     = annotation_use d
  /\ structure_use (snd (add_page resource_dict unclosed_object_dict command_stream
                           custom_props fws annots structs transition subnav d))
     = structure_use d.
Proof.
  intros Herr.
  destruct (used_in (form_use d) (elements fws)) eqn:H1.
  { unfold add_page in *. rewrite H1 in *. simpl in *. inversion Herr. auto 10. }
  destruct (used_in (annotation_use d) (elements annots)) eqn:H2.
  { unfold add_page in *. rewrite H1, H2 in *. simpl in *. inversion Herr. auto 10. }
  destruct (used_in (structure_use d) structs) eqn:H3.
  { unfold add_page in *. rewrite H1, H2, H3 in *. simpl in *. inversion Herr. auto 10. }
  destruct (add_page_ok resource_dict unclosed_object_dict command_stream custom_props fws
              annots structs transition subnav d H1 H2 H3)
    as (extra & pg & n1 & n2 & po & d' & Heq & _).
  rewrite Heq in Herr. discriminate.
Qed.

Lemma add_page_atomic_on_failure_witness :
  (AnnotationReuse = AnnotationReuse \/ AnnotationReuse = StructureReuse)
  /\ snd (add_page (E:=debug_env) "<<>>" "<<" "q Q" tt ∅ {[5]} [] None [] one_page_document)
     = one_page_document
  /\ document_objects
       (snd (add_page (E:=debug_env) "<<>>" "<<" "q Q" tt ∅ {[5]} [] None [] one_page_document))
     = document_objects one_page_document
  /\ pages (snd (add_page (E:=debug_env) "<<>>" "<<" "q Q" tt ∅ {[5]} [] None []
                   one_page_document))
     = pages one_page_document
  /\ form_use (snd (add_page (E:=debug_env) "<<>>" "<<" "q Q" tt ∅ {[5]} [] None []
                      one_page_document))
     = form_use one_page_document
  /\ annotation_use (snd (add_page (E:=debug_env) "<<>>" "<<" "q Q" tt ∅ {[5]} [] None []
                            one_page_document))
     = annotation_use one_page_document
  /\ structure_use (snd (add_page (E:=debug_env) "<<>>" "<<" "q Q" tt ∅ {[5]} [] None []
                           one_page_document))
     = structure_use one_page_document.
Proof.
  apply (add_page_atomic_on_failure (E:=debug_env) "<<>>" "<<" "q Q" tt ∅ {[5]} [] None []
           one_page_document AnnotationReuse).
  vm_compute. reflexivity.
Defined.

(** C5, as the code has it. On every document reached from a constructed one
    by the calls of [Operation]: a page that names a form widget or an
    annotation already attached to a page is refused with [AnnotationReuse];
    a page that names a structure item already attached to a page, and no
    such form widget or annotation, is refused with [StructureReuse]; the
    document is unchanged in both cases; and no form widget, annotation or
    structure item is attached to two pages. *)
Theorem add_page_rejects_reuse {E : Env} (gd : PdfGenerationData) (conv : PdfColorConverter)
    (ops : list Operation) (resource_dict unclosed_object_dict command_stream : string)
    (custom_props : PageProperties) (fws annots : gset Z) (structs : list Z)
    (transition : option Transition) (subnav : list SubPageNavigation) :
  let d := run_operations ops (snd (init (new_document gd conv))) in
  let reuse_w := exists a, a ∈ fws /\ attached (widgets_by_page d) a in
  let reuse_a := exists a, a ∈ annots /\ attached (annotations_by_page d) a in
  let reuse_s := exists a, a ∈ structs /\ attached (structure_parent_tree_items d) a in
  (reuse_w \/ reuse_a ->
   add_page resource_dict unclosed_object_dict command_stream custom_props fws annots structs
     transition subnav d = (Err AnnotationReuse, d))
  /\ (~ reuse_w -> ~ reuse_a -> reuse_s ->
      add_page resource_dict unclosed_object_dict command_stream custom_props fws annots
        structs transition subnav d = (Err StructureReuse, d))
  /\ at_most_one_page (widgets_by_page d)
  /\ at_most_one_page (annotations_by_page d)
  /\ at_most_one_page (structure_parent_tree_items d).
Proof.
  intros d reuse_w reuse_a reuse_s.
  assert (Hinv : usage_inv d) by apply usage_inv_run_operations, usage_inv_init.
  destruct Hinv as (Mw & Ow & Ma & Oa & Ms & Os).
  assert (Hw : reuse_w -> used_in (form_use d) (elements fws) = true).
  { intros (a & Ha & Hatt). apply (used_in_true _ _ a); [now apply elem_of_elements|].
    now apply Mw. }
  assert (Ha : reuse_a -> used_in (annotation_use d) (elements annots) = true).
  { intros (a & Ha & Hatt). apply (used_in_true _ _ a); [now apply elem_of_elements|].
    now apply Ma. }
  assert (Hnw : ~ reuse_w -> used_in (form_use d) (elements fws) = false).
  { intros Hn. apply used_in_false. intros a Hin.
    destruct (form_use d !! a) eqn:Hl; [|reflexivity].
    exfalso. apply Hn. exists a. split; [now apply elem_of_elements|].
    apply Mw. rewrite Hl. eauto. }
  assert (Hna : ~ reuse_a -> used_in (annotation_use d) (elements annots) = false).
  { intros Hn. apply used_in_false. intros a Hin.
    destruct (annotation_use d !! a) eqn:Hl; [|reflexivity].
    exfalso. apply Hn. exists a. split; [now apply elem_of_elements|].
    apply Ma. rewrite Hl. eauto. }
  split; [|split; [|auto]].
  - intros [Hr|Hr]; unfold add_page.
    + now rewrite (Hw Hr).
    + rewrite (Ha Hr). now destruct (used_in (form_use d) (elements fws)).
  - intros Hn1 Hn2 (a & Hin & Hatt). unfold add_page.
    rewrite (Hnw Hn1), (Hna Hn2).
    rewrite (used_in_true (structure_use d) structs a Hin); [reflexivity|].
    now apply Ms.
Qed.

(** A second page that names annotation 5 of the first page is refused. *)
Lemma add_page_rejects_reuse_witness :
  add_page (E:=debug_env) "<<>>" "<<" "q Q" tt ∅ {[5]} [] None [] one_page_document
  = (Err AnnotationReuse, one_page_document).
Proof.
  apply (add_page_rejects_reuse (E:=debug_env) rgb_options no_profiles
           [OpAddPage (E:=debug_env) "<<>>" "<<" "q Q" tt ∅ {[5]} [7] None []]
           "<<>>" "<<" "q Q" tt ∅ {[5]} [] None []).
  right. exists 5. split; [now apply elem_of_singleton|].
  exists [5]. split; [vm_compute; repeat constructor | now apply list_elem_of_singleton].
Defined.

(** C5 as stated fails: structure item 7 is attached to the first page, and
    a second page that names it together with annotation 5 is refused with
    [AnnotationReuse], not [StructureReuse]. *)
Lemma add_page_reuse_precedence :
  structure_parent_tree_items one_page_document = [[7]]
  /\ annotations_by_page one_page_document = [[5]]
  /\ add_page (E:=debug_env) "<<>>" "<<" "q Q" tt ∅ {[5]} [7] None [] one_page_document
     = (Err AnnotationReuse, one_page_document).
Proof.
  repeat split; vm_compute; reflexivity.
Qed.

(** ** The object table *)

Lemma to_int32_small (z : Z) : 0 <= z < 2 ^ 31 -> to_int32 z = z.
Proof.
  intros H. unfold to_int32.
  rewrite Z.mod_small by lia. lia.
Qed.

Lemma lookup_prefix {A : Type} (l extra : list A) (i : nat) (a : A) :
  l !! i = Some a -> (l ++ extra) !! i = Some a.
Proof. intros H. rewrite lookup_app_l; [exact H | eapply lookup_lt_Some; eauto]. Qed.

(** C9: the table of a constructed document starts with the sentinel, and
    keeps it; [add_object] returns the current size of the table (as an
    [int32_t], so while the table has fewer than 2^31 entries), appends
    exactly the object it was given, at that index; two calls in a row return
    consecutive numbers; and no later call of any member function changes
    the entry at an index already handed out. *)
Theorem object_numbering {E : Env} (gd : PdfGenerationData) (conv : PdfColorConverter)
    (ops : list Operation) (d : PdfDocument) (object next : ObjectType) :
  document_objects (run_operations ops (snd (init (new_document gd conv)))) !! 0%nat
  = Some DummyIndexZero
  /\ (size_of (document_objects d) < 2 ^ 31 ->
      fst (add_object object d) = Ok (size_of (document_objects d)))
  /\ document_objects (snd (add_object object d)) = document_objects d ++ [object]
  /\ document_objects (snd (add_object object d)) !! length (document_objects d) = Some object
  /\ (size_of (document_objects d) + 1 < 2 ^ 31 ->
      fst (add_object next (snd (add_object object d)))
      = Ok (size_of (document_objects d) + 1))
  /\ (forall (i : nat) (o : ObjectType),
        document_objects d !! i = Some o ->
        document_objects (snd (add_object object d)) !! i = Some o
        /\ document_objects (run_operations ops d) !! i = Some o).
Proof.
  split; [|split; [|split; [|split; [|split]]]].
  - destruct (init_sentinel (new_document gd conv)) as (e1 & H1).
    destruct (run_operations_appends ops (snd (init (new_document gd conv)))) as (e2 & H2).
    rewrite H2, H1. reflexivity.
  - intros Hsize. unfold add_object. simpl. f_equal. apply to_int32_small.
    unfold size_of in *. lia.
  - reflexivity.
  - unfold add_object. simpl. rewrite lookup_app_r by lia.
    now rewrite Nat.sub_diag.
  - intros Hsize. unfold add_object. simpl. f_equal.
    unfold size_of in *. rewrite length_app. simpl.
    rewrite to_int32_small by lia. lia.
  - intros i o Hi. split.
    + unfold add_object. simpl. now apply lookup_prefix.
    + destruct (run_operations_appends ops d) as (extra & Hobj).
      rewrite Hobj. now apply lookup_prefix.
Qed.

(** On the sample document: the next object number is the size of the table,
    and the one after is the next integer. *)
Lemma object_numbering_witness :
  fst (add_object (E:=debug_env) DelayedPages one_page_document)
  = Ok (size_of (document_objects one_page_document))
  /\ fst (add_object (E:=debug_env) DelayedPages
            (snd (add_object (E:=debug_env) DelayedPages one_page_document)))
     = Ok (size_of (document_objects one_page_document) + 1).
Proof.
  destruct (object_numbering (E:=debug_env) rgb_options no_profiles [] one_page_document
              DelayedPages DelayedPages) as (_ & Hid & _ & _ & Hnext & _).
  split; [apply Hid | apply Hnext]; vm_compute; reflexivity.
Defined.

(** ** Draw contexts of another document *)

(** [add_pattern] refuses a context of another document and leaves the
    document alone. *)
Lemma add_pattern_foreign_context {E : Env} (this : Z) (ctx : PdfDrawContext) (d : PdfDocument) :
  doc ctx <> this -> add_pattern this ctx d = (Err IncorrectDocumentForObject, d).
Proof.
  intros Hne. unfold add_pattern. now rewrite bool_decide_eq_true_2.
Qed.

(** C2, the half the code misses: [add_transparency_group] never compares the
    context's document with its own. Given a context of another document, of
    the right kind and with no open marked content, it appends the
    serialised group to the object table and returns a new id. *)
Theorem add_transparency_group_foreign_context {E : Env} (this : Z) (ctx : PdfDrawContext)
    (ex : option TransparencyGroupExtra) (sx : SerializedXObject) (d : PdfDocument) :
  doc ctx <> this ->
  context_type ctx = CAPY_DC_TRANSPARENCY_GROUP ->
  marked_depth ctx = 0 ->
  serialize ctx ex = XObject sx ->
  fst (add_transparency_group this ctx ex d)
  = Ok (to_int32 (size_of (transparency_groups d ++ [to_int32 (size_of (document_objects d))]))
        - 1)
  /\ document_objects (snd (add_transparency_group this ctx ex d))
     = document_objects d ++ [Full {| dictionary := dict sx; stream := xcommand_stream sx |}]
  /\ add_pattern this ctx d = (Err IncorrectDocumentForObject, d).
Proof.
  intros Hdoc Hty Hdepth Hser. unfold add_transparency_group.
  rewrite Hty, Hdepth, Hser.
  rewrite !bool_decide_eq_false_2 by (intros Hc; now apply Hc).
  split; [reflexivity|]. split; [reflexivity|].
  now apply add_pattern_foreign_context.
Qed.

Lemma add_transparency_group_foreign_context_witness :
  fst (add_transparency_group (E:=debug_env) 1 foreign_group_context None one_page_document)
  = Ok (to_int32 (size_of (transparency_groups one_page_document
                             ++ [to_int32 (size_of (document_objects one_page_document))]))
        - 1)
  /\ document_objects
       (snd (add_transparency_group (E:=debug_env) 1 foreign_group_context None
               one_page_document))
     = document_objects one_page_document
         ++ [Full {| dictionary := "<<>>"; stream := "q Q" |}]
  /\ add_pattern (E:=debug_env) 1 foreign_group_context one_page_document
     = (Err IncorrectDocumentForObject, one_page_document).
Proof.
  apply (add_transparency_group_foreign_context (E:=debug_env) 1 foreign_group_context None
           {| dict := "<<>>"; xcommand_stream := "q Q" |} one_page_document);
    [discriminate | reflexivity | reflexivity | reflexivity].
Defined.

(** ** ICC profiles registered twice *)

(** Storing a profile that [find_icc_profile] finds: the [assert] of
    [store_icc_profile] fails in a debug build; in a release build a second
    profile object is made. *)
Lemma store_icc_profile_existing {E : Env} (contents : string) (n id : Z) (d : PdfDocument) :
  contents <> "" ->
  find_icc_profile contents d = (Ok (Some id), d) ->
  (NDEBUG = false -> store_icc_profile contents n d = (Crash, d))
  /\ (NDEBUG = true ->
      fst (store_icc_profile contents n d)
      = Ok (to_int32 (size_of (icc_profiles d) + 1) - 1)
      /\ length (icc_profiles (snd (store_icc_profile contents n d)))
         = S (length (icc_profiles d))).
Proof.
  intros Hne Hfind. unfold store_icc_profile. rewrite (bind_ok _ _ _ _ _ Hfind).
  unfold cassert. split; intros Hnd; rewrite Hnd.
  - rewrite bool_decide_eq_true_2 by eauto. reflexivity.
  - simpl. unfold bind at 1. unfold lift.
    rewrite bool_decide_eq_false_2 by assumption.
    split; [|cbn; rewrite length_app; simpl; lia].
    cbn. unfold size_of. rewrite length_app. simpl.
    now rewrite Nat2Z.inj_add.
Qed.

(** C3, the path the code misses: [add_image] stores the embedded profile
    without looking it up. Adding the same image twice ends, in a debug
    build, in the failed [assert] of [store_icc_profile]; in a release build
    it leaves two profiles with the same bytes, so the second registration
    got id 1 and not the id 0 of the first. [load_icc_file] on the same bytes
    returns the first id. *)
Theorem add_image_same_profile_twice :
  let d1 := snd (add_image (E:=debug_env) image_with_profile false sample_document) in
  let r1 := snd (add_image (E:=release_env) image_with_profile false sample_document) in
  let r2 := snd (add_image (E:=release_env) image_with_profile false r1) in
  fst (add_image (E:=debug_env) image_with_profile false sample_document) = Ok 0
  /\ profile_streams d1
     = [Ok (Deflate {| unclosed_dictionary := "<<
  /N 3
"; dstream := "PROFILE" |})]
  /\ add_image (E:=debug_env) image_with_profile false d1 = (Crash, d1)
  /\ load_icc_file (E:=debug_env) "PROFILE" d1 = (Ok 0, d1)
  /\ fst (add_image (E:=release_env) image_with_profile false r1) = Ok 1
  /\ profile_streams r2
     = [Ok (Deflate {| unclosed_dictionary := "<<
  /N 3
"; dstream := "PROFILE" |});
        Ok (Deflate {| unclosed_dictionary := "<<
  /N 3
"; dstream := "PROFILE" |})].
Proof.
  intros d1 r1 r2. subst d1 r1 r2.
  split; [vm_compute; reflexivity|].
  split; [vm_compute; reflexivity|].
  split; [vm_compute; reflexivity|].
  split; [vm_compute; reflexivity|].
  split; [vm_compute; reflexivity|].
  vm_compute; reflexivity.
Qed.

(** ** Font-subset padding *)

Section Padding.
Context {E : Env}.

Lemma at_snoc {A : Type} (pre : list A) (a : A) : at_ (pre ++ [a]) (size_of pre) = Ok a.
Proof.
  unfold at_, size_of.
  destruct (Z.ltb_spec (Z.of_nat (length pre)) 0) as [Hneg|_]; [lia|].
  rewrite Nat2Z.id, lookup_app_r by lia. now rewrite Nat.sub_diag.
Qed.

Lemma index_of_None (codepoint : Z) (glyphs : list Z) (i : Z) :
  index_of codepoint glyphs i = None <-> codepoint ∉ glyphs.
Proof.
  revert i. induction glyphs as [|g glyphs IH]; intros i; simpl.
  - split; [intros _ H; now apply elem_of_nil in H | reflexivity].
  - rewrite not_elem_of_cons. destruct (bool_decide_reflect (g = codepoint)) as [->|Hne].
    + split; [discriminate | intros [H _]; congruence].
    + rewrite IH. split; [intros H; split; [congruence | exact H] | intros [_ H]; exact H].
Qed.

Lemma find_glyph_from_None (codepoint : Z) (ss : list (list Z)) (i : Z) :
  find_glyph_from codepoint ss i = None <-> Forall (fun g => codepoint ∉ g) ss.
Proof.
  revert i. induction ss as [|g ss IH]; intros i; simpl.
  - split; [constructor | reflexivity].
  - rewrite Forall_cons. destruct (index_of codepoint g 0) eqn:Hidx.
    + split; [discriminate|]. intros [Hg _].
      apply (proj2 (index_of_None codepoint g 0)) in Hg. congruence.
    + rewrite IH. apply (proj1 (index_of_None codepoint g 0)) in Hidx. tauto.
Qed.

Lemma is_fresh_true (ss : list (list Z)) (codepoint : Z) :
  is_fresh ss codepoint = true <-> Forall (fun g => codepoint ∉ g) ss.
Proof.
  unfold is_fresh. rewrite <- (find_glyph_from_None codepoint ss 0).
  destruct (find_glyph_from codepoint ss 0); split; congruence.
Qed.

(** Adding one codepoint to the last subset changes the freshness of that
    codepoint only. *)
Lemma is_fresh_after_insert (pre : list (list Z)) (glyphs : list Z) (added codepoint : Z) :
  codepoint <> added ->
  is_fresh (pre ++ [glyphs ++ [added]]) codepoint = is_fresh (pre ++ [glyphs]) codepoint.
Proof.
  intros Hne. apply eq_true_iff_eq. rewrite !is_fresh_true, !Forall_app, !Forall_singleton.
  rewrite not_elem_of_app, list_elem_of_singleton. tauto.
Qed.

Lemma candidates_lower (i : Z) (n : nat) : Forall (fun cp => 33 + i <= cp < 33 + i + Z.of_nat n)
                                             (candidates i n).
Proof.
  revert i. induction n as [|n IH]; intros i; simpl; constructor; [lia|].
  eapply Forall_impl; [apply IH|]. intros cp Hcp. simpl in Hcp. lia.
Qed.

Lemma filter_fresh_after_insert (pre : list (list Z)) (glyphs : list Z) (i : Z) (n : nat) :
  List.filter (is_fresh (pre ++ [glyphs ++ [33 + i]])) (candidates (i + 1) n)
  = List.filter (is_fresh (pre ++ [glyphs])) (candidates (i + 1) n).
Proof.
  pose proof (candidates_lower (i + 1) n) as Hlow.
  induction (candidates (i + 1) n) as [|cp l IH]; [reflexivity|].
  apply Forall_cons in Hlow as [Hcp Hl]. simpl.
  rewrite is_fresh_after_insert by lia. rewrite (IH Hl). reflexivity.
Qed.

(** [get_glyph_subset] on a subsetter whose last subset has room. *)
Lemma get_glyph_subset_room (pre : list (list Z)) (glyphs : list Z) (codepoint : Z) :
  (length glyphs < 256)%nat ->
  snd (get_glyph_subset codepoint {| subset_list := pre ++ [glyphs] |})
  = if is_fresh (pre ++ [glyphs]) codepoint
    then {| subset_list := pre ++ [glyphs ++ [codepoint]] |}
    else {| subset_list := pre ++ [glyphs] |}.
Proof.
  intros Hroom. unfold get_glyph_subset, find_glyph, is_fresh. simpl.
  destruct (find_glyph_from codepoint (pre ++ [glyphs]) 0); [reflexivity|].
  rewrite last_snoc. unfold size_of, max_glyphs.
  destruct (Z.ltb_spec (Z.of_nat (length glyphs)) 256) as [_|Hge]; [|lia].
  unfold unchecked_insert_glyph_to_last_subset. simpl.
  now rewrite last_snoc, removelast_last.
Qed.

Lemma pad_loop_step (n : nat) (i subset_id : Z) (subsetter : FontSubsetter) :
  pad_loop (S n) i subset_id subsetter
  = (glyphs <~ get_subset subsetter subset_id ;;
     if size_of glyphs =? SPACE then Ok (Some subsetter)
     else pad_loop n (i + 1) subset_id (snd (get_glyph_subset (33 + i) subsetter))).
Proof. reflexivity. Qed.

(** The padding loop, in closed form. *)
Lemma pad_loop_spec (n : nat) :
  forall (i : Z) (pre : list (list Z)) (glyphs : list Z),
    (length glyphs <= 32)%nat ->
    pad_loop (S n) i (size_of pre) {| subset_list := pre ++ [glyphs] |}
    = (let fresh := List.filter (is_fresh (pre ++ [glyphs])) (candidates i n) in
       if (32 - length glyphs <=? length fresh)%nat
       then Ok (Some {| subset_list :=
                          pre ++ [glyphs ++ take (32 - length glyphs) fresh] |})
       else Ok None).
Proof.
  induction n as [|n IH]; intros i pre glyphs Hlen.
  - simpl. unfold get_subset. simpl. rewrite at_snoc. simpl.
    unfold size_of, SPACE.
    destruct (Z.eqb_spec (Z.of_nat (length glyphs)) 32) as [Heq|Hne].
    + replace (32 - length glyphs)%nat with 0%nat by lia. simpl. now rewrite app_nil_r.
    + destruct (Nat.leb_spec (32 - length glyphs) 0); [lia | reflexivity].
  - rewrite pad_loop_step. unfold get_subset at 1. cbn [subset_list]. rewrite at_snoc.
    cbn [rbind]. unfold size_of at 1, SPACE.
    destruct (Z.eqb_spec (Z.of_nat (length glyphs)) 32) as [Heq|Hne].
    + replace (32 - length glyphs)%nat with 0%nat by lia. simpl. now rewrite app_nil_r.
    + rewrite get_glyph_subset_room by lia.
      cbn [candidates List.filter].
      destruct (is_fresh (pre ++ [glyphs]) (33 + i)) eqn:Hfresh; cbv beta iota.
      * rewrite IH by (rewrite length_app; simpl; lia).
        cbv zeta. rewrite filter_fresh_after_insert.
        rewrite length_app. cbn [length].
        set (fresh := List.filter (is_fresh (pre ++ [glyphs])) (candidates (i + 1) n)).
        replace (32 - length glyphs)%nat with (S (32 - (length glyphs + 1)))%nat by lia.
        cbn [take]. rewrite <- app_assoc. cbn [app].
        destruct (Nat.leb_spec (32 - (length glyphs + 1)) (length fresh));
          destruct (Nat.leb_spec (S (32 - (length glyphs + 1))) (S (length fresh)));
          try lia; reflexivity.
      * now rewrite IH.
Qed.

(** [pad_subsetter], in closed form. *)
Lemma pad_subsetter_spec (pre : list (list Z)) (glyphs : list Z) :
  pad_subsetter {| subset_list := pre ++ [glyphs] |}
  = if (32 <? length glyphs)%nat then Ok {| subset_list := pre ++ [glyphs] |}
    else if (32 - length glyphs <=? length (fresh_candidates (pre ++ [glyphs])))%nat
         then Ok {| subset_list := pre ++ [glyphs ++ padding (pre ++ [glyphs]) glyphs ++ [32]] |}
         else Crash.
Proof.
  unfold pad_subsetter, cassert, num_subsets. cbn [subset_list].
  assert (Hsize : size_of (pre ++ [glyphs]) - 1 = size_of pre).
  { unfold size_of. rewrite length_app. simpl. lia. }
  assert (Hpos : (0 <? size_of (pre ++ [glyphs])) = true).
  { apply Z.ltb_lt. unfold size_of in *. lia. }
  rewrite Hpos, orb_true_r. cbn [rbind]. rewrite Hsize.
  unfold get_subset at 1. cbn [subset_list]. rewrite at_snoc. cbn [rbind].
  unfold SPACE at 1, size_of at 1.
  destruct (Nat.ltb_spec 32 (length glyphs)) as [Hbig|Hsmall].
  - destruct (Z.ltb_spec 32 (Z.of_nat (length glyphs))); [reflexivity | lia].
  - destruct (Z.ltb_spec 32 (Z.of_nat (length glyphs))); [lia|].
    unfold max_count. rewrite pad_loop_spec by assumption. cbv zeta.
    unfold padding, fresh_candidates.
    generalize (List.filter (is_fresh (pre ++ [glyphs])) (candidates 0 99)).
    intros fresh.
    destruct (Nat.leb_spec (32 - length glyphs) (length fresh)) as [Hok|Hshort];
      [|reflexivity].
    cbn [rbind]. unfold unchecked_insert_glyph_to_last_subset. cbn [subset_list snd].
    rewrite last_snoc, removelast_last. cbn [snd].
    unfold get_subset. cbn [subset_list]. rewrite at_snoc. cbn [rbind].
    assert (Hlen : (size_of ((glyphs ++ take (32 - length glyphs) fresh) ++ [32])
                    =? SPACE + 1) = true).
    { apply Z.eqb_eq. unfold size_of, SPACE.
      rewrite !length_app, length_take. cbn [length]. lia. }
    rewrite Hlen, orb_true_r. cbn [rbind]. now rewrite <- app_assoc.
Qed.

End Padding.

Lemma fresh_candidates_range (ss : list (list Z)) :
  Forall (fun cp => 33 <= cp < 132 /\ is_fresh ss cp = true) (fresh_candidates ss).
Proof.
  unfold fresh_candidates. apply List.Forall_forall. intros cp Hin.
  apply filter_In in Hin as [Hin Hfresh]. split; [|exact Hfresh].
  pose proof (candidates_lower 0 99) as Hlow.
  rewrite List.Forall_forall in Hlow. specialize (Hlow cp Hin). simpl in Hlow. lia.
Qed.

Lemma pad_subsetter_padded {E : Env} (fs : FontSubsetter) :
  can_pad fs -> exists fs', pad_subsetter fs = Ok fs' /\ padded_from fs fs'.
Proof.
  intros (pre & glyphs & Heq & Henough). destruct fs as [ss]. simpl in Heq, Henough.
  subst ss. rewrite pad_subsetter_spec.
  destruct (Nat.ltb_spec 32 (length glyphs)) as [Hbig|Hsmall].
  - eexists. split; [reflexivity|]. exists pre, glyphs. simpl.
    split; [reflexivity|]. split; [reflexivity | intros; lia].
  - specialize (Henough Hsmall).
    destruct (Nat.leb_spec (32 - length glyphs) (length (fresh_candidates (pre ++ [glyphs]))))
      as [_|Hshort]; [|lia].
    eexists. split; [reflexivity|]. exists pre, glyphs. simpl.
    split; [reflexivity|]. split; [intros; lia|]. intros _.
    assert (Hlen : length (glyphs ++ padding (pre ++ [glyphs]) glyphs) = 32%nat).
    { unfold padding. rewrite length_app, length_take. lia. }
    split; [reflexivity|]. split; [exact Hlen|]. split; [|split].
    + rewrite app_assoc, length_app, Hlen. reflexivity.
    + rewrite app_assoc, lookup_app_r by lia. rewrite Hlen. reflexivity.
    + unfold padding. apply Forall_take, fresh_candidates_range.
Qed.

Lemma pad_fonts_padded {E : Env} (l : list FontThingy) :
  Forall (fun sf => can_pad (subsets sf)) l ->
  exists padded,
    pad_fonts l = Ok padded
    /\ Forall2 (fun sf sf' => fontdata sf' = fontdata sf
                              /\ padded_from (subsets sf) (subsets sf')) l padded.
Proof.
  induction 1 as [|sf l Hsf _ IH]; simpl.
  - exists []. split; [reflexivity | constructor].
  - destruct (pad_subsetter_padded _ Hsf) as (fs' & Hpad & Hfrom).
    destruct IH as (padded & Hrest & Hall).
    unfold pad_font. rewrite Hpad. simpl. rewrite Hrest. simpl.
    eexists. split; [reflexivity|]. constructor; [|exact Hall]. simpl. auto.
Qed.

Lemma pad_subsetter_cannot_pad {E : Env} (fs : FontSubsetter) :
  ~ can_pad fs -> pad_subsetter fs = Crash.
Proof.
  intros Hno. destruct fs as [ss]. destruct ss as [|g ss' _] using rev_ind.
  - unfold pad_subsetter, cassert, num_subsets, get_subset, at_. simpl.
    destruct NDEBUG; reflexivity.
  - rewrite pad_subsetter_spec.
    destruct (Nat.ltb_spec 32 (length g)) as [Hbig|Hsmall].
    + exfalso. apply Hno. exists ss', g. simpl. split; [reflexivity | intros; lia].
    + destruct (Nat.leb_spec (32 - length g) (length (fresh_candidates (ss' ++ [g]))))
        as [Hok|Hshort]; [|reflexivity].
      exfalso. apply Hno. exists ss', g. simpl. split; [reflexivity | intros; exact Hok].
Qed.

(** [pad_subsetter] returns or aborts; it has no error return. *)
Lemma pad_subsetter_no_error {E : Env} (fs : FontSubsetter) (e : ErrorCode) :
  pad_subsetter fs <> Err e.
Proof.
  destruct fs as [ss]. destruct ss as [|g ss' _] using rev_ind.
  - unfold pad_subsetter, cassert, num_subsets, get_subset, at_. simpl.
    destruct NDEBUG; discriminate.
  - rewrite pad_subsetter_spec.
    destruct (32 <? length g)%nat; [discriminate|].
    destruct (_ <=? _)%nat; discriminate.
Qed.

Lemma pad_fonts_cannot_pad {E : Env} (l : list FontThingy) :
  Exists (fun sf => ~ can_pad (subsets sf)) l -> pad_fonts l = Crash.
Proof.
  induction l as [|sf l IH]; intros Hex.
  - inversion Hex.
  - simpl. unfold pad_font.
    destruct (pad_subsetter (subsets sf)) as [fs'|e|] eqn:Hpad; simpl.
    + apply Exists_cons in Hex as [Hhere|Hlater].
      * rewrite (pad_subsetter_cannot_pad _ Hhere) in Hpad. discriminate.
      * now rewrite (IH Hlater).
    + now apply pad_subsetter_no_error in Hpad.
    + reflexivity.
Qed.

(** C1, as the code has it (with [FontSubsetter] as the specification
    describes it). When every font has a last subset and, where that subset
    has at most 32 elements, enough codepoints among the 99 from ['!'] on
    are in no subset of the font, [pad_subset_fonts] returns, and it leaves
    every font padded: a last subset of more than 32 elements is as it was;
    one of at most 32 elements got the first unused codepoints from ['!'] on,
    in order, up to 32 elements, and then the space, so it has 33 elements
    with the space at index 32. When some font is not like that, the call
    ends in [std::abort]. *)
Theorem pad_subset_fonts_pads {E : Env} (d : PdfDocument) :
  (Forall (fun sf => can_pad (subsets sf)) (fonts d) ->
   exists padded,
     pad_subset_fonts d = (Ok tt, set_fonts d padded)
     /\ Forall2 (fun sf sf' => fontdata sf' = fontdata sf
                               /\ padded_from (subsets sf) (subsets sf')) (fonts d) padded)
  /\ (Exists (fun sf => ~ can_pad (subsets sf)) (fonts d) ->
      pad_subset_fonts d = (Crash, d)).
Proof.
  split.
  - intros Hall. destruct (pad_fonts_padded (fonts d) Hall) as (padded & Hpad & Hfrom).
    exists padded. split; [|exact Hfrom].
    unfold pad_subset_fonts, bind, get, lift, modify. now rewrite Hpad.
  - intros Hex. unfold pad_subset_fonts, bind, get, lift, modify.
    now rewrite (pad_fonts_cannot_pad _ Hex).
Qed.

Lemma pad_subset_fonts_pads_witness :
  exists padded,
    pad_subset_fonts (E:=debug_env) document_hi = (Ok tt, set_fonts document_hi padded)
    /\ Forall2 (fun sf sf' => fontdata sf' = fontdata sf
                              /\ padded_from (subsets sf) (subsets sf'))
         (fonts document_hi) padded.
Proof.
  apply (proj1 (pad_subset_fonts_pads (E:=debug_env) document_hi)).
  repeat constructor. exists [], [0; 72; 105]. split; [reflexivity|].
  intros _. apply Nat.leb_le. vm_compute. reflexivity.
Defined.

(** C1 as stated fails: the last subset of [crowded_subsetter] has one
    element, and padding it ends in [std::abort], because no candidate
    codepoint is new to the font. *)
Lemma pad_subset_fonts_aborts :
  map length (subset_list crowded_subsetter) = [256%nat; 1%nat]
  /\ last (subset_list crowded_subsetter) = Some [5000]
  /\ fresh_candidates (subset_list crowded_subsetter) = []
  /\ fst (pad_subset_fonts (E:=debug_env) crowded_document) = Crash.
Proof.
  split; [vm_compute; reflexivity|].
  split; [vm_compute; reflexivity|].
  split; [vm_compute; reflexivity|].
  vm_compute; reflexivity.
Qed.

(** ** The checks of add_pattern *)

(** [add_pattern] checks, in this order, that the context belongs to this
    document, that it is a tiling-pattern context and that it has no open
    marked content; a failed check returns its error and leaves the document
    as it was. When all pass, exactly one object, whose stream is the
    context's command stream, is appended, and its number is returned. *)
Theorem add_pattern_checks {E : Env} (this : Z) (ctx : PdfDrawContext) (d : PdfDocument) :
  (doc ctx <> this -> add_pattern this ctx d = (Err IncorrectDocumentForObject, d))
  /\ (doc ctx = this -> context_type ctx <> CAPY_DC_COLOR_TILING ->
      add_pattern this ctx d = (Err InvalidDrawContextType, d))
  /\ (doc ctx = this -> context_type ctx = CAPY_DC_COLOR_TILING -> marked_depth ctx <> 0 ->
      add_pattern this ctx d = (Err UnclosedMarkedContent, d))
  /\ (doc ctx = this -> context_type ctx = CAPY_DC_COLOR_TILING -> marked_depth ctx = 0 ->
      exists dictionary_text,
        add_pattern this ctx d
        = (Ok (to_int32 (size_of (document_objects d))),
           set_document_objects d
             (document_objects d
                ++ [Full {| dictionary := dictionary_text; stream := commands ctx |}]))).
Proof.
  unfold add_pattern. repeat split.
  - intros Hdoc. now rewrite bool_decide_eq_true_2.
  - intros Hdoc Hty. rewrite bool_decide_eq_false_2 by (intros Hc; now apply Hc).
    now rewrite bool_decide_eq_true_2.
  - intros Hdoc Hty Hdepth. rewrite bool_decide_eq_false_2 by (intros Hc; now apply Hc).
    rewrite bool_decide_eq_false_2 by (intros Hc; now apply Hc).
    now rewrite bool_decide_eq_true_2.
  - intros Hdoc Hty Hdepth. rewrite !bool_decide_eq_false_2 by (intros Hc; now apply Hc).
    eexists. reflexivity.
Qed.

Lemma add_pattern_checks_witness :
  add_pattern (E:=debug_env) 1 foreign_group_context one_page_document
  = (Err IncorrectDocumentForObject, one_page_document)
  /\ exists dictionary_text,
       add_pattern (E:=debug_env) 1 pattern_context one_page_document
       = (Ok (to_int32 (size_of (document_objects one_page_document))),
          set_document_objects one_page_document
            (document_objects one_page_document
               ++ [Full {| dictionary := dictionary_text; stream := commands pattern_context |}])).
Proof.
  destruct (add_pattern_checks (E:=debug_env) 1 foreign_group_context one_page_document)
    as (Hforeign & _).
  destruct (add_pattern_checks (E:=debug_env) 1 pattern_context one_page_document)
    as (_ & _ & _ & Hok).
  split; [apply Hforeign; discriminate | apply Hok; reflexivity].
Defined.

(** ** ICC profiles loaded twice *)

Lemma at_prefix {A : Type} (l extra : list A) (i : Z) (a : A) :
  at_ l i = Ok a -> at_ (l ++ extra) i = Ok a.
Proof.
  unfold at_. destruct (i <? 0); [discriminate|].
  destruct (l !! Z.to_nat i) eqn:Hl; [|discriminate].
  now rewrite (lookup_prefix _ extra _ _ Hl).
Qed.





(** ** Draw-state nesting *)

Lemma existsb_bool_decide_elem {A : Type} `{EqDecision A} (x : A) (l : list A) :
  existsb (fun s => bool_decide (s = x)) l = true <-> x ∈ l.
Proof.
  rewrite existsb_exists. split.
  - intros (y & Hy & Heq). apply bool_decide_eq_true in Heq. subst y.
    now apply list_elem_of_In.
  - intros Hin. exists x. split; [now apply list_elem_of_In|].
    now apply bool_decide_eq_true.
Qed.

(** ** Draw-state nesting: invariants *)

Lemma string_length_app (s1 s2 : string) :
  String.length (s1 ++ s2)%string = (String.length s1 + String.length s2)%nat.
Proof. induction s1 as [|ch s1 IH]; simpl; [reflexivity | now rewrite IH]. Qed.

Lemma pop_back_snoc (s : string) (ch : ascii) :
  pop_back (s ++ String ch EmptyString)%string = s.
Proof.
  induction s as [|a s IH]; [reflexivity|].
  simpl. destruct (s ++ String ch EmptyString)%string eqn:Heq.
  - destruct s; discriminate.
  - now rewrite IH.
Qed.

Lemma pop_back_length (s : string) : String.length (pop_back s) = pred (String.length s).
Proof.
  induction s as [|a s IH]; [reflexivity|].
  simpl. destruct s as [|b s]; [reflexivity|].
  change (String.length (String a (pop_back (String b s)))) with (S (String.length (pop_back (String b s)))).
  rewrite IH. reflexivity.
Qed.

Lemma pop_back_two_spaces (s : string) : pop_back (pop_back (s ++ "  ")%string) = s.
Proof.
  assert (Hsplit : (s ++ "  ")%string = ((s ++ " ") ++ " ")%string).
  { induction s as [|a s IH]; [reflexivity|].
    change (String a (s ++ "  ")%string = String a ((s ++ " ") ++ " ")%string).
    now rewrite IH. }
  rewrite Hsplit. now rewrite !pop_back_snoc.
Qed.

Lemma set_nesting_same (ctx : PdfDrawContext) :
  set_nesting ctx (dstate_stack ctx) (ind ctx) = ctx.
Proof. now destruct ctx. Qed.

(** A successful [indent] is undone by the [dedent] of the same kind. *)
Lemma dedent_after_indent (dtype : DrawStateType) (ctx ctx' : PdfDrawContext) :
  indent dtype ctx = (Ok tt, ctx') -> dedent dtype ctx' = (Ok tt, ctx).
Proof.
  unfold indent. destruct (_ && _); [discriminate|]. intros H. inversion H. subst ctx'.
  unfold dedent, set_nesting. cbn [dstate_stack ind doc context_type commands bbox marked_depth].
  rewrite last_snoc. rewrite bool_decide_eq_false_2 by (intros Hne; now apply Hne).
  rewrite string_length_app. cbn [String.length].
  destruct (Nat.ltb_spec (String.length (ind ctx) + 2) 2) as [Hlt|_]; [lia|].
  rewrite removelast_last, pop_back_two_spaces. now destruct ctx.
Qed.

Lemma nesting_calls_app (l1 l2 : list NestingCall) (ctx : PdfDrawContext) :
  nesting_calls (l1 ++ l2) ctx
  = match nesting_calls l1 ctx with
    | (Ok _, ctx') => nesting_calls l2 ctx'
    | failure => failure
    end.
Proof.
  revert ctx. induction l1 as [|call l1 IH]; intros ctx; [reflexivity|].
  simpl. destruct (nesting_call call ctx) as [[[]| |] ctx']; auto.
Qed.

(** States opened one after the other are closed, without an error, by
    the closing calls in the opposite order, and the context is then the one
    before the first was opened. *)
Theorem indent_dedent_round_trip (kinds : list DrawStateType) (ctx ctx' : PdfDrawContext) :
  nesting_calls (map Indent kinds) ctx = (Ok tt, ctx') ->
  nesting_calls (map Dedent (rev kinds)) ctx' = (Ok tt, ctx).
Proof.
  revert ctx ctx'. induction kinds as [|k kinds IH]; intros ctx ctx' H.
  - simpl in *. now inversion H.
  - simpl in H. destruct (indent k ctx) as [[[]| |] ctx1] eqn:Hk; try discriminate.
    simpl. rewrite map_app, nesting_calls_app. rewrite (IH _ _ H). simpl.
    now rewrite (dedent_after_indent _ _ _ Hk).
Qed.

Lemma indent_dedent_round_trip_witness :
  nesting_calls (map Dedent (rev [SaveState; MarkedContent; Text]))
    (after_nesting_calls (map Indent [SaveState; MarkedContent; Text]) fresh_context)
  = (Ok tt, fresh_context).
Proof.
  apply (indent_dedent_round_trip [SaveState; MarkedContent; Text] fresh_context).
  reflexivity.
Defined.

Lemma count_occ_snoc (l : list DrawStateType) (a b : DrawStateType) :
  count_occ DrawStateType_eq_dec (l ++ [a]) b
  = (count_occ DrawStateType_eq_dec l b + if bool_decide (a = b) then 1 else 0)%nat.
Proof.
  rewrite count_occ_app. simpl. destruct (DrawStateType_eq_dec a b) as [Heq|Hne].
  - now rewrite bool_decide_eq_true_2.
  - now rewrite bool_decide_eq_false_2.
Qed.

Lemma well_nested_indent (dtype : DrawStateType) (ctx : PdfDrawContext) :
  well_nested ctx -> well_nested (snd (indent dtype ctx)).
Proof.
  intros [Hind Hcount]. unfold indent.
  destruct (bool_decide (dtype = MarkedContent) && _) eqn:Hcheck; [split; assumption|].
  unfold well_nested. cbn [snd set_nesting ind dstate_stack].
  rewrite string_length_app, length_app, count_occ_snoc. cbn [String.length length].
  split; [lia|].
  destruct (bool_decide_reflect (dtype = MarkedContent)) as [->|Hne]; [|lia].
  simpl in Hcheck.
  assert (Hnot : MarkedContent ∉ dstate_stack ctx).
  { intros Hin. apply existsb_bool_decide_elem in Hin. congruence. }
  rewrite (proj1 (count_occ_not_In DrawStateType_eq_dec _ _)); [lia|].
  intros Hin. apply Hnot. now apply list_elem_of_In.
Qed.

Lemma well_nested_dedent (dtype : DrawStateType) (ctx : PdfDrawContext) :
  well_nested ctx ->
  well_nested (snd (dedent dtype ctx)) /\ fst (dedent dtype ctx) <> Crash.
Proof.
  intros [Hind Hcount]. unfold dedent.
  destruct (last (dstate_stack ctx)) as [top|] eqn:Hlast; [|split; [split; assumption | discriminate]].
  destruct (bool_decide (top ≠ dtype)); [split; [split; assumption | discriminate]|].
  apply last_Some in Hlast as [stack Hstack].
  rewrite Hstack in *. rewrite length_app in Hind. cbn [length] in Hind.
  destruct (Nat.ltb_spec (String.length (ind ctx)) 2) as [Hlt|Hge]; [lia|].
  split; [|discriminate].
  unfold well_nested. cbn [snd set_nesting ind dstate_stack].
  rewrite removelast_last, !pop_back_length.
  rewrite count_occ_snoc in Hcount. split; lia.
Qed.

Lemma well_nested_call (call : NestingCall) (ctx : PdfDrawContext) :
  well_nested ctx ->
  well_nested (snd (nesting_call call ctx)) /\ fst (nesting_call call ctx) <> Crash.
Proof.
  intros Hw. destruct call as [dtype|dtype]; simpl.
  - split; [now apply well_nested_indent|].
    unfold indent. destruct (_ && _); discriminate.
  - now apply well_nested_dedent.
Qed.

(** On a context whose indentation has two characters per open state
    and at most one marked-content block open, every sequence of [indent]
    and [dedent] calls keeps it so; no call of such a sequence takes the
    [std::abort] branch of [dedent]; a call that fails returns [NestedBMC] or
    [DrawStateEndMismatch] and leaves the context as it was. *)
Theorem nesting_stays_well_nested (ctx : PdfDrawContext) (calls : list NestingCall) :
  well_nested ctx ->
  well_nested (after_nesting_calls calls ctx)
  /\ (forall call : NestingCall,
        fst (nesting_call call (after_nesting_calls calls ctx)) <> Crash
        /\ (forall e : ErrorCode,
              fst (nesting_call call (after_nesting_calls calls ctx)) = Err e ->
              (e = NestedBMC \/ e = DrawStateEndMismatch)
              /\ snd (nesting_call call (after_nesting_calls calls ctx))
                 = after_nesting_calls calls ctx)).
Proof.
  revert ctx. induction calls as [|c calls IH]; intros ctx Hw.
  - simpl. split; [exact Hw|]. intros call.
    split; [now apply well_nested_call|].
    intros e. destruct call as [dtype|dtype]; simpl.
    + unfold indent. destruct (_ && _); simpl; intros H; inversion H; auto.
    + unfold dedent. destruct (last _); [|simpl; intros H; inversion H; auto].
      destruct (bool_decide _); [simpl; intros H; inversion H; auto|].
      destruct (_ <? _)%nat; simpl; intros H; inversion H.
  - simpl. apply IH. now apply well_nested_call.
Qed.

Lemma nesting_stays_well_nested_witness :
  well_nested (after_nesting_calls [Indent SaveState; Indent MarkedContent; Dedent SaveState]
                 fresh_context)
  /\ (forall call : NestingCall,
        fst (nesting_call call
               (after_nesting_calls [Indent SaveState; Indent MarkedContent; Dedent SaveState]
                  fresh_context)) <> Crash
        /\ (forall e : ErrorCode,
              fst (nesting_call call
                     (after_nesting_calls
                        [Indent SaveState; Indent MarkedContent; Dedent SaveState]
                        fresh_context)) = Err e ->
              (e = NestedBMC \/ e = DrawStateEndMismatch)
              /\ snd (nesting_call call
                        (after_nesting_calls
                           [Indent SaveState; Indent MarkedContent; Dedent SaveState]
                           fresh_context))
                 = after_nesting_calls
                     [Indent SaveState; Indent MarkedContent; Dedent SaveState]
                     fresh_context)).
Proof.
  apply (nesting_stays_well_nested fresh_context
           [Indent SaveState; Indent MarkedContent; Dedent SaveState]).
  split; [reflexivity | simpl; lia].
Defined.

(** ** The hash of a font subset *)

(** With a 64-bit [size_t], two different font subsets whose font id and
    subset index are non-negative [int32_t] values have different hashes;
    with a 32-bit [size_t] the same holds for values below 2^16. *)
Theorem hash_FontSubset_injective (a b : FontSubset) :
  (0 <= fid a < 2 ^ 31 -> 0 <= subset_id a < 2 ^ 31 ->
   0 <= fid b < 2 ^ 31 -> 0 <= subset_id b < 2 ^ 31 ->
   a <> b -> hash_FontSubset 8 a <> hash_FontSubset 8 b)
  /\ (0 <= fid a < 2 ^ 16 -> 0 <= subset_id a < 2 ^ 16 ->
      0 <= fid b < 2 ^ 16 -> 0 <= subset_id b < 2 ^ 16 ->
      a <> b -> hash_FontSubset 4 a <> hash_FontSubset 4 b).
Proof.
  destruct a as [fa sa], b as [fb sb]. unfold hash_FontSubset. cbn [fid subset_id].
  change (8 =? 8) with true. change (4 =? 8) with false. cbv iota.
  change (2 ^ (8 * 8)) with 18446744073709551616.
  change (2 ^ (8 * 4)) with 4294967296.
  change (2 ^ 31) with 2147483648. change (2 ^ 16) with 65536.
  rewrite !Z.shiftl_mul_pow2 by lia.
  change (2 ^ 32) with 4294967296. change (2 ^ 16) with 65536.
  split; intros Hfa Hsa Hfb Hsb Hne Heq; apply Hne.
  - rewrite !(Z.mod_small fa), !(Z.mod_small sa), !(Z.mod_small fb), !(Z.mod_small sb) in Heq
      by lia.
    rewrite !(Z.mod_small (_ * _)) in Heq by lia.
    rewrite !Z.mod_small in Heq by lia.
    f_equal; lia.
  - rewrite !(Z.mod_small fa), !(Z.mod_small sa), !(Z.mod_small fb), !(Z.mod_small sb) in Heq
      by lia.
    rewrite !(Z.mod_small (_ * _)) in Heq by lia.
    rewrite !Z.mod_small in Heq by lia.
    f_equal; lia.
Qed.

Lemma hash_FontSubset_injective_witness :
  hash_FontSubset 8 {| fid := 0; subset_id := 1 |}
  <> hash_FontSubset 8 {| fid := 1; subset_id := 0 |}.
Proof.
  apply (proj1 (hash_FontSubset_injective {| fid := 0; subset_id := 1 |}
                  {| fid := 1; subset_id := 0 |})); simpl; try lia.
  discriminate.
Defined.

(** ** Padding a glyph vector *)

Lemma candidates_NoDup (i : Z) (n : nat) : List.NoDup (candidates i n).
Proof.
  revert i. induction n as [|n IH]; intros i; simpl; constructor; [|apply IH].
  intros Hin. pose proof (candidates_lower (i + 1) n) as Hlow.
  rewrite List.Forall_forall in Hlow. specialize (Hlow _ Hin). simpl in Hlow. lia.
Qed.

Lemma candidates_length (i : Z) (n : nat) : length (candidates i n) = n.
Proof. revert i. induction n as [|n IH]; intros i; simpl; [reflexivity | now rewrite IH]. Qed.

Lemma existsb_glfind (cp : Z) (glyphs : list TTGlyphs) :
  existsb (glfind cp) glyphs = true <-> RegularGlyph cp ∈ glyphs.
Proof.
  rewrite existsb_exists. split.
  - intros (g & Hin & Hg). destruct g as [u|o]; simpl in Hg; [|discriminate].
    apply bool_decide_eq_true in Hg. subst u. now apply list_elem_of_In.
  - intros Hin. exists (RegularGlyph cp). split; [now apply list_elem_of_In|].
    simpl. now apply bool_decide_eq_true.
Qed.

(** The codepoints that the vector already holds are at most as many as its
    elements. *)
Lemma held_codepoints_length (glyphs : list TTGlyphs) (l : list Z) :
  List.NoDup l ->
  (length (List.filter (fun cp => existsb (glfind cp) glyphs) l) <= length glyphs)%nat.
Proof.
  intros Hnd.
  rewrite <- (length_map RegularGlyph).
  apply NoDup_incl_length.
  - assert (Hmap : forall l', List.NoDup l' -> List.NoDup (map RegularGlyph l')).
    { induction 1 as [|cp l' Hcp _ IH]; simpl; constructor; [|exact IH].
      intros Hin. apply in_map_iff in Hin as (cp' & Heq & Hin). inversion Heq. now subst. }
    now apply Hmap, List.NoDup_filter.
  - intros g Hin. apply in_map_iff in Hin as (cp & <- & Hcp).
    apply filter_In in Hcp as [_ Hheld].
    apply list_elem_of_In. now apply existsb_glfind.
Qed.

Lemma filter_split_length {A : Type} (f : A -> bool) (l : list A) :
  (length (List.filter f l) + length (List.filter (fun a => negb (f a)) l) = length l)%nat.
Proof.
  induction l as [|a l IH]; [reflexivity|]. simpl. destruct (f a); simpl; lia.
Qed.

(** Of [n] candidates, at most as many as the vector has elements are held. *)
Lemma free_codepoints_from_length (i : Z) (n : nat) (glyphs : list TTGlyphs) :
  (n - length glyphs <= length (free_codepoints_from i n glyphs))%nat.
Proof.
  unfold free_codepoints_from.
  pose proof (filter_split_length (fun cp => existsb (glfind cp) glyphs) (candidates i n)) as Hs.
  pose proof (held_codepoints_length glyphs (candidates i n) (candidates_NoDup i n)) as Hh.
  rewrite candidates_length in Hs. lia.
Qed.

Lemma free_after_push (glyphs : list TTGlyphs) (i : Z) (n : nat) :
  free_codepoints_from (i + 1) n (glyphs ++ [RegularGlyph (33 + i)])
  = free_codepoints_from (i + 1) n glyphs.
Proof.
  unfold free_codepoints_from.
  pose proof (candidates_lower (i + 1) n) as Hlow.
  induction (candidates (i + 1) n) as [|cp l IH]; [reflexivity|].
  apply Forall_cons in Hlow as [Hcp Hl]. simpl.
  rewrite existsb_app. simpl. rewrite (bool_decide_eq_false_2 (33 + i = cp)) by lia.
  rewrite !orb_false_r. now rewrite (IH Hl).
Qed.

Lemma free_codepoints_from_step (i : Z) (n : nat) (glyphs : list TTGlyphs) :
  free_codepoints_from i (S n) glyphs
  = if existsb (glfind (33 + i)) glyphs then free_codepoints_from (i + 1) n glyphs
    else (33 + i) :: free_codepoints_from (i + 1) n glyphs.
Proof.
  unfold free_codepoints_from. cbn [candidates List.filter].
  now destruct (existsb (glfind (33 + i)) glyphs).
Qed.

Lemma pad_until_space_loop_step (n : nat) (i : Z) (glyphs : list TTGlyphs) :
  pad_until_space_loop (S n) i glyphs
  = if size_of glyphs =? SPACE then Some glyphs
    else if existsb (glfind (33 + i)) glyphs then pad_until_space_loop n (i + 1) glyphs
         else pad_until_space_loop n (i + 1) (glyphs ++ [RegularGlyph (33 + i)]).
Proof. reflexivity. Qed.

(** The loop of [pad_subset_until_space], in closed form. *)
Lemma pad_until_space_loop_spec (n : nat) :
  forall (i : Z) (glyphs : list TTGlyphs),
    (length glyphs <= 32)%nat ->
    pad_until_space_loop (S n) i glyphs
    = if (32 - length glyphs <=? length (free_codepoints_from i n glyphs))%nat
      then Some (glyphs ++ map RegularGlyph
                             (take (32 - length glyphs) (free_codepoints_from i n glyphs)))
      else None.
Proof.
  induction n as [|n IH]; intros i glyphs Hlen.
  - rewrite pad_until_space_loop_step. unfold size_of, SPACE. simpl.
    destruct (Z.eqb_spec (Z.of_nat (length glyphs)) 32) as [Heq|Hne].
    + replace (32 - length glyphs)%nat with 0%nat by lia. simpl. now rewrite app_nil_r.
    + destruct (Nat.leb_spec (32 - length glyphs) 0); [lia|].
      now destruct (existsb _ _).
  - rewrite pad_until_space_loop_step. unfold size_of at 1, SPACE.
    destruct (Z.eqb_spec (Z.of_nat (length glyphs)) 32) as [Heq|Hne].
    + replace (32 - length glyphs)%nat with 0%nat by lia. simpl. now rewrite app_nil_r.
    + rewrite free_codepoints_from_step.
      destruct (existsb (glfind (33 + i)) glyphs) eqn:Hheld.
      * now rewrite IH.
      * rewrite IH by (rewrite length_app; simpl; lia).
        rewrite free_after_push. rewrite length_app. cbn [length].
        set (fresh := free_codepoints_from (i + 1) n glyphs).
        replace (32 - length glyphs)%nat with (S (32 - (length glyphs + 1)))%nat by lia.
        cbn [take map]. rewrite <- app_assoc. cbn [app].
        destruct (Nat.leb_spec (32 - (length glyphs + 1)) (length fresh));
          destruct (Nat.leb_spec (S (32 - (length glyphs + 1))) (S (length fresh)));
          try lia; reflexivity.
Qed.

(** [pad_subset_until_space], in closed form. *)
Lemma pad_subset_until_space_spec {E : Env} (glyphs : list TTGlyphs) :
  pad_subset_until_space glyphs
  = if (32 <? length glyphs)%nat then Ok glyphs
    else Ok (glyphs ++ map RegularGlyph (glyph_padding glyphs) ++ [RegularGlyph 32]).
Proof.
  unfold pad_subset_until_space. unfold SPACE at 1, size_of at 1.
  destruct (Nat.ltb_spec 32 (length glyphs)) as [Hbig|Hsmall].
  - destruct (Z.ltb_spec 32 (Z.of_nat (length glyphs))); [reflexivity | lia].
  - destruct (Z.ltb_spec 32 (Z.of_nat (length glyphs))); [lia|].
    unfold max_count. rewrite pad_until_space_loop_spec by assumption.
    pose proof (free_codepoints_from_length 0 99 glyphs) as Henough.
    unfold glyph_padding.
    destruct (Nat.leb_spec (32 - length glyphs) (length (free_codepoints_from 0 99 glyphs)))
      as [_|Hshort]; [|lia].
    unfold cassert.
    assert (Hlen : (size_of ((glyphs ++ map RegularGlyph
                                          (take (32 - length glyphs)
                                             (free_codepoints_from 0 99 glyphs)))
                               ++ [RegularGlyph SPACE]) =? SPACE + 1) = true).
    { apply Z.eqb_eq. unfold size_of, SPACE.
      rewrite !length_app, length_map, length_take. cbn [length]. lia. }
    rewrite Hlen, orb_true_r. cbn [rbind]. unfold SPACE. now rewrite <- app_assoc.
Qed.

Lemma free_codepoints_from_range (i : Z) (n : nat) (glyphs : list TTGlyphs) :
  Forall (fun cp => 33 + i <= cp < 33 + i + Z.of_nat n /\ RegularGlyph cp ∉ glyphs)
    (free_codepoints_from i n glyphs).
Proof.
  unfold free_codepoints_from. apply List.Forall_forall. intros cp Hin.
  apply filter_In in Hin as [Hin Hfree]. split.
  - pose proof (candidates_lower i n) as Hlow.
    rewrite List.Forall_forall in Hlow. exact (Hlow cp Hin).
  - intros Hheld. apply existsb_glfind in Hheld. rewrite Hheld in Hfree. discriminate.
Qed.

Lemma glyph_padding_range (glyphs : list TTGlyphs) :
  Forall (fun cp => 33 <= cp < 132 /\ RegularGlyph cp ∉ glyphs) (glyph_padding glyphs).
Proof.
  unfold glyph_padding. apply Forall_take.
  eapply Forall_impl; [apply free_codepoints_from_range|].
  intros cp [Hcp Hfree]. split; [lia | exact Hfree].
Qed.

Lemma glyph_padding_NoDup (glyphs : list TTGlyphs) : NoDup (glyph_padding glyphs).
Proof.
  unfold glyph_padding.
  eapply sublist_NoDup; [|apply sublist_take].
  apply NoDup_ListNoDup. unfold free_codepoints_from.
  apply List.NoDup_filter, candidates_NoDup.
Qed.

Lemma glyph_padding_length (glyphs : list TTGlyphs) :
  (length glyphs <= 32)%nat -> length (glyph_padding glyphs) = (32 - length glyphs)%nat.
Proof.
  intros Hsmall. pose proof (free_codepoints_from_length 0 99 glyphs).
  unfold glyph_padding. rewrite length_take. lia.
Qed.

(** [pad_subset_until_space] always returns: the [std::abort] branch is
    never taken. A vector of more than 32 glyphs is returned as it is. A
    vector of at most 32 glyphs gets, as regular glyphs, the first codepoints
    from ['!'] on that it does not hold yet, in increasing order, up to 32
    elements, and then the space: 33 elements with the space at index 32.
    Padding a padded vector changes nothing. *)
Theorem pad_subset_until_space_pads {E : Env} (subset_glyphs : list TTGlyphs) :
  exists padded : list TTGlyphs,
    pad_subset_until_space subset_glyphs = Ok padded
    /\ ((32 < length subset_glyphs)%nat -> padded = subset_glyphs)
    /\ ((length subset_glyphs <= 32)%nat ->
        padded = subset_glyphs ++ map RegularGlyph (glyph_padding subset_glyphs)
                   ++ [RegularGlyph 32]
        /\ length padded = 33%nat
        /\ padded !! 32%nat = Some (RegularGlyph 32)
        /\ Forall (fun cp => 33 <= cp < 132 /\ RegularGlyph cp ∉ subset_glyphs)
             (glyph_padding subset_glyphs)
        /\ NoDup (glyph_padding subset_glyphs))
    /\ pad_subset_until_space padded = Ok padded.
Proof.
  rewrite pad_subset_until_space_spec.
  destruct (Nat.ltb_spec 32 (length subset_glyphs)) as [Hbig|Hsmall].
  - exists subset_glyphs. split; [reflexivity|]. split; [reflexivity|].
    split; [intros; lia|]. rewrite pad_subset_until_space_spec.
    destruct (Nat.ltb_spec 32 (length subset_glyphs)); [reflexivity | lia].
  - eexists. split; [reflexivity|]. split; [intros; lia|].
    assert (Hlen : length (subset_glyphs ++ map RegularGlyph (glyph_padding subset_glyphs))
                   = 32%nat).
    { rewrite length_app, length_map, glyph_padding_length by assumption. lia. }
    assert (Hlen' : length (subset_glyphs ++ map RegularGlyph (glyph_padding subset_glyphs)
                              ++ [RegularGlyph 32]) = 33%nat).
    { rewrite app_assoc, length_app, Hlen. reflexivity. }
    split.
    + intros _. split; [reflexivity|]. split; [exact Hlen'|]. split; [|split].
      * rewrite app_assoc, lookup_app_r by lia. rewrite Hlen. reflexivity.
      * apply glyph_padding_range.
      * apply glyph_padding_NoDup.
    + rewrite pad_subset_until_space_spec.
      destruct (Nat.ltb_spec 32 (length (subset_glyphs
                                           ++ map RegularGlyph (glyph_padding subset_glyphs)
                                           ++ [RegularGlyph 32])));
        [reflexivity | lia].
Qed.

(** ** Mesh shadings: what is serialised, and how long it is *)

Section Mesh.
Context {E : Env}.

Lemma be_bytes_length (n : nat) (z : Z) : String.length (be_bytes n z) = n.
Proof.
  induction n as [|n IH]; [reflexivity|].
  cbn [be_bytes]. rewrite string_length_app, IH. reflexivity.
Qed.

Lemma append_floatvalue_ok (n : nat) (buf : string) (val : float) :
  append_floatvalue n buf val
  = if in_unit_range val
    then Ok (buf ++ be_bytes n
                      (float_to_unsigned
                         (PrimFloat.mul (PrimFloat.of_uint63 (Uint63.of_Z (unsigned_max n))) val)
                       mod 2 ^ (8 * Z.of_nat n)))%string
    else Err ColorOutOfRange.
Proof.
  unfold append_floatvalue, in_unit_range. now destruct (_ || _).
Qed.

Lemma append_floatvalue_length (n : nat) (buf buf' : string) (val : float) :
  append_floatvalue n buf val = Ok buf' ->
  String.length buf' = (String.length buf + n)%nat.
Proof.
  rewrite append_floatvalue_ok. destruct (in_unit_range val); [|discriminate].
  intros H. inversion H. now rewrite string_length_app, be_bytes_length.
Qed.

Lemma append_floatvalue_some (n : nat) (buf : string) (val : float) :
  (exists buf', append_floatvalue n buf val = Ok buf') <-> in_unit_range val = true.
Proof.
  rewrite append_floatvalue_ok. destruct (in_unit_range val); split; eauto.
  - intros [? H]. discriminate.
  - discriminate.
Qed.

(** A loop whose body adds [k] characters adds [k] per element. *)
Lemma for_each_length {A : Type} (body : string -> A -> rvoe string) (k : nat) (l : list A) :
  (forall s a s', body s a = Ok s' -> String.length s' = (String.length s + k)%nat) ->
  forall s s', for_each body s l = Ok s' ->
               String.length s' = (String.length s + k * length l)%nat.
Proof.
  intros Hbody. induction l as [|a l IH]; intros s s' H; simpl in H.
  - inversion H. simpl. lia.
  - destruct (body s a) as [s1| |] eqn:Ha; try discriminate. simpl in H.
    rewrite (IH _ _ H), (Hbody _ _ _ Ha). simpl. lia.
Qed.

(** A loop whose body succeeds on exactly the elements that satisfy [ok]
    succeeds on exactly the lists of such elements. *)
Lemma for_each_some {A S : Type} (body : S -> A -> rvoe S) (ok : A -> bool) (l : list A) :
  (forall s a, (exists s', body s a = Ok s') <-> ok a = true) ->
  forall s, (exists s', for_each body s l = Ok s') <-> forallb ok l = true.
Proof.
  intros Hbody. induction l as [|a l IH]; intros s; simpl.
  - split; eauto.
  - rewrite andb_true_iff, <- (Hbody s a). split.
    + intros [s' H]. destruct (body s a) as [s1| |] eqn:Ha; try discriminate.
      split; [eauto|]. apply (IH s1). eauto.
    + intros [[s1 Ha] Hl]. rewrite Ha. simpl. now apply IH.
Qed.

Lemma shade4_color_length (k : CapyPDF_Colorspace) (s : string) (col : Color) (s' : string) :
  shade4_color k s col = Ok s' ->
  String.length s' = (String.length s + 2 * Z.to_nat (num_channels_for k))%nat.
Proof.
  destruct col as [r g b|gray|cc m y kk| | | |]; simpl; try discriminate.
  - destruct (bool_decide_reflect (k ≠ CAPY_CS_DEVICE_RGB)) as [|Hk]; [discriminate|].
    assert (k = CAPY_CS_DEVICE_RGB) as -> by (destruct k; try reflexivity; exfalso; apply Hk; discriminate).
    destruct (append_floatvalue 2 s (v r)) as [s1| |] eqn:H1; try discriminate. simpl.
    destruct (append_floatvalue 2 s1 (v g)) as [s2| |] eqn:H2; try discriminate. simpl.
    intros H3. apply append_floatvalue_length in H1, H2, H3. simpl. lia.
  - destruct (bool_decide_reflect (k ≠ CAPY_CS_DEVICE_GRAY)) as [|Hk]; [discriminate|].
    assert (k = CAPY_CS_DEVICE_GRAY) as -> by (destruct k; try reflexivity; exfalso; apply Hk; discriminate).
    intros H1. apply append_floatvalue_length in H1. simpl. lia.
  - destruct (bool_decide_reflect (k ≠ CAPY_CS_DEVICE_CMYK)) as [|Hk]; [discriminate|].
    assert (k = CAPY_CS_DEVICE_CMYK) as -> by (destruct k; try reflexivity; exfalso; apply Hk; discriminate).
    destruct (append_floatvalue 2 s (v cc)) as [s1| |] eqn:H1; try discriminate. simpl.
    destruct (append_floatvalue 2 s1 (v m)) as [s2| |] eqn:H2; try discriminate. simpl.
    destruct (append_floatvalue 2 s2 (v y)) as [s3| |] eqn:H3; try discriminate. simpl.
    intros H4. apply append_floatvalue_length in H1, H2, H3, H4. simpl. lia.
Qed.

Lemma shade4_color_some (k : CapyPDF_Colorspace) (s : string) (col : Color) :
  (exists s', shade4_color k s col = Ok s')
  <-> color_in_colorspace k col && color_in_range col = true.
Proof.
  destruct col as [r g b|gray|cc m y kk| | | |], k; simpl;
    try (split; [intros [? H]; discriminate | discriminate]);
    rewrite ?append_floatvalue_ok;
    repeat match goal with
           | |- context [in_unit_range ?a] => destruct (in_unit_range a); simpl;
                                              rewrite ?append_floatvalue_ok
           end;
    split; eauto; try discriminate; intros [? H]; discriminate.
Qed.

Lemma shade4_element_length (shade : ShadingType4) (s : string) (e : ShadingElement)
    (s' : string) :
  shade4_element shade s e = Ok s' ->
  String.length s'
  = (String.length s + (9 + 2 * Z.to_nat (num_channels_for (Shade.colorspace shade))))%nat.
Proof.
  unfold shade4_element. destruct (cassert _); try discriminate. simpl.
  destruct (append_floatvalue 4 _ _) as [s1| |] eqn:H1; try discriminate. simpl.
  destruct (append_floatvalue 4 s1 _) as [s2| |] eqn:H2; try discriminate. simpl.
  intros H3. apply append_floatvalue_length in H1, H2. apply shade4_color_length in H3.
  rewrite string_length_app in H1. simpl in H1. lia.
Qed.

Lemma shade4_element_some (shade : ShadingType4) (s : string) (e : ShadingElement) :
  (exists s', shade4_element shade s e = Ok s') <-> vertex_ok shade e = true.
Proof.
  unfold shade4_element, vertex_ok, vertex_in_range, cassert.
  destruct (NDEBUG || _); simpl; [|split; [intros [? H]; discriminate | discriminate]].
  rewrite append_floatvalue_ok.
  destruct (in_unit_range (ratio (x _) _ _)); simpl;
    [|split; [intros [? H]; discriminate | discriminate]].
  rewrite append_floatvalue_ok.
  destruct (in_unit_range (ratio (y _) _ _)); simpl;
    [|split; [intros [? H]; discriminate | discriminate]].
  apply shade4_color_some.
Qed.

Lemma shade6_point_length (shade : ShadingType6) (s : string) (pt : Point) (s' : string) :
  shade6_point shade s pt = Ok s' -> String.length s' = (String.length s + 8)%nat.
Proof.
  unfold shade6_point.
  destruct (append_floatvalue 4 s _) as [s1| |] eqn:H1; try discriminate. simpl.
  intros H2. apply append_floatvalue_length in H1, H2. lia.
Qed.

Lemma shade6_point_some (shade : ShadingType6) (s : string) (pt : Point) :
  (exists s', shade6_point shade s pt = Ok s') <-> point_in_range shade pt = true.
Proof.
  unfold shade6_point, point_in_range. rewrite append_floatvalue_ok.
  destruct (in_unit_range (ratio (x pt) _ _)); simpl;
    [|split; [intros [? H]; discriminate | discriminate]].
  apply append_floatvalue_some.
Qed.

Lemma shade6_color_length (k : CapyPDF_Colorspace) (s : string) (col : Color) (s' : string) :
  shade6_color k s col = Ok s' ->
  String.length s' = (String.length s + 2 * Z.to_nat (num_channels_for k))%nat.
Proof.
  destruct k, col as [r g b|gray|cc m y kk| | | |]; simpl; try discriminate.
  - destruct (append_floatvalue 2 s (v r)) as [s1| |] eqn:H1; try discriminate. simpl.
    destruct (append_floatvalue 2 s1 (v g)) as [s2| |] eqn:H2; try discriminate. simpl.
    intros H3. apply append_floatvalue_length in H1, H2, H3. lia.
  - intros H1. apply append_floatvalue_length in H1. lia.
  - destruct (append_floatvalue 2 s (v cc)) as [s1| |] eqn:H1; try discriminate. simpl.
    destruct (append_floatvalue 2 s1 (v m)) as [s2| |] eqn:H2; try discriminate. simpl.
    destruct (append_floatvalue 2 s2 (v y)) as [s3| |] eqn:H3; try discriminate. simpl.
    intros H4. apply append_floatvalue_length in H1, H2, H3, H4. lia.
Qed.

Lemma shade6_color_some (k : CapyPDF_Colorspace) (s : string) (col : Color) :
  (exists s', shade6_color k s col = Ok s')
  <-> color_in_colorspace k col && color_in_range col = true.
Proof.
  destruct col as [r g b|gray|cc m y kk| | | |], k; simpl;
    try (split; [intros [? H]; discriminate | discriminate]);
    rewrite ?append_floatvalue_ok;
    repeat match goal with
           | |- context [in_unit_range ?a] => destruct (in_unit_range a); simpl;
                                              rewrite ?append_floatvalue_ok
           end;
    split; eauto; try discriminate; intros [? H]; discriminate.
Qed.

Lemma shade6_element_length (shade : ShadingType6) (s : string) (eh : CoonsPatches)
    (s' : string) :
  full_patch eh ->
  shade6_element shade s eh = Ok s' ->
  String.length s'
  = (String.length s + (97 + 8 * Z.to_nat (num_channels_for (Shade.colorspace shade))))%nat.
Proof.
  destruct eh as [ps cs|? ? ?]; [|contradiction]. intros [Hps Hcs].
  unfold shade6_element. destruct (cassert _); try discriminate. simpl.
  destruct (for_each (shade6_point shade) _ ps) as [s1| |] eqn:H1; try discriminate. simpl.
  intros H2.
  apply (for_each_length _ 8 _ (shade6_point_length shade)) in H1.
  apply (for_each_length _ _ _ (shade6_color_length (Shade.colorspace shade))) in H2.
  rewrite string_length_app in H1. simpl in H1. rewrite Hps in H1. rewrite Hcs in H2. lia.
Qed.

Lemma shade6_element_some (shade : ShadingType6) (s : string) (eh : CoonsPatches) :
  (exists s', shade6_element shade s eh = Ok s') <-> patch_ok shade eh = true.
Proof.
  destruct eh as [ps cs|? ? ?]; simpl; [|split; [intros [? H]; discriminate | discriminate]].
  unfold cassert. replace ((0 <=? 0) && (0 <? 3)) with true by reflexivity.
  rewrite orb_true_r. simpl. rewrite andb_true_iff.
  rewrite <- (for_each_some _ _ ps (shade6_point_some shade) (s ++ byte_of 0)%string).
  split.
  - intros [s' H].
    destruct (for_each (shade6_point shade) _ ps) as [s1| |] eqn:H1; try discriminate.
    split; [eauto|]. simpl in H.
    apply (for_each_some _ _ cs (shade6_color_some (Shade.colorspace shade)) s1). eauto.
  - intros [[s1 H1] H2]. rewrite H1. simpl.
    now apply (for_each_some _ _ cs (shade6_color_some (Shade.colorspace shade)) s1).
Qed.

End Mesh.

(** [serialize_shade4] returns a stream exactly when every vertex has a
    flag of 0, 1 or 2 (looked at in a debug build only), coordinates in the
    bounding box, and a device colour of the declared colourspace with
    components in [0, 1]. The stream then has, per vertex, one flag byte,
    two coordinates of 4 bytes and 2 bytes per colour component, which are
    the sizes the dictionary declares, and [add_shading] appends one
    object that holds it. *)
Theorem serialize_shade4_layout {E : Env} (shade : ShadingType4) (d : PdfDocument) :
  ((exists s, serialize_shade4 shade = Ok s)
   <-> forallb (vertex_ok shade) (Shade.elements shade) = true)
  /\ (forall s : string,
        serialize_shade4 shade = Ok s ->
        Z.of_nat (String.length s)
        = size_of (Shade.elements shade)
          * (1 + 4 + 4 + 2 * num_channels_for (Shade.colorspace shade))
        /\ add_shading4 shade d
           = (Ok (to_int32 (size_of (document_objects d))),
              set_document_objects d
                (document_objects d
                   ++ [Full {| dictionary := mesh_shading_dict 4 shade s; stream := s |}]))).
Proof.
  split.
  - unfold serialize_shade4. apply for_each_some. apply shade4_element_some.
  - intros s Hs. split.
    + unfold serialize_shade4 in Hs.
      apply (for_each_length _ _ _ (shade4_element_length shade)) in Hs.
      rewrite Hs. unfold size_of. simpl.
      destruct (Shade.colorspace shade); simpl; lia.
    + unfold add_shading4, bind, lift. rewrite Hs. reflexivity.
Qed.

Lemma serialize_shade4_layout_witness :
  exists s : string,
    serialize_shade4 (E:=debug_env) shade4_rgb_triangle = Ok s
    /\ Z.of_nat (String.length s) = 45.
Proof.
  destruct (proj2 (serialize_shade4_layout (E:=debug_env) shade4_rgb_triangle sample_document))
    with (s := match serialize_shade4 (E:=debug_env) shade4_rgb_triangle with
               | Ok s => s
               | _ => ""
               end) as [Hlen _].
  - vm_compute. reflexivity.
  - eexists. split; [vm_compute; reflexivity | exact Hlen].
Defined.

(** [serialize_shade6] returns a stream exactly when every patch is a
    full patch whose control points lie in the bounding box and whose
    corner colours are device colours of the declared colourspace with
    components in [0, 1]. The stream then has, per patch (of 12 control
    points and 4 corners), one flag byte, 24 coordinates of 4 bytes and 2
    bytes per colour component of each corner, and [add_shading] appends one
    object that holds it. *)
Theorem serialize_shade6_layout {E : Env} (shade : ShadingType6) (d : PdfDocument) :
  ((exists s, serialize_shade6 shade = Ok s)
   <-> forallb (patch_ok shade) (Shade.elements shade) = true)
  /\ (forall s : string,
        serialize_shade6 shade = Ok s ->
        (Forall full_patch (Shade.elements shade) ->
         Z.of_nat (String.length s)
         = size_of (Shade.elements shade)
           * (1 + 12 * (4 + 4) + 4 * (2 * num_channels_for (Shade.colorspace shade))))
        /\ add_shading6 shade d
           = (Ok (to_int32 (size_of (document_objects d))),
              set_document_objects d
                (document_objects d
                   ++ [Full {| dictionary := mesh_shading_dict 6 shade s; stream := s |}]))).
Proof.
  split.
  - unfold serialize_shade6. apply for_each_some. apply shade6_element_some.
  - intros s Hs. split.
    + intros Hfull. unfold serialize_shade6 in Hs.
      assert (Hgen : forall l s0 s1,
                Forall full_patch l -> for_each (shade6_element shade) s0 l = Ok s1 ->
                String.length s1
                = (String.length s0
                   + (97 + 8 * Z.to_nat (num_channels_for (Shade.colorspace shade)))
                     * length l)%nat).
      { induction l as [|eh l IH]; intros s0 s1 Hl H; simpl in H.
        - inversion H. simpl. lia.
        - apply Forall_cons in Hl as [Heh Hl].
          destruct (shade6_element shade s0 eh) as [s2| |] eqn:H2; try discriminate.
          simpl in H. rewrite (IH _ _ Hl H), (shade6_element_length _ _ _ _ Heh H2).
          simpl. lia. }
      rewrite (Hgen _ _ _ Hfull Hs). unfold size_of. simpl.
      destruct (Shade.colorspace shade); simpl; lia.
    + unfold add_shading6, bind, lift. rewrite Hs. reflexivity.
Qed.

Lemma serialize_shade6_layout_witness :
  exists s : string,
    serialize_shade6 (E:=debug_env) shade6_gray_patch = Ok s
    /\ Z.of_nat (String.length s) = 105.
Proof.
  destruct (proj2 (serialize_shade6_layout (E:=debug_env) shade6_gray_patch sample_document))
    with (s := match serialize_shade6 (E:=debug_env) shade6_gray_patch with
               | Ok s => s
               | _ => ""
               end) as [Hlen _].
  - vm_compute. reflexivity.
  - eexists. split; [vm_compute; reflexivity|]. apply Hlen.
    repeat constructor.
Defined.

(** ** The role map *)

Lemma existsb_role_name (new_name : string) (rolemap : list RolemapEnty) :
  existsb (fun i => bool_decide (name i = new_name)) rolemap = true
  <-> new_name ∈ map name rolemap.
Proof.
  rewrite existsb_exists. split.
  - intros (r & Hin & Hr). apply bool_decide_eq_true in Hr. subst new_name.
    apply list_elem_of_In. now apply in_map.
  - intros Hin. apply list_elem_of_In, in_map_iff in Hin as (r & Hr & Hin).
    exists r. split; [exact Hin | now apply bool_decide_eq_true].
Qed.

(** The three outcomes of [add_rolemap_entry]. *)
Lemma add_rolemap_entry_cases (new_name : string) (builtin_type : Z)
    (rolemap : list RolemapEnty) :
  add_rolemap_entry new_name builtin_type rolemap
  = if negb (valid_role_name new_name) then (Err SlashStart, rolemap)
    else if bool_decide (new_name ∈ map name rolemap) then (Err RoleAlreadyDefined, rolemap)
         else (Ok (to_int32 (size_of rolemap + 1) - 1),
               rolemap ++ [{| name := new_name; builtin := builtin_type |}]).
Proof.
  unfold add_rolemap_entry, valid_role_name. rewrite negb_involutive.
  destruct (bool_decide (new_name = "") || starts_with_slash new_name); [reflexivity|].
  destruct (existsb _ rolemap) eqn:Hex.
  - apply existsb_role_name in Hex. now rewrite bool_decide_eq_true_2.
  - rewrite bool_decide_eq_false_2.
    + unfold size_of. rewrite length_app. simpl. now rewrite Nat2Z.inj_add.
    + intros Hin. apply existsb_role_name in Hin. congruence.
Qed.

Lemma rolemap_call_keeps_unique (new_name : string) (builtin_type : Z)
    (rolemap : list RolemapEnty) :
  NoDup (map name rolemap) /\ Forall (fun r => valid_role_name (name r) = true) rolemap ->
  NoDup (map name (snd (add_rolemap_entry new_name builtin_type rolemap)))
  /\ Forall (fun r => valid_role_name (name r) = true)
       (snd (add_rolemap_entry new_name builtin_type rolemap)).
Proof.
  intros [Hnd Hvalid]. rewrite add_rolemap_entry_cases.
  destruct (valid_role_name new_name) eqn:Hname; simpl; [|auto].
  destruct (bool_decide_reflect (new_name ∈ map name rolemap)) as [Hin|Hnew]; simpl; [auto|].
  split.
  - rewrite map_app. simpl. apply NoDup_app. split; [exact Hnd|].
    split; [|apply NoDup_singleton].
    intros nm Hnm Hsingle. apply list_elem_of_singleton in Hsingle. now subst nm.
  - apply Forall_app. split; [exact Hvalid|]. now constructor.
Qed.

Lemma after_rolemap_calls_unique (calls : list (string * Z)) (rolemap : list RolemapEnty) :
  NoDup (map name rolemap) /\ Forall (fun r => valid_role_name (name r) = true) rolemap ->
  NoDup (map name (after_rolemap_calls calls rolemap))
  /\ Forall (fun r => valid_role_name (name r) = true) (after_rolemap_calls calls rolemap).
Proof.
  revert rolemap. induction calls as [|[nm ty] calls IH]; intros rolemap H; [exact H|].
  simpl. apply IH. now apply rolemap_call_keeps_unique.
Qed.

Lemma after_rolemap_calls_prefix (calls : list (string * Z)) (rolemap : list RolemapEnty) :
  exists more, after_rolemap_calls calls rolemap = rolemap ++ more.
Proof.
  revert rolemap. induction calls as [|[nm ty] calls IH]; intros rolemap.
  - exists []. simpl. now rewrite app_nil_r.
  - simpl. destruct (IH (snd (add_rolemap_entry nm ty rolemap))) as (more & Hmore).
    rewrite Hmore, add_rolemap_entry_cases.
    destruct (negb (valid_role_name nm)); [eauto|].
    destruct (bool_decide _); [eauto|]. simpl. rewrite <- app_assoc. eauto.
Qed.

(** Whatever calls of [add_rolemap_entry] were made on an empty role
    map, no two entries have the same name and no name is empty or starts
    with a slash. A further call with an empty name or a name that starts
    with a slash returns [SlashStart]; with a name the map holds,
    [RoleAlreadyDefined]; both leave the map as it was. Any other call
    appends the entry and returns its index, and later calls leave that
    entry where it is. *)
Theorem add_rolemap_entry_registers (calls later : list (string * Z)) (new_name : string)
    (builtin_type : Z) :
  let rolemap := after_rolemap_calls calls [] in
  let result := add_rolemap_entry new_name builtin_type rolemap in
  NoDup (map name rolemap)
  /\ Forall (fun r => valid_role_name (name r) = true) rolemap
  /\ (valid_role_name new_name = false -> result = (Err SlashStart, rolemap))
  /\ (valid_role_name new_name = true -> new_name ∈ map name rolemap ->
      result = (Err RoleAlreadyDefined, rolemap))
  /\ (valid_role_name new_name = true -> new_name ∉ map name rolemap ->
      size_of rolemap + 1 < 2 ^ 31 ->
      fst result = Ok (size_of rolemap)
      /\ snd result = rolemap ++ [{| name := new_name; builtin := builtin_type |}]
      /\ after_rolemap_calls later (snd result) !! length rolemap
         = Some {| name := new_name; builtin := builtin_type |}).
Proof.
  intros rolemap result.
  assert (Hinv : NoDup (map name rolemap)
                 /\ Forall (fun r => valid_role_name (name r) = true) rolemap).
  { apply after_rolemap_calls_unique. split; [apply NoDup_nil_2 | constructor]. }
  destruct Hinv as [Hnd Hvalid].
  split; [exact Hnd|]. split; [exact Hvalid|].
  subst result. rewrite add_rolemap_entry_cases.
  split; [|split].
  - intros ->. reflexivity.
  - intros -> Hin. simpl. now rewrite bool_decide_eq_true_2.
  - intros -> Hnew Hsize. simpl. rewrite bool_decide_eq_false_2 by assumption. simpl.
    split; [|split; [reflexivity|]].
    + f_equal. unfold size_of in *. rewrite to_int32_small by lia. lia.
    + destruct (after_rolemap_calls_prefix later
                  (rolemap ++ [{| name := new_name; builtin := builtin_type |}]))
        as (more & ->).
      rewrite <- app_assoc. rewrite lookup_app_r by lia. now rewrite Nat.sub_diag.
Qed.

(** ** Member functions, step by step *)

Section Steps.
Context {E : Env}.
Variable R : PdfDocument -> PdfDocument -> Prop.
Hypothesis R_refl : forall d, R d d.
Hypothesis R_trans : forall d1 d2 d3, R d1 d2 -> R d2 d3 -> R d1 d3.

Lemma steps_bind {A B : Type} (m : M A) (k : A -> M B) :
  steps R m -> (forall a, steps R (k a)) -> steps R (bind m k).
Proof.
  intros Hm Hk d0. unfold bind. specialize (Hm d0).
  destruct (m d0) as [[a| |] d'] eqn:Heq; simpl in *; auto.
  eapply R_trans; [exact Hm | apply Hk].
Qed.

Lemma steps_ret {A : Type} (a : A) : steps R (ret a).
Proof. intros d0. apply R_refl. Qed.

Lemma steps_fail {A : Type} (e : ErrorCode) : steps R (fail (A:=A) e).
Proof. intros d0. apply R_refl. Qed.

Lemma steps_crash {A : Type} : steps R (crash (A:=A)).
Proof. intros d0. apply R_refl. Qed.

Lemma steps_lift {A : Type} (r : rvoe A) : steps R (lift r).
Proof. intros d0. apply R_refl. Qed.

Lemma steps_get {A : Type} (f : PdfDocument -> A) : steps R (get f).
Proof. intros d0. apply R_refl. Qed.

Lemma steps_modify (f : PdfDocument -> PdfDocument) :
  (forall d, R d (f d)) -> steps R (modify f).
Proof. intros H d0. apply H. Qed.

Lemma steps_add_object (o : ObjectType) :
  (forall d, R d (set_document_objects d (document_objects d ++ [o]))) ->
  steps R (add_object o).
Proof. intros H d0. apply H. Qed.

Lemma steps_find_icc_profile (contents : string) : steps R (find_icc_profile contents).
Proof. intros d0. apply R_refl. Qed.

End Steps.

(** Takes a member function apart down to the writes, which [prim] has to
    justify, and the member functions that [known] knows. *)
Ltac steps_with refl trans prim known :=
  repeat first
    [ apply (steps_ret _ refl) | apply (steps_fail _ refl) | apply (steps_crash _ refl)
    | apply (steps_lift _ refl) | apply (steps_get _ refl)
    | apply (steps_find_icc_profile _ refl)
    | solve [known]
    | apply steps_add_object; intros ?; solve [prim]
    | apply steps_modify; intros ?; solve [prim]
    | apply (steps_bind _ trans); [| intros ?]
    | match goal with
      | |- steps _ (if ?b then _ else _) => destruct b
      | |- steps _ (match ?o with _ => _ end) => destruct o
      | |- steps _ (let _ := _ in _) => cbv zeta
      end ].

(** ** Every call, from the functions that write

    The member functions that write to a member other than the object table
    are [store_icc_profile], [add_image_object], [embed_jpg],
    [create_separation], [add_transparency_group],
    [add_optional_content_group], [add_page] and [pad_subset_fonts]. A
    relation that these keep, and that appending to the object table keeps,
    is kept by every call. *)

Section Calls.
Context {E : Env}.
Variable R : PdfDocument -> PdfDocument -> Prop.
Hypothesis R_refl : forall d, R d d.
Hypothesis R_trans : forall d1 d2 d3, R d1 d2 -> R d2 d3 -> R d1 d3.
Hypothesis R_push :
  forall d o, R d (set_document_objects d (document_objects d ++ [o])).
Hypothesis R_store_icc_profile : forall contents n, steps R (store_icc_profile contents n).
Hypothesis R_add_image_object :
  forall wd ht bpc ip k sm mask bytes, steps R (add_image_object wd ht bpc ip k sm mask bytes).
Hypothesis R_embed_jpg : forall jpg ip, steps R (embed_jpg jpg ip).
Hypothesis R_create_separation :
  forall sep_name fc fm fy fk, steps R (create_separation sep_name fc fm fy fk).
Hypothesis R_add_transparency_group :
  forall this ctx ex, steps R (add_transparency_group this ctx ex).
Hypothesis R_add_optional_content_group :
  forall g_name, steps R (add_optional_content_group g_name).
Hypothesis R_add_page :
  forall rd ud cstream cp fws annots structs trn subnav,
    steps R (add_page rd ud cstream cp fws annots structs trn subnav).
Hypothesis R_pad_subset_fonts : steps R pad_subset_fonts.

Ltac calls_auto :=
  steps_with R_refl R_trans ltac:(apply R_push)
    ltac:(first [ apply R_store_icc_profile | apply R_add_image_object ]).

Lemma calls_load_icc_file (fname : string) : steps R (load_icc_file fname).
Proof. unfold load_icc_file. calls_auto. Qed.

Lemma calls_add_image (image : RasterImage) (mask : bool) : steps R (add_image image mask).
Proof. unfold add_image. calls_auto. Qed.

Lemma calls_add_mask_image (image : RasterImage) : steps R (add_mask_image image).
Proof. unfold add_mask_image. calls_auto. Qed.

Lemma calls_add_shading4 (shade : ShadingType4) : steps R (add_shading4 shade).
Proof. unfold add_shading4. calls_auto. Qed.

Lemma calls_add_shading6 (shade : ShadingType6) : steps R (add_shading6 shade).
Proof. unfold add_shading6. calls_auto. Qed.

Lemma calls_add_pattern (this : Z) (ctx : PdfDrawContext) : steps R (add_pattern this ctx).
Proof. unfold add_pattern. calls_auto. Qed.

Lemma calls_add_lab_colorspace (lab : LabColorSpace) : steps R (add_lab_colorspace lab).
Proof. unfold add_lab_colorspace. calls_auto. Qed.

Lemma calls_add_graphics_state (state : GraphicsState) : steps R (add_graphics_state state).
Proof. unfold add_graphics_state. calls_auto. Qed.

Lemma calls_add_function (func : FunctionType2) : steps R (add_function func).
Proof. unfold add_function. calls_auto. Qed.

Lemma calls_add_shading2 (shade : ShadingType2) : steps R (add_shading2 shade).
Proof. unfold add_shading2. calls_auto. Qed.

Lemma calls_add_shading3 (shade : ShadingType3) : steps R (add_shading3 shade).
Proof. unfold add_shading3. calls_auto. Qed.

Lemma calls_run_operation (op : Operation) (d : PdfDocument) : R d (run_operation op d).
Proof.
  destruct op; simpl.
  - apply R_add_page.
  - apply calls_add_shading4.
  - apply calls_add_shading6.
  - apply calls_add_pattern.
  - apply R_add_transparency_group.
  - apply calls_load_icc_file.
  - apply calls_add_image.
  - apply R_pad_subset_fonts.
Qed.

Lemma calls_run_call (call : Call) (d : PdfDocument) : R d (run_call call d).
Proof.
  destruct call; simpl.
  - apply calls_run_operation.
  - apply calls_add_mask_image.
  - apply R_embed_jpg.
  - apply calls_add_lab_colorspace.
  - apply calls_add_graphics_state.
  - apply calls_add_function.
  - apply calls_add_shading2.
  - apply calls_add_shading3.
  - apply R_add_optional_content_group.
  - apply R_create_separation.
Qed.

Lemma calls_run_calls (calls : list Call) (d : PdfDocument) : R d (run_calls calls d).
Proof.
  revert d. induction calls as [|call calls IH]; intros d; simpl; [apply R_refl|].
  eapply R_trans; [apply calls_run_call | apply IH].
Qed.

End Calls.

(** The chain of [add_page] after its three checks keeps a relation that
    each of its writes keeps. *)
Ltac add_page_steps refl trans :=
  intros d0; unfold add_page;
  destruct (used_in (form_use d0) _); [apply refl|];
  destruct (used_in (annotation_use d0) _); [apply refl|];
  destruct (used_in (structure_use d0) _); [apply refl|];
  match goal with
  | |- ?R _ (snd (?m d0)) =>
      let H := fresh "Hchain" in
      assert (H : forall d, R d (snd (m d))); [|apply H]
  end.

(** ** No table ever loses an entry *)

Section Extends.
Context {E : Env}.

Lemma extends_refl (d : PdfDocument) : extends d d.
Proof. unfold extends. repeat split; reflexivity. Qed.

Lemma extends_trans (d1 d2 d3 : PdfDocument) : extends d1 d2 -> extends d2 d3 -> extends d1 d3.
Proof.
  unfold extends. intros H1 H2.
  destruct H1 as (A1 & A2 & A3 & A4 & A5 & A6 & A7 & A8 & A9 & A10 & A11 & A12 & A13 & A14
                  & A15 & A16 & A17).
  destruct H2 as (B1 & B2 & B3 & B4 & B5 & B6 & B7 & B8 & B9 & B10 & B11 & B12 & B13 & B14
                  & B15 & B16 & B17).
  repeat split; try congruence; etransitivity; eassumption.
Qed.

(** A write that appends to one table, or that [extends] does not look at. *)
Ltac extends_prim :=
  unfold extends; simpl; repeat split; try reflexivity; apply prefix_app_r; reflexivity.

Ltac extends_auto := steps_with extends_refl extends_trans extends_prim ltac:(fail).

Lemma extends_push (d : PdfDocument) (o : ObjectType) :
  extends d (set_document_objects d (document_objects d ++ [o])).
Proof. extends_prim. Qed.

Lemma extends_store_icc_profile (contents : string) (n_channels : Z) :
  steps extends (store_icc_profile contents n_channels).
Proof. unfold store_icc_profile. extends_auto. Qed.

Lemma extends_create_separation (sep_name : string) (fc fm fy fk : LimitDouble) :
  steps extends (create_separation sep_name fc fm fy fk).
Proof. unfold create_separation. extends_auto. Qed.

Lemma extends_add_image_object (wd ht bpc : Z) (ip : CapyPDF_Image_Interpolation)
    (k : ColorspaceType) (sm : option Z) (mask : bool) (bytes : string) :
  steps extends (add_image_object wd ht bpc ip k sm mask bytes).
Proof. unfold add_image_object. extends_auto. Qed.

Lemma extends_embed_jpg (jpg : Jpg.jpg_image) (ip : CapyPDF_Image_Interpolation) :
  steps extends (embed_jpg jpg ip).
Proof. unfold embed_jpg. extends_auto. Qed.

Lemma extends_add_transparency_group (this : Z) (ctx : PdfDrawContext)
    (ex : option TransparencyGroupExtra) :
  steps extends (add_transparency_group this ctx ex).
Proof. unfold add_transparency_group. extends_auto. Qed.

Lemma extends_add_optional_content_group (g_name : string) :
  steps extends (add_optional_content_group g_name).
Proof. unfold add_optional_content_group. extends_auto. Qed.

Lemma extends_pad_subset_fonts : steps extends pad_subset_fonts.
Proof. unfold pad_subset_fonts. extends_auto. Qed.

Lemma mark_used_subseteq (ids : list Z) (n : Z) (use : gmap Z Z) :
  (forall a, a ∈ ids -> use !! a = None) -> use ⊆ mark_used ids n use.
Proof.
  intros Hnew. unfold mark_used.
  assert (Hgen : forall use', use ⊆ use' -> use ⊆ fold_left (fun u a => <[a:=n]> u) ids use').
  { induction ids as [|b ids IH]; intros use' Hsub; [exact Hsub|].
    simpl. apply IH.
    - intros a Ha. apply Hnew. apply elem_of_cons. now right.
    - apply insert_subseteq_r; [|exact Hsub]. apply Hnew. apply elem_of_cons. now left. }
  now apply Hgen.
Qed.

Lemma mark_structures_subseteq (structs : list Z) (page mcid : Z)
    (use : gmap Z StructureUsage) :
  (forall a, a ∈ structs -> use !! a = None) -> use ⊆ mark_structures structs page mcid use.
Proof.
  intros Hnew.
  assert (Hgen : forall mcid' use', use ⊆ use' ->
                   use ⊆ mark_structures structs page mcid' use').
  { induction structs as [|b structs IH]; intros mcid' use' Hsub; [exact Hsub|].
    simpl. apply IH.
    - intros a Ha. apply Hnew. apply elem_of_cons. now right.
    - apply insert_subseteq_r; [|exact Hsub]. apply Hnew. apply elem_of_cons. now left. }
  now apply Hgen.
Qed.

Lemma same_resources_refl (d : PdfDocument) : same_resources d d.
Proof. unfold same_resources. repeat split; reflexivity. Qed.

Lemma same_resources_trans (d1 d2 d3 : PdfDocument) :
  same_resources d1 d2 -> same_resources d2 d3 -> same_resources d1 d3.
Proof. unfold same_resources. intros H1 H2. repeat split; intuition congruence. Qed.

Lemma same_resources_subnav_nodes (ocgs : list Z) (first_obj : Z)
    (subnav : list SubPageNavigation) :
  forall i prev, steps same_resources (subnav_nodes ocgs first_obj i prev subnav).
Proof.
  induction subnav as [|sn rest IH]; intros i prev; simpl;
    [apply (steps_ret _ same_resources_refl)|].
  apply (steps_bind _ same_resources_trans); [|intros _; apply IH].
  apply steps_add_object. intros d. unfold same_resources. simpl. repeat split; reflexivity.
Qed.

Lemma same_resources_add_page (rd ud cstream : string) (cp : PageProperties)
    (fws annots : gset Z) (structs : list Z) (trn : option Transition)
    (subnav : list SubPageNavigation) :
  steps same_resources (add_page rd ud cstream cp fws annots structs trn subnav).
Proof.
  add_page_steps same_resources_refl same_resources_trans.
  unfold create_subnavigation.
  steps_with same_resources_refl same_resources_trans
    ltac:(unfold same_resources; simpl; repeat split; reflexivity)
    ltac:(apply same_resources_subnav_nodes).
Qed.

Lemma extends_add_page (rd ud cstream : string) (cp : PageProperties)
    (fws annots : gset Z) (structs : list Z) (trn : option Transition)
    (subnav : list SubPageNavigation) :
  steps extends (add_page rd ud cstream cp fws annots structs trn subnav).
Proof.
  intros d.
  pose proof (same_resources_add_page rd ud cstream cp fws annots structs trn subnav d) as Hsame.
  destruct (used_in (form_use d) (elements fws)) eqn:H1;
    [unfold add_page; rewrite H1; apply extends_refl|].
  destruct (used_in (annotation_use d) (elements annots)) eqn:H2;
    [unfold add_page; rewrite H1, H2; apply extends_refl|].
  destruct (used_in (structure_use d) structs) eqn:H3;
    [unfold add_page; rewrite H1, H2, H3; apply extends_refl|].
  destruct (add_page_ok rd ud cstream cp fws annots structs trn subnav d H1 H2 H3)
    as (extra & pg & n1 & n2 & po & d' & Heq & Hobj & _ & _ & _ & Hf & Ha & Hs & Ht & Hp & Ho).
  rewrite Heq in *. simpl in *.
  destruct Hsame as (S1 & S2 & S3 & S4 & S5 & S6 & S7 & S8 & S9 & S10 & S11).
  unfold extends. rewrite Ho, S1, Hobj, Hp, S2, S3, S4, Ht, S5, S6, Hf, Ha, Hs, S8, S9, S10, S11.
  repeat split; try reflexivity; try (apply prefix_app_r; reflexivity).
  - destruct (bool_decide (structs = [])); [reflexivity | apply prefix_app_r; reflexivity].
  - apply mark_used_subseteq. now apply used_in_false.
  - apply mark_used_subseteq. now apply used_in_false.
  - apply mark_structures_subseteq. now apply used_in_false.
Qed.

End Extends.

Lemma extends_run_calls {E : Env} (calls : list Call) (d : PdfDocument) :
  extends d (run_calls calls d).
Proof.
  apply (calls_run_calls extends extends_refl extends_trans extends_push
           extends_store_icc_profile extends_add_image_object extends_embed_jpg
           extends_create_separation extends_add_transparency_group
           extends_add_optional_content_group extends_add_page extends_pad_subset_fonts).
Qed.

(** No call removes, moves or changes what a document holds. After any
    sequence of calls the options and the colour converter are the same; the
    object table, the page list, the lists of ICC profiles, images,
    separations, transparency groups, optional content groups and structure
    parents begin with what they held; every annotation, form widget and
    structure item that was attached to a page is attached to the same page;
    and the object numbers stored by [init] are the same. So an index into
    one of these tables that was valid stays valid and finds the same
    entry. *)
Theorem tables_only_grow {E : Env} (calls : list Call) (d : PdfDocument) :
  extends d (run_calls calls d)
  /\ (forall (i : nat) (o : ObjectType),
        document_objects d !! i = Some o ->
        document_objects (run_calls calls d) !! i = Some o)
  /\ (forall (i : nat) (po : PageOffsets),
        pages d !! i = Some po -> pages (run_calls calls d) !! i = Some po)
  /\ (forall (i : nat) (info : ImageInfo),
        image_info d !! i = Some info -> image_info (run_calls calls d) !! i = Some info)
  /\ (forall (i : nat) (info : IccInfo),
        icc_profiles d !! i = Some info ->
        icc_profiles (run_calls calls d) !! i = Some info).
Proof.
  pose proof (extends_run_calls calls d) as Hext.
  split; [exact Hext|].
  destruct Hext as (_ & _ & Hobjs & Hpages & Hicc & Himg & _).
  split; [|split; [|split]]; intros i x Hi.
  - eapply prefix_lookup_Some; eassumption.
  - eapply prefix_lookup_Some; eassumption.
  - eapply prefix_lookup_Some; eassumption.
  - eapply prefix_lookup_Some; eassumption.
Qed.

(** ** Object numbers that tables hold *)

Section Resources.
Context {E : Env}.

Lemma designates_prefix (K : ObjectType -> Prop) (d d' : PdfDocument) (n : Z) :
  document_objects d `prefix_of` document_objects d' ->
  designates K d n -> designates K d' n.
Proof.
  intros [extra Hext] (o & Hat & Ho). exists o. split; [|exact Ho].
  rewrite Hext. now apply at_prefix.
Qed.

Lemma numbers_fit_prefix (d d' : PdfDocument) :
  document_objects d `prefix_of` document_objects d' -> numbers_fit d' -> numbers_fit d.
Proof.
  intros [extra Hext]. unfold numbers_fit, size_of. rewrite Hext, length_app. lia.
Qed.

(** The number that [add_object] returns designates the object, once more
    objects have been appended too. *)
Lemma at_pushed (objs extra : list ObjectType) (o : ObjectType) :
  size_of (objs ++ o :: extra) <= 2 ^ 31 ->
  at_ (objs ++ o :: extra) (to_int32 (size_of objs)) = Ok o.
Proof.
  intros Hfit. unfold size_of in *. rewrite length_app in Hfit. simpl in Hfit.
  rewrite to_int32_small by lia. unfold at_.
  destruct (Z.ltb_spec (Z.of_nat (length objs)) 0); [lia|].
  rewrite Nat2Z.id, lookup_app_r by lia. now rewrite Nat.sub_diag.
Qed.

Lemma at_pushed_before (objs : list ObjectType) (o1 o2 : ObjectType) :
  size_of ((objs ++ [o1]) ++ [o2]) <= 2 ^ 31 ->
  at_ ((objs ++ [o1]) ++ [o2]) (to_int32 (size_of objs)) = Ok o1.
Proof. rewrite <- app_assoc. apply at_pushed. Qed.

Lemma keeps_resources_refl (d : PdfDocument) : keeps_resources d d.
Proof. unfold keeps_resources. auto. Qed.

Lemma keeps_resources_trans (d1 d2 d3 : PdfDocument) :
  keeps_resources d1 d2 -> keeps_resources d2 d3 -> keeps_resources d1 d3.
Proof. unfold keeps_resources. auto. Qed.

(** A document that has more objects and, at the end of each resource table,
    new entries that resolve. *)
Lemma keeps_resources_step (d d' : PdfDocument) (icc : list IccInfo) (img : list ImageInfo)
    (sep grp ocg : list Z) :
  document_objects d `prefix_of` document_objects d' ->
  icc_profiles d' = icc_profiles d ++ icc ->
  image_info d' = image_info d ++ img ->
  separation_objects d' = separation_objects d ++ sep ->
  transparency_groups d' = transparency_groups d ++ grp ->
  ocg_items d' = ocg_items d ++ ocg ->
  (numbers_fit d' ->
   Forall (fun info => designates is_deflate d' (stream_num info)
                       /\ designates is_full d' (object_num info)) icc
   /\ Forall (fun info => designates is_full d' (obj info)) img
   /\ Forall (designates is_full d') sep
   /\ Forall (designates is_full d') grp
   /\ Forall (designates is_full d') ocg) ->
  keeps_resources d d'.
Proof.
  intros Hpre Hicc Himg Hsep Hgrp Hocg Hnew Hold Hfit.
  destruct (Hold (numbers_fit_prefix _ _ Hpre Hfit)) as (O1 & O2 & O3 & O4 & O5).
  destruct (Hnew Hfit) as (N1 & N2 & N3 & N4 & N5).
  unfold resources_resolve. rewrite Hicc, Himg, Hsep, Hgrp, Hocg, !Forall_app.
  split; [|split; [|split; [|split]]]; (split; [|assumption]).
  - eapply Forall_impl; [exact O1|]. intros info [H1 H2].
    split; eapply designates_prefix; eassumption.
  - eapply Forall_impl; [exact O2|]. intros info H1. eapply designates_prefix; eassumption.
  - eapply Forall_impl; [exact O3|]. intros n H1. eapply designates_prefix; eassumption.
  - eapply Forall_impl; [exact O4|]. intros n H1. eapply designates_prefix; eassumption.
  - eapply Forall_impl; [exact O5|]. intros n H1. eapply designates_prefix; eassumption.
Qed.

(** A write that leaves the resource tables alone and the object table at
    least as long. *)
Lemma keeps_resources_same (d d' : PdfDocument) :
  document_objects d `prefix_of` document_objects d' ->
  icc_profiles d' = icc_profiles d ->
  image_info d' = image_info d ->
  separation_objects d' = separation_objects d ->
  transparency_groups d' = transparency_groups d ->
  ocg_items d' = ocg_items d ->
  keeps_resources d d'.
Proof.
  intros Hpre Hicc Himg Hsep Hgrp Hocg.
  apply (keeps_resources_step d d' [] [] [] [] []); rewrite ?app_nil_r; auto.
Qed.

Ltac same_resources_prim :=
  apply keeps_resources_same; simpl;
  first [reflexivity | apply prefix_app_r; reflexivity].

Lemma keeps_resources_push (d : PdfDocument) (o : ObjectType) :
  keeps_resources d (set_document_objects d (document_objects d ++ [o])).
Proof. same_resources_prim. Qed.

(** The new entry designates the object that was appended for it. *)
Ltac designates_pushed Hfit :=
  eexists; split; [simpl; first [apply at_pushed | apply at_pushed_before]; exact Hfit | exact I].

(** The five lists of new entries, all empty but the one that [tac] does. *)
Ltac new_entries tac :=
  let Hfit := fresh "Hfit" in
  intros Hfit; unfold numbers_fit in Hfit; simpl in Hfit;
  split; [|split; [|split; [|split]]];
  first [ apply Forall_nil_2 | apply Forall_singleton; tac Hfit ].

Lemma keeps_resources_store_icc_profile (contents : string) (n_channels : Z) :
  steps keeps_resources (store_icc_profile contents n_channels).
Proof.
  intros d. unfold store_icc_profile, bind, find_icc_profile, lift.
  destruct (find_icc_profile_from _ _ _ _) as [existing| |]; simpl;
    try apply keeps_resources_refl.
  destruct (cassert _); simpl; try apply keeps_resources_refl.
  destruct (bool_decide (contents = "")); simpl; [apply keeps_resources_refl|].
  eapply (keeps_resources_step _ _ [_] [] [] [] []); simpl; rewrite ?app_nil_r;
    try reflexivity.
  - rewrite <- app_assoc. apply prefix_app_r. reflexivity.
  - new_entries ltac:(fun Hfit => split; designates_pushed Hfit).
Qed.

Lemma keeps_resources_add_image_object (wd ht bpc : Z) (ip : CapyPDF_Image_Interpolation)
    (k : ColorspaceType) (sm : option Z) (mask : bool) (bytes : string) :
  steps keeps_resources (add_image_object wd ht bpc ip k sm mask bytes).
Proof.
  intros d. unfold add_image_object, bind, lift.
  destruct (flate_compress bytes) as [compressed| |]; simpl; try apply keeps_resources_refl.
  match goal with
  | |- context [match ?m d with _ => _ end] => destruct (m d) as [[buf| |] d1] eqn:Hbuf
  end; simpl.
  - assert (d1 = d) as ->.
    { destruct mask; [now inversion Hbuf|]. destruct k as [k|id]; [now inversion Hbuf|].
      unfold bind, get, lift, ret in Hbuf. simpl in Hbuf.
      destruct (at_ (icc_profiles d) id); now inversion Hbuf. }
    eapply (keeps_resources_step _ _ [] [_] [] [] []); simpl; rewrite ?app_nil_r;
      try reflexivity.
    + apply prefix_app_r. reflexivity.
    + new_entries ltac:(fun Hfit => designates_pushed Hfit).
  - assert (d1 = d) as ->; [|apply keeps_resources_refl].
    destruct mask; [now inversion Hbuf|]. destruct k as [k|id]; [now inversion Hbuf|].
    unfold bind, get, lift, ret in Hbuf. simpl in Hbuf.
    destruct (at_ (icc_profiles d) id); now inversion Hbuf.
  - assert (d1 = d) as ->; [|apply keeps_resources_refl].
    destruct mask; [now inversion Hbuf|]. destruct k as [k|id]; [now inversion Hbuf|].
    unfold bind, get, lift, ret in Hbuf. simpl in Hbuf.
    destruct (at_ (icc_profiles d) id); now inversion Hbuf.
Qed.

Lemma keeps_resources_embed_jpg (jpg : Jpg.jpg_image) (ip : CapyPDF_Image_Interpolation) :
  steps keeps_resources (embed_jpg jpg ip).
Proof.
  intros d. unfold embed_jpg, bind. simpl.
  eapply (keeps_resources_step _ _ [] [_] [] [] []); simpl; rewrite ?app_nil_r;
    try reflexivity.
  - apply prefix_app_r. reflexivity.
  - new_entries ltac:(fun Hfit => designates_pushed Hfit).
Qed.

Lemma keeps_resources_create_separation (sep_name : string) (fc fm fy fk : LimitDouble) :
  steps keeps_resources (create_separation sep_name fc fm fy fk).
Proof.
  intros d. unfold create_separation, bind. simpl.
  eapply (keeps_resources_step _ _ [] [] [_] [] []); simpl; rewrite ?app_nil_r;
    try reflexivity.
  - rewrite <- app_assoc. apply prefix_app_r. reflexivity.
  - new_entries ltac:(fun Hfit => designates_pushed Hfit).
Qed.

Lemma keeps_resources_add_transparency_group (this : Z) (ctx : PdfDrawContext)
    (ex : option TransparencyGroupExtra) :
  steps keeps_resources (add_transparency_group this ctx ex).
Proof.
  intros d. unfold add_transparency_group.
  destruct (bool_decide _); [apply keeps_resources_refl|].
  destruct (bool_decide _); [apply keeps_resources_refl|].
  destruct (serialize ctx ex); [apply keeps_resources_refl|].
  unfold bind. simpl.
  eapply (keeps_resources_step _ _ [] [] [] [_] []); simpl; rewrite ?app_nil_r;
    try reflexivity.
  - apply prefix_app_r. reflexivity.
  - new_entries ltac:(fun Hfit => designates_pushed Hfit).
Qed.

Lemma keeps_resources_add_optional_content_group (g_name : string) :
  steps keeps_resources (add_optional_content_group g_name).
Proof.
  intros d. unfold add_optional_content_group, bind. simpl.
  eapply (keeps_resources_step _ _ [] [] [] [] [_]); simpl; rewrite ?app_nil_r;
    try reflexivity.
  - apply prefix_app_r. reflexivity.
  - new_entries ltac:(fun Hfit => designates_pushed Hfit).
Qed.

Lemma keeps_resources_pad_subset_fonts : steps keeps_resources pad_subset_fonts.
Proof.
  unfold pad_subset_fonts.
  steps_with keeps_resources_refl keeps_resources_trans same_resources_prim ltac:(fail).
Qed.

Lemma keeps_resources_subnav_nodes (ocgs : list Z) (first_obj : Z)
    (subnav : list SubPageNavigation) :
  forall i prev, steps keeps_resources (subnav_nodes ocgs first_obj i prev subnav).
Proof.
  induction subnav as [|sn rest IH]; intros i prev; simpl;
    [apply (steps_ret _ keeps_resources_refl)|].
  apply (steps_bind _ keeps_resources_trans); [|intros _; apply IH].
  apply steps_add_object. intros d. apply keeps_resources_push.
Qed.

Lemma keeps_resources_add_page (rd ud cstream : string) (cp : PageProperties)
    (fws annots : gset Z) (structs : list Z) (trn : option Transition)
    (subnav : list SubPageNavigation) :
  steps keeps_resources (add_page rd ud cstream cp fws annots structs trn subnav).
Proof.
  add_page_steps keeps_resources_refl keeps_resources_trans.
  unfold create_subnavigation.
  steps_with keeps_resources_refl keeps_resources_trans same_resources_prim
    ltac:(apply keeps_resources_subnav_nodes).
Qed.

Lemma keeps_resources_run_calls (calls : list Call) (d : PdfDocument) :
  keeps_resources d (run_calls calls d).
Proof.
  apply (calls_run_calls keeps_resources keeps_resources_refl keeps_resources_trans
           keeps_resources_push keeps_resources_store_icc_profile
           keeps_resources_add_image_object keeps_resources_embed_jpg
           keeps_resources_create_separation keeps_resources_add_transparency_group
           keeps_resources_add_optional_content_group keeps_resources_add_page
           keeps_resources_pad_subset_fonts).
Qed.

Lemma keeps_resources_init : steps keeps_resources init.
Proof.
  unfold init, generate_info_object, create_page_group, create_output_intent.
  steps_with keeps_resources_refl keeps_resources_trans same_resources_prim
    ltac:(first [apply keeps_resources_create_separation
                | apply keeps_resources_store_icc_profile]).
Qed.

(** A search through profiles that resolve returns. *)
Lemma find_icc_profile_from_returns (objs : list ObjectType) (contents : string)
    (profiles : list IccInfo) :
  Forall (fun info => exists o, at_ objs (stream_num info) = Ok o /\ is_deflate o) profiles ->
  forall i, exists r, find_icc_profile_from objs contents profiles i = Ok r.
Proof.
  induction 1 as [|info profiles (o & Hat & Ho) _ IH]; intros i; simpl; [eauto|].
  rewrite Hat. simpl. destruct o; try contradiction.
  destruct (bool_decide _); [eauto | apply IH].
Qed.

End Resources.

Lemma construct_is_init {E : Env} (gd : PdfGenerationData) (conv : PdfColorConverter)
    (d0 : PdfDocument) :
  construct gd conv = Ok d0 -> init (new_document gd conv) = (Ok tt, d0).
Proof.
  unfold construct.
  destruct (init (new_document gd conv)) as [[[]| |] d1]; intros H; now inversion H.
Qed.

(** In a document that [construct] returned and that any calls were
    made on, as long as the object table has at most 2^31 entries, every
    object number that a resource table holds designates an entry of the
    object table, of the kind that was registered: the stream and the
    colourspace array of each ICC profile, the stream object of each image,
    the array of each separation, the form of each transparency group and
    the dictionary of each optional content group. So [find_icc_profile]
    returns on such a document: its lookups do not throw and its [assert]
    holds. *)
Theorem resources_stay_resolved {E : Env} (gd : PdfGenerationData) (conv : PdfColorConverter)
    (d0 : PdfDocument) (calls : list Call) :
  construct gd conv = Ok d0 ->
  numbers_fit (run_calls calls d0) ->
  resources_resolve (run_calls calls d0)
  /\ (forall contents : string,
        exists r, find_icc_profile contents (run_calls calls d0)
                  = (Ok r, run_calls calls d0)).
Proof.
  intros Hconstruct Hfit.
  assert (Hd0 : d0 = snd (init (new_document gd conv))).
  { now rewrite (construct_is_init _ _ _ Hconstruct). }
  assert (Hres : resources_resolve (run_calls calls d0)).
  { apply (keeps_resources_run_calls calls d0); [|exact Hfit].
    rewrite Hd0. apply (keeps_resources_init (new_document gd conv)).
    intros _. unfold resources_resolve. simpl. repeat constructor. }
  split; [exact Hres|].
  intros contents. unfold find_icc_profile.
  destruct Hres as (Hicc & _).
  destruct (find_icc_profile_from_returns (document_objects (run_calls calls d0)) contents
              (icc_profiles (run_calls calls d0))) with (i := 0) as (r & Hr).
  - eapply Forall_impl; [exact Hicc|]. intros info [Hs _]. exact Hs.
  - exists r. now rewrite Hr.
Qed.

Lemma resources_stay_resolved_witness :
  resources_resolve
    (run_calls (E:=debug_env)
       [CallOperation (OpLoadIccFile "PROFILE");
        CallEmbedJpg {| Jpg.w := 2; Jpg.h := 2; Jpg.file_contents := "JFIF" |}
          CAPY_INTERPOLATION_AUTO;
        CallAddOptionalContentGroup "Layer"]
       sample_document)
  /\ (forall contents : string,
        exists r,
          find_icc_profile contents
            (run_calls (E:=debug_env)
               [CallOperation (OpLoadIccFile "PROFILE");
                CallEmbedJpg {| Jpg.w := 2; Jpg.h := 2; Jpg.file_contents := "JFIF" |}
                  CAPY_INTERPOLATION_AUTO;
                CallAddOptionalContentGroup "Layer"]
               sample_document)
          = (Ok r,
             run_calls (E:=debug_env)
               [CallOperation (OpLoadIccFile "PROFILE");
                CallEmbedJpg {| Jpg.w := 2; Jpg.h := 2; Jpg.file_contents := "JFIF" |}
                  CAPY_INTERPOLATION_AUTO;
                CallAddOptionalContentGroup "Layer"]
               sample_document)).
Proof.
  apply (resources_stay_resolved (E:=debug_env) rgb_options no_profiles).
  - reflexivity.
  - unfold numbers_fit. vm_compute. discriminate.
Defined.

(** ** The object numbers that [init] stores *)

Section Roots.
Context {E : Env}.

Lemma bind_inv {A B : Type} (m : M A) (k : A -> M B) (d d' : PdfDocument) (b : B) :
  bind m k d = (Ok b, d') -> exists a d1, m d = (Ok a, d1) /\ k a d1 = (Ok b, d').
Proof.
  unfold bind. destruct (m d) as [[a| |] d1]; try discriminate. eauto.
Qed.

Lemma before_profile_refl (d : PdfDocument) : before_profile d d.
Proof. unfold before_profile. auto. Qed.

Lemma before_profile_trans (d1 d2 d3 : PdfDocument) :
  before_profile d1 d2 -> before_profile d2 d3 -> before_profile d1 d3.
Proof. unfold before_profile. intuition congruence. Qed.

Ltac before_profile_auto :=
  steps_with before_profile_refl before_profile_trans
    ltac:(unfold before_profile; simpl; auto) ltac:(fail).

(** [store_icc_profile] on bytes that are not empty, when it returns: the
    profile is the last of the list, and the id is its index. *)
Lemma store_icc_profile_returns (contents : string) (n_channels id : Z) (d d' : PdfDocument) :
  contents <> "" ->
  store_icc_profile contents n_channels d = (Ok id, d') ->
  exists info,
    icc_profiles d' = icc_profiles d ++ [info]
    /\ id = to_int32 (size_of (icc_profiles d) + 1) - 1
    /\ output_intent_object d' = output_intent_object d.
Proof.
  intros Hne. unfold store_icc_profile, bind, find_icc_profile, lift.
  destruct (find_icc_profile_from _ _ _ _) as [existing| |]; simpl; try discriminate.
  destruct (cassert _); simpl; try discriminate.
  rewrite bool_decide_eq_false_2 by assumption. simpl.
  intros H. inversion H. simpl. eexists. split; [reflexivity|]. split; [|reflexivity].
  unfold size_of. rewrite length_app. simpl. now rewrite Nat2Z.inj_add.
Qed.

(** The step of [init] that stores the output profile. *)
Lemma init_profile_step (contents : string) (n_channels : Z) (d d' : PdfDocument) (u : unit) :
  icc_profiles d = [] ->
  (if negb (bool_decide (contents = "")) then
     bind (store_icc_profile contents n_channels)
       (fun id => modify (fun d => set_output_profile d (Some id)))
   else ret tt) d = (Ok u, d') ->
  output_profile d = None ->
  (forall id, output_profile d' = Some id -> exists info, at_ (icc_profiles d') id = Ok info)
  /\ output_intent_object d' = output_intent_object d.
Proof.
  intros Hicc Hstep Hnone.
  destruct (bool_decide_reflect (contents = "")) as [Hempty|Hne]; simpl in Hstep.
  - inversion Hstep. subst d'. rewrite Hnone. split; [discriminate | reflexivity].
  - apply bind_inv in Hstep as (id & d1 & Hstore & Hset).
    apply (store_icc_profile_returns _ _ _ _ _ Hne) in Hstore as (info & Hnew & Hid & Hoi).
    inversion Hset. simpl. split; [|exact Hoi].
    intros id' Hid'. inversion Hid'. subst id'. exists info.
    rewrite Hnew, Hid, Hicc. reflexivity.
Qed.

Lemma init_roots (gd : PdfGenerationData) (conv : PdfColorConverter) (dF : PdfDocument) :
  init (new_document gd conv) = (Ok tt, dF) ->
  numbers_fit dF ->
  roots_resolve dF.
Proof.
  intros Hinit Hfit. unfold init in Hinit.
  apply bind_inv in Hinit as (u1 & d1 & H1 & Hinit).
  apply bind_inv in Hinit as (u2 & d2 & H2 & Hinit).
  apply bind_inv in Hinit as (o & d3 & H3 & Hinit).
  apply bind_inv in Hinit as (cv & d4 & H4 & Hinit).
  apply bind_inv in Hinit as (u5 & d5 & H5 & Hinit).
  apply bind_inv in Hinit as (u6 & d6 & H6 & Hinit).
  apply bind_inv in Hinit as (pg & d7 & H7 & Hinit).
  apply bind_inv in Hinit as (u8 & d8 & H8 & Hinit).
  apply bind_inv in Hinit as (u9 & d9 & H9 & Hinit).
  apply bind_inv in Hinit as (u10 & d10 & H10 & Hinit).
  (* the state before the output profile is stored *)
  assert (Hb1 : before_profile (new_document gd conv) d1).
  { replace d1 with (snd (modify (fun d => set_document_objects d
                                            (document_objects d ++ [DummyIndexZero]))
                            (new_document gd conv))) by now rewrite H1.
    split; [|split]; reflexivity. }
  assert (Hb2 : before_profile d1 d2).
  { replace d2 with (snd (generate_info_object d1)) by now rewrite H2.
    revert d1 H1 H2 Hb1. intros d1 _ _ _. revert d1.
    change (steps before_profile generate_info_object).
    unfold generate_info_object. before_profile_auto. }
  inversion H3. subst o d3. inversion H4. subst cv d4.
  assert (Hb5 : before_profile d2 d5).
  { match type of H5 with ?m d2 = _ => replace d5 with (snd (m d2)) by now rewrite H5 end.
    match goal with |- before_profile d2 (snd (?m d2)) =>
      assert (Hs : steps before_profile m); [|apply Hs] end.
    unfold create_separation. before_profile_auto. }
  pose proof (before_profile_trans _ _ _ (before_profile_trans _ _ _ Hb1 Hb2) Hb5)
    as (Hicc5 & Hprof5 & Hoi5).
  simpl in Hicc5, Hprof5, Hoi5.
  assert (Hprofile :
            (forall id, output_profile d6 = Some id ->
                        exists info, at_ (icc_profiles d6) id = Ok info)
            /\ output_intent_object d6 = None).
  { rewrite <- Hoi5.
    destruct (output_colorspace (opts d2)).
    - now apply (init_profile_step _ _ _ _ _ Hicc5 H6).
    - now apply (init_profile_step _ _ _ _ _ Hicc5 H6).
    - destruct (bool_decide_reflect (get_cmyk (cm d2) = "")) as [Hempty|Hne];
        [discriminate|].
      apply (init_profile_step (get_cmyk (cm d2)) 4 _ _ u6 Hicc5); [|assumption].
      now rewrite bool_decide_eq_false_2 by assumption. }
  destruct Hprofile as (Hprofile & Hoi6).
  (* the page group and the page tree *)
  unfold create_page_group, bind, get, add_object in H7. simpl in H7.
  inversion H7. subst pg d7. clear H7.
  inversion H8. subst d8. clear H8. inversion H9. subst d9. clear H9.
  inversion H10. subst d10. clear H10. simpl in Hinit.
  set (objs := document_objects d6) in *.
  set (group := Full _) in *.
  assert (Hdone : forall d', document_objects d' = (objs ++ [group]) ++ [DelayedPages]
                             \/ (exists o, document_objects d'
                                           = ((objs ++ [group]) ++ [DelayedPages]) ++ [Full o]) ->
                             numbers_fit d' ->
                             at_ (document_objects d')
                               (to_int32 (size_of ((objs ++ [group]) ++ [DelayedPages]) - 1))
                             = Ok DelayedPages
                             /\ designates is_full d' (to_int32 (size_of objs))).
  { intros d' Hobjs Hfit'. unfold numbers_fit in Hfit'. unfold designates.
    assert (Hsize : size_of ((objs ++ [group]) ++ [DelayedPages]) - 1
                    = size_of (objs ++ [group])).
    { unfold size_of. rewrite !length_app. simpl. lia. }
    rewrite Hsize.
    destruct Hobjs as [Hobjs|(oi & Hobjs)]; rewrite Hobjs in *.
    - split; [now apply at_pushed|].
      exists group. split; [|exact I]. now apply at_pushed_before.
    - split.
      + rewrite <- (app_assoc (objs ++ [group])). simpl. apply at_pushed.
        rewrite <- (app_assoc (objs ++ [group])) in Hfit'. exact Hfit'.
      + exists group. split; [|exact I].
        rewrite <- !app_assoc. simpl. apply at_pushed.
        rewrite <- !app_assoc in Hfit'. exact Hfit'. }
  destruct (bool_decide (is_Some (subtype (opts d2)))).
  - apply bind_inv in Hinit as (prof & d11 & H11 & Hinit). inversion H11. subst prof d11.
    simpl in Hinit.
    destruct (negb (bool_decide (is_Some (output_profile d6)))); [discriminate|].
    destruct (bool_decide (intent_condition_identifier (opts d2) = "")); [discriminate|].
    apply bind_inv in Hinit as (u12 & d12 & H12 & Hinit). inversion Hinit. subst dF.
    unfold create_output_intent in H12.
    apply bind_inv in H12 as (o' & d13 & H13 & H12). inversion H13. subst o' d13. clear H13.
    apply bind_inv in H12 as (prof & d13 & H13 & H12). inversion H13. subst prof d13. clear H13.
    apply bind_inv in H12 as (u14 & d14 & H14 & H12).
    unfold lift in H14. inversion H14. subst d14. clear H14.
    apply bind_inv in H12 as (u15 & d15 & H15 & H12).
    unfold lift in H15. inversion H15. subst d15. clear H15.
    simpl in H12.
    destruct (output_profile d6) as [id|] eqn:Hprof; [|discriminate].
    destruct (subtype (opts d6)) as [sub|]; [|discriminate].
    apply bind_inv in H12 as (profiles & d16 & H16 & H12). inversion H16.
    subst profiles d16. clear H16.
    apply bind_inv in H12 as (info & d17 & H17 & H12).
    unfold lift in H17. inversion H17. subst d17. clear H17.
    apply bind_inv in H12 as (n & d18 & H18 & H12).
    unfold add_object in H18. simpl in H18. inversion H18. subst n d18. clear H18.
    inversion H12. subst d12. clear H12.
    match type of Hfit with
    | numbers_fit ?dd =>
        destruct (Hdone dd) as (Hpages & Hgroup);
        [right; eexists; reflexivity | exact Hfit |]
    end.
    unfold roots_resolve. simpl.
    split; [exact Hpages|]. split; [exact Hgroup|]. split.
    + intros n Hn. inversion Hn. subst n. eexists.
      split; [simpl; apply at_pushed; exact Hfit | exact I].
    + intros id' Hid'. apply Hprofile. now rewrite <- Hprof.
  - inversion Hinit. subst dF.
    match type of Hfit with
    | numbers_fit ?dd =>
        destruct (Hdone dd) as (Hpages & Hgroup); [left; reflexivity | exact Hfit |]
    end.
    unfold roots_resolve. simpl.
    split; [exact Hpages|]. split; [exact Hgroup|]. split.
    + intros n Hn. rewrite Hoi6 in Hn. discriminate.
    + exact Hprofile.
Qed.

Lemma roots_resolve_extends (d d' : PdfDocument) :
  extends d d' -> roots_resolve d -> roots_resolve d'.
Proof.
  intros (_ & _ & Hobjs & _ & [more Hicc] & _ & _ & _ & _ & _ & _ & _ & _ & Hprof & Hoi
          & Hpg & Hpo) (Hpages & Hgroup & Hintent & Hprofile).
  unfold roots_resolve. rewrite Hprof, Hoi, Hpg, Hpo.
  split; [|split; [|split]].
  - destruct Hobjs as [extra ->]. now apply at_prefix.
  - eapply designates_prefix; eassumption.
  - intros n Hn. eapply designates_prefix; [eassumption | now apply Hintent].
  - intros id Hid. destruct (Hprofile id Hid) as (info & Hat).
    exists info. rewrite Hicc. now apply at_prefix.
Qed.

End Roots.

(** In a document that [construct] returned and that any calls were
    made on, as long as the object table has at most 2^31 entries:
    [pages_object] is the number of the [DelayedPages] entry,
    [page_group_object] the number of the page group dictionary, the output
    intent, when there is one, the number of its dictionary, and the output
    profile, when there is one, a registered ICC profile. *)
Theorem roots_stay_resolved {E : Env} (gd : PdfGenerationData) (conv : PdfColorConverter)
    (d0 : PdfDocument) (calls : list Call) :
  construct gd conv = Ok d0 ->
  numbers_fit (run_calls calls d0) ->
  roots_resolve (run_calls calls d0).
Proof.
  intros Hconstruct Hfit.
  pose proof (extends_run_calls calls d0) as Hext.
  apply (roots_resolve_extends d0); [exact Hext|].
  apply (init_roots gd conv); [now apply construct_is_init|].
  destruct Hext as (_ & _ & Hobjs & _). exact (numbers_fit_prefix _ _ Hobjs Hfit).
Qed.

Lemma roots_stay_resolved_witness :
  roots_resolve
    (run_calls (E:=debug_env)
       [CallOperation (OpAddPage (E:=debug_env) "<<>>" "<<" "q Q" tt ∅ {[5]} [7] None []);
        CallAddOptionalContentGroup "Layer"]
       sample_document).
Proof.
  apply (roots_stay_resolved (E:=debug_env) rgb_options no_profiles).
  - reflexivity.
  - unfold numbers_fit. vm_compute. discriminate.
Defined.

(** ** What the page list and the usage maps point to *)

Section PagesResolve.
Context {E : Env}.

Lemma subnav_nodes_exact (ocgs : list Z) (first_obj : Z) (subnav : list SubPageNavigation) :
  forall (i : Z) (prev : option SubPageNavigation) (d : PdfDocument),
  exists nav,
    subnav_nodes ocgs first_obj i prev subnav d
    = (Ok tt, set_document_objects d (document_objects d ++ nav))
    /\ Forall is_full nav /\ length nav = length subnav.
Proof.
  induction subnav as [|sn rest IH]; intros i prev d.
  - exists []. simpl. rewrite app_nil_r. split; [now destruct d | split; constructor].
  - simpl. unfold bind at 1. unfold add_object at 1.
    destruct (IH (i + 1) (Some sn)
                (set_document_objects d
                   (document_objects d
                      ++ [Full {| dictionary := subnav_node ocgs first_obj i sn prev;
                                  stream := "" |}])))
      as (nav & Heq & Hfull & Hlen).
    rewrite Heq. eexists (_ :: nav). simpl. rewrite <- app_assoc.
    split; [reflexivity|]. split; [constructor; [exact I | exact Hfull] | now rewrite Hlen].
Qed.

Lemma create_subnavigation_exact (subnav : list SubPageNavigation) (d : PdfDocument) :
  subnav <> [] ->
  exists nav,
    create_subnavigation subnav d
    = (Ok (to_int32 (size_of (document_objects d))),
       set_document_objects d (document_objects d ++ nav))
    /\ Forall is_full nav /\ length nav = (length subnav + 2)%nat.
Proof.
  intros Hne. unfold create_subnavigation, cassert.
  rewrite bool_decide_eq_false_2 by assumption. rewrite orb_true_r.
  unfold bind at 1. unfold lift at 1.
  destruct (last subnav) as [back|] eqn:Hlast; [|apply last_None in Hlast; contradiction].
  unfold bind at 1. unfold get at 1.
  unfold bind at 1. unfold get at 1.
  unfold bind at 1. unfold add_object at 1.
  unfold bind at 1. unfold get at 1.
  unfold bind at 1.
  match goal with
  | |- context [subnav_nodes ?o ?f ?i ?p subnav ?dd] =>
      destruct (subnav_nodes_exact o f subnav i p dd) as (nav & Heq & Hfull & Hlen);
      rewrite Heq
  end.
  unfold bind, add_object, ret. simpl.
  eexists (_ :: nav ++ [_]). rewrite <- !app_assoc. simpl.
  split; [reflexivity|]. split.
  - constructor; [exact I|]. apply Forall_app. split; [exact Hfull | repeat constructor].
  - rewrite length_app. simpl. lia.
Qed.

Lemma add_page_exact (rd ud cstream : string) (cp : PageProperties) (fws annots : gset Z)
    (structs : list Z) (trn : option Transition) (subnav : list SubPageNavigation)
    (d : PdfDocument) :
  used_in (form_use d) (elements fws) = false ->
  used_in (annotation_use d) (elements annots) = false ->
  used_in (structure_use d) structs = false ->
  exists (res cmds : ObjectType) (nav : list ObjectType) (pg : DelayedPage) (d' : PdfDocument),
    add_page rd ud cstream cp fws annots structs trn subnav d = (Ok tt, d')
    /\ document_objects d' = document_objects d ++ res :: cmds :: nav ++ [Page pg]
    /\ is_full res /\ is_stream cmds /\ Forall is_full nav
    /\ subnav_root pg
       = (if bool_decide (subnav = []) then None
          else Some (to_int32 (size_of (document_objects d ++ [res; cmds]))))
    /\ (subnav <> [] -> nav <> [])
    /\ page_num pg = to_int32 (size_of (pages d))
    /\ used_form_widgets pg = elements fws
    /\ used_annotations pg = elements annots
    /\ structparents pg
       = (if bool_decide (structs = []) then None
          else Some (to_int32 (size_of (structure_parent_tree_items d))))
    /\ pages d'
       = pages d
         ++ [{| resource_obj_num := to_int32 (size_of (document_objects d));
                commands_obj_num := to_int32 (size_of (document_objects d ++ [res]));
                page_obj_num := to_int32 (size_of (document_objects d ++ res :: cmds :: nav)) |}]
    /\ form_use d'
       = mark_used (elements fws)
           (to_int32 (size_of (document_objects d ++ res :: cmds :: nav))) (form_use d)
    /\ annotation_use d'
       = mark_used (elements annots)
           (to_int32 (size_of (document_objects d ++ res :: cmds :: nav))) (annotation_use d)
    /\ structure_use d'
       = mark_structures structs (to_int32 (size_of (pages d))) 0 (structure_use d)
    /\ structure_parent_tree_items d'
       = (if bool_decide (structs = []) then structure_parent_tree_items d
          else structure_parent_tree_items d ++ [structs]).
Proof.
  intros H1 H2 H3. unfold add_page. rewrite H1, H2, H3.
  erewrite bind_ok by reflexivity.
  erewrite bind_ok by reflexivity.
  match goal with |- context [bind ?m _ ?d1] =>
    assert (Hc : exists cmds, m d1 = (Ok (to_int32 (size_of (document_objects d1))),
                                      set_document_objects d1 (document_objects d1 ++ [cmds]))
                              /\ is_stream cmds) end.
  { cbn [opts set_document_objects]. destruct (compress_streams (opts d)).
    - eexists. split; [reflexivity | exact I].
    - eexists. split; [reflexivity | exact I]. }
  destruct Hc as (cmds & HeqC & Hcmds). rewrite (bind_ok _ _ _ _ _ HeqC).
  erewrite bind_ok by reflexivity.
  match goal with |- context [bind ?m _ ?dC] =>
    assert (Hs : forall dS, exists sr nav,
                   m dS = (Ok sr, set_document_objects dS (document_objects dS ++ nav))
                   /\ Forall is_full nav
                   /\ sr = (if bool_decide (subnav = []) then None
                            else Some (to_int32 (size_of (document_objects dS))))
                   /\ (subnav <> [] -> nav <> []));
    [|destruct (Hs dC) as (sr & nav & HeqS & Hnav & Hsr & Hnonempty); clear Hs]
  end.
  { intros dS. destruct (bool_decide_reflect (subnav = [])) as [Hsn|Hsn]; cbn [negb].
    - exists None, []. unfold ret. rewrite !app_nil_r.
      split; [now destruct dS|]. split; [constructor|]. split; [reflexivity | contradiction].
    - destruct (create_subnavigation_exact subnav dS Hsn) as (nav & Hroot & Hfull & Hlen).
      eexists _, nav. erewrite bind_ok by exact Hroot.
      split; [reflexivity|]. split; [exact Hfull|]. split; [reflexivity|].
      intros _ ->. simpl in Hlen. lia. }
  rewrite (bind_ok _ _ _ _ _ HeqS).
  simpl in Hsr. rewrite <- app_assoc in Hsr. simpl in Hsr. eexists _, cmds, nav.
  destruct (bool_decide (structs = [])) eqn:Hst; cbn [negb].
  - eexists _, _. split; [reflexivity|]. cbn. rewrite <- !app_assoc. cbn.
    repeat split; auto.
  - eexists _, _. split; [reflexivity|]. cbn. rewrite <- !app_assoc. cbn.
    repeat split; auto.
Qed.

Lemma mark_used_value (ids : list Z) (n : Z) (use : gmap Z Z) (a v : Z) :
  mark_used ids n use !! a = Some v -> (a ∈ ids /\ v = n) \/ use !! a = Some v.
Proof.
  unfold mark_used. revert use. induction ids as [|b ids IH]; intros use; simpl; [auto|].
  intros H. destruct (IH _ H) as [[Hin Hv]|Hold].
  - left. split; [apply elem_of_cons; now right | exact Hv].
  - destruct (decide (a = b)) as [->|Hne].
    + rewrite lookup_insert_eq in Hold. left. split; [apply elem_of_cons; now left|].
      congruence.
    + rewrite lookup_insert_ne in Hold by congruence. now right.
Qed.

Lemma mark_structures_value (structs : list Z) (page : Z) :
  forall (mcid : Z) (use : gmap Z StructureUsage) (a : Z) (u : StructureUsage),
    mark_structures structs page mcid use !! a = Some u ->
    (page_num_of u = page
     /\ exists k : nat, structs !! k = Some a /\ mcid_num u = mcid + Z.of_nat k)
    \/ use !! a = Some u.
Proof.
  induction structs as [|b structs IH]; intros mcid use a u; simpl; [auto|].
  intros H. destruct (IH _ _ _ _ H) as [[Hp (k & Hk & Hm)]|Hold].
  - left. split; [exact Hp|]. exists (S k). split; [exact Hk | lia].
  - destruct (decide (a = b)) as [->|Hne].
    + rewrite lookup_insert_eq in Hold. inversion Hold; subst u. left.
      split; [reflexivity|]. exists 0%nat. split; [reflexivity | simpl; lia].
    + rewrite lookup_insert_ne in Hold by congruence. now right.
Qed.

Lemma at_lookup {A : Type} (l : list A) (k : nat) (a : A) :
  l !! k = Some a -> at_ l (Z.of_nat k) = Ok a.
Proof.
  intros H. unfold at_. destruct (Z.ltb_spec (Z.of_nat k) 0); [lia|].
  now rewrite Nat2Z.id, H.
Qed.

Lemma keeps_pages_refl (d : PdfDocument) : keeps_pages d d.
Proof. unfold keeps_pages. auto. Qed.

Lemma keeps_pages_trans (d1 d2 d3 : PdfDocument) :
  keeps_pages d1 d2 -> keeps_pages d2 d3 -> keeps_pages d1 d3.
Proof. unfold keeps_pages. auto. Qed.

(** What a page entry and the entries of the usage maps say stays true when
    objects, pages and structure parents are appended. *)
Lemma page_object_ok_prefix (d d' : PdfDocument) (i : nat) (pg : DelayedPage) :
  document_objects d `prefix_of` document_objects d' ->
  structure_parent_tree_items d `prefix_of` structure_parent_tree_items d' ->
  page_object_ok d i pg -> page_object_ok d' i pg.
Proof.
  intros Hpre [more Hspti] (Hnum & Hroot & Hparents).
  split; [exact Hnum|]. split.
  - intros root Hr. eapply designates_prefix; [exact Hpre | now apply Hroot].
  - intros k Hk. destruct (Hparents k Hk) as (structs & Hat).
    exists structs. rewrite Hspti. now apply at_prefix.
Qed.

Lemma page_entry_prefix (d d' : PdfDocument) (i : nat) (po : PageOffsets) :
  document_objects d `prefix_of` document_objects d' ->
  structure_parent_tree_items d `prefix_of` structure_parent_tree_items d' ->
  designates is_full d (resource_obj_num po)
  /\ designates is_stream d (commands_obj_num po)
  /\ (exists pg, at_ (document_objects d) (page_obj_num po) = Ok (Page pg)
                 /\ page_object_ok d i pg) ->
  designates is_full d' (resource_obj_num po)
  /\ designates is_stream d' (commands_obj_num po)
  /\ (exists pg, at_ (document_objects d') (page_obj_num po) = Ok (Page pg)
                 /\ page_object_ok d' i pg).
Proof.
  intros Hpre Hspti (Hr & Hc & pg & Hat & Hok).
  split; [eapply designates_prefix; eassumption|].
  split; [eapply designates_prefix; eassumption|].
  exists pg. split; [|eapply page_object_ok_prefix; eassumption].
  destruct Hpre as [extra ->]. now apply at_prefix.
Qed.

Lemma listed_prefix (d d' : PdfDocument) (n a : Z) (listed : DelayedPage -> list Z) :
  document_objects d `prefix_of` document_objects d' ->
  (exists pg, at_ (document_objects d) n = Ok (Page pg) /\ a ∈ listed pg) ->
  exists pg, at_ (document_objects d') n = Ok (Page pg) /\ a ∈ listed pg.
Proof.
  intros [extra ->] (pg & Hat & Hin). exists pg. split; [now apply at_prefix | exact Hin].
Qed.

Lemma structure_entry_prefix (d d' : PdfDocument) (item : Z) (u : StructureUsage) :
  document_objects d `prefix_of` document_objects d' ->
  pages d `prefix_of` pages d' ->
  structure_parent_tree_items d `prefix_of` structure_parent_tree_items d' ->
  (exists po pg k structs,
     at_ (pages d) (page_num_of u) = Ok po
     /\ at_ (document_objects d) (page_obj_num po) = Ok (Page pg)
     /\ structparents pg = Some k
     /\ at_ (structure_parent_tree_items d) k = Ok structs
     /\ at_ structs (mcid_num u) = Ok item) ->
  exists po pg k structs,
    at_ (pages d') (page_num_of u) = Ok po
    /\ at_ (document_objects d') (page_obj_num po) = Ok (Page pg)
    /\ structparents pg = Some k
    /\ at_ (structure_parent_tree_items d') k = Ok structs
    /\ at_ structs (mcid_num u) = Ok item.
Proof.
  intros [e1 ->] [e2 ->] [e3 ->] (po & pg & k & structs & A1 & A2 & A3 & A4 & A5).
  exists po, pg, k, structs. repeat split; auto using at_prefix.
Qed.

(** A write that leaves the page list, the structure parents and the usage
    maps alone and the object table at least as long. *)
Lemma keeps_pages_same (d d' : PdfDocument) :
  document_objects d `prefix_of` document_objects d' ->
  pages d' = pages d ->
  structure_parent_tree_items d' = structure_parent_tree_items d ->
  form_use d' = form_use d ->
  annotation_use d' = annotation_use d ->
  structure_use d' = structure_use d ->
  keeps_pages d d'.
Proof.
  intros Hpre Hpages Hspti Hform Hannot Hstruct Hold Hfit.
  destruct (Hold (numbers_fit_prefix _ _ Hpre Hfit)) as (O1 & O2 & O3 & O4 & O5 & O6).
  unfold pages_resolve. rewrite Hpages, Hspti, Hform, Hannot, Hstruct.
  split; [exact O1|]. split.
  { destruct Hpre as [extra ->]. unfold size_of in *. rewrite length_app. lia. }
  split; [intros i po Hi; eapply page_entry_prefix; eauto; rewrite Hspti; reflexivity|].
  split; [intros w n Hw; eapply listed_prefix; eauto|].
  split; [intros a n Ha; eapply listed_prefix; eauto|].
  intros item u Hu. destruct (O6 item u Hu) as (po & pg & k & structs & A1 & A2 & A3 & A4 & A5).
  exists po, pg, k, structs. repeat split; auto.
  destruct Hpre as [extra ->]. now apply at_prefix.
Qed.

Ltac same_pages_prim :=
  apply keeps_pages_same; simpl;
  first [reflexivity | apply prefix_app_r; reflexivity].

Ltac keeps_pages_auto :=
  steps_with keeps_pages_refl keeps_pages_trans same_pages_prim ltac:(fail).

Lemma keeps_pages_push (d : PdfDocument) (o : ObjectType) :
  keeps_pages d (set_document_objects d (document_objects d ++ [o])).
Proof. same_pages_prim. Qed.

Lemma keeps_pages_store_icc_profile (contents : string) (n_channels : Z) :
  steps keeps_pages (store_icc_profile contents n_channels).
Proof. unfold store_icc_profile. keeps_pages_auto. Qed.

Lemma keeps_pages_create_separation (sep_name : string) (fc fm fy fk : LimitDouble) :
  steps keeps_pages (create_separation sep_name fc fm fy fk).
Proof. unfold create_separation. keeps_pages_auto. Qed.

Lemma keeps_pages_add_image_object (wd ht bpc : Z) (ip : CapyPDF_Image_Interpolation)
    (k : ColorspaceType) (sm : option Z) (mask : bool) (bytes : string) :
  steps keeps_pages (add_image_object wd ht bpc ip k sm mask bytes).
Proof. unfold add_image_object. keeps_pages_auto. Qed.

Lemma keeps_pages_embed_jpg (jpg : Jpg.jpg_image) (ip : CapyPDF_Image_Interpolation) :
  steps keeps_pages (embed_jpg jpg ip).
Proof. unfold embed_jpg. keeps_pages_auto. Qed.

Lemma keeps_pages_add_transparency_group (this : Z) (ctx : PdfDrawContext)
    (ex : option TransparencyGroupExtra) :
  steps keeps_pages (add_transparency_group this ctx ex).
Proof. unfold add_transparency_group. keeps_pages_auto. Qed.

Lemma keeps_pages_add_optional_content_group (g_name : string) :
  steps keeps_pages (add_optional_content_group g_name).
Proof. unfold add_optional_content_group. keeps_pages_auto. Qed.

Lemma keeps_pages_pad_subset_fonts : steps keeps_pages pad_subset_fonts.
Proof. unfold pad_subset_fonts. keeps_pages_auto. Qed.

Lemma keeps_pages_init : steps keeps_pages init.
Proof.
  unfold init, generate_info_object, create_page_group, create_output_intent.
  steps_with keeps_pages_refl keeps_pages_trans same_pages_prim
    ltac:(first [apply keeps_pages_create_separation
                | apply keeps_pages_store_icc_profile]).
Qed.

Lemma keeps_pages_add_page (rd ud cstream : string) (cp : PageProperties)
    (fws annots : gset Z) (structs : list Z) (trn : option Transition)
    (subnav : list SubPageNavigation) :
  steps keeps_pages (add_page rd ud cstream cp fws annots structs trn subnav).
Proof.
  intros d.
  destruct (used_in (form_use d) (elements fws)) eqn:H1;
    [unfold add_page; rewrite H1; apply keeps_pages_refl|].
  destruct (used_in (annotation_use d) (elements annots)) eqn:H2;
    [unfold add_page; rewrite H1, H2; apply keeps_pages_refl|].
  destruct (used_in (structure_use d) structs) eqn:H3;
    [unfold add_page; rewrite H1, H2, H3; apply keeps_pages_refl|].
  destruct (add_page_exact rd ud cstream cp fws annots structs trn subnav d H1 H2 H3)
    as (res & cmds & nav & pg & d' & Heq & Hobj & Hres & Hcmds & Hnav & Hroot & Hnonempty
        & Hnum & Hfw & Han & Hsp & Hpages & Hform & Hannot & Hstruct & Hspti).
  rewrite Heq. simpl. intros Hold Hfit.
  assert (Hpre : document_objects d `prefix_of` document_objects d').
  { rewrite Hobj. apply prefix_app_r. reflexivity. }
  destruct (Hold (numbers_fit_prefix _ _ Hpre Hfit)) as (O1 & O2 & O3 & O4 & O5 & O6).
  unfold numbers_fit in Hfit. rewrite Hobj in Hfit.
  assert (Hlen : size_of (document_objects d) + 3 + size_of nav <= 2 ^ 31).
  { unfold size_of in *. rewrite !length_app in Hfit. simpl in Hfit.
    rewrite length_app in Hfit. simpl in Hfit. lia. }
  assert (Hpn : to_int32 (size_of (pages d)) = size_of (pages d)).
  { apply to_int32_small. unfold size_of in *. lia. }
  assert (Htn : to_int32 (size_of (structure_parent_tree_items d))
                = size_of (structure_parent_tree_items d)).
  { apply to_int32_small. unfold size_of in *. lia. }
  assert (Hpage : at_ (document_objects d')
                    (to_int32 (size_of (document_objects d ++ res :: cmds :: nav)))
                  = Ok (Page pg)).
  { rewrite Hobj.
    replace (document_objects d ++ res :: cmds :: nav ++ [Page pg])
      with ((document_objects d ++ res :: cmds :: nav) ++ Page pg :: [])
      by (now rewrite <- app_assoc).
    apply at_pushed. now rewrite <- app_assoc. }
  assert (Hppre : pages d `prefix_of` pages d').
  { rewrite Hpages. apply prefix_app_r. reflexivity. }
  assert (Htpre : structure_parent_tree_items d `prefix_of` structure_parent_tree_items d').
  { rewrite Hspti. destruct (bool_decide (structs = [])); [reflexivity|].
    apply prefix_app_r. reflexivity. }
  unfold pages_resolve. split; [|split; [|split; [|split; [|split]]]].
  - rewrite Hspti, Hpages. unfold size_of in *.
    destruct (bool_decide (structs = [])); rewrite !length_app; simpl; lia.
  - rewrite Hpages, Hobj. unfold size_of in *. rewrite !length_app. simpl. lia.
  - intros i po Hi. rewrite Hpages in Hi. apply lookup_app_Some in Hi as [Hi|[Hge Hi]].
    + eapply page_entry_prefix; eauto.
    + destruct (i - length (pages d))%nat as [|j] eqn:Hj; [|now destruct j].
      simpl in Hi. inversion Hi; subst po. simpl.
      split; [|split].
      * exists res. split; [|exact Hres]. rewrite Hobj. now apply at_pushed.
      * exists cmds. split; [|exact Hcmds]. rewrite Hobj.
        replace (document_objects d ++ res :: cmds :: nav ++ [Page pg])
          with ((document_objects d ++ [res]) ++ cmds :: nav ++ [Page pg])
          by (now rewrite <- app_assoc).
        apply at_pushed. now rewrite <- app_assoc.
      * exists pg. split; [exact Hpage|]. split; [|split].
        -- rewrite Hnum, Hpn. unfold size_of. lia.
        -- intros root Hr. rewrite Hroot in Hr.
           destruct (bool_decide_reflect (subnav = [])) as [Hsn|Hsn]; [discriminate|].
           inversion Hr. subst root.
           destruct nav as [|node nav]; [now destruct (Hnonempty Hsn)|].
           apply Forall_cons in Hnav as (Hnode & _).
           exists node. split; [|exact Hnode]. rewrite Hobj.
           replace (document_objects d ++ res :: cmds :: (node :: nav) ++ [Page pg])
             with ((document_objects d ++ [res; cmds]) ++ node :: nav ++ [Page pg])
             by (now rewrite <- app_assoc).
           apply at_pushed. rewrite <- app_assoc. exact Hfit.
        -- intros k Hk. rewrite Hsp in Hk.
           destruct (bool_decide_reflect (structs = [])) as [Hst|Hst]; [discriminate|].
           inversion Hk. subst k. exists structs. rewrite Htn, Hspti. apply at_snoc.
  - intros w n Hw. rewrite Hform in Hw. apply mark_used_value in Hw as [[Hin ->]|Hw].
    + exists pg. split; [exact Hpage | now rewrite Hfw].
    + eapply listed_prefix; eauto.
  - intros a n Ha. rewrite Hannot in Ha. apply mark_used_value in Ha as [[Hin ->]|Ha].
    + exists pg. split; [exact Hpage | now rewrite Han].
    + eapply listed_prefix; eauto.
  - intros item u Hu. rewrite Hstruct in Hu.
    apply mark_structures_value in Hu as [[Hp (k & Hk & Hm)]|Hu].
    + assert (Hne : structs <> []) by (intros ->; discriminate).
      rewrite bool_decide_eq_false_2 in Hsp, Hspti by exact Hne.
      eexists _, pg, _, structs. split; [|split; [|split; [exact Hsp|split]]].
      * rewrite Hp, Hpn, Hpages. apply at_snoc.
      * exact Hpage.
      * rewrite Htn, Hspti. apply at_snoc.
      * rewrite Hm. now apply at_lookup.
    + eapply structure_entry_prefix; eauto.
Qed.

Lemma keeps_pages_run_calls (calls : list Call) (d : PdfDocument) :
  keeps_pages d (run_calls calls d).
Proof.
  apply (calls_run_calls keeps_pages keeps_pages_refl keeps_pages_trans
           keeps_pages_push keeps_pages_store_icc_profile
           keeps_pages_add_image_object keeps_pages_embed_jpg
           keeps_pages_create_separation keeps_pages_add_transparency_group
           keeps_pages_add_optional_content_group keeps_pages_add_page
           keeps_pages_pad_subset_fonts).
Qed.

End PagesResolve.

(** In a document that [construct] returned and that any calls were
    made on, as long as the object table has at most 2^31 entries: the
    entry of each page in the page list holds the numbers of a resource
    dictionary, of a command stream and of a page object that carries the
    index of the entry, whose navigation root (when it has one) is the
    number of a dictionary and whose structure parents (when it has some)
    are an entry of the structure parent tree; each form widget and each
    annotation that is marked as used is mapped to the number of a page
    object that lists it; and each structure item that is marked as used is
    mapped to the index of a page and to the position at which the structure
    parents of that page hold it. *)
Theorem pages_stay_resolved {E : Env} (gd : PdfGenerationData) (conv : PdfColorConverter)
    (d0 : PdfDocument) (calls : list Call) :
  construct gd conv = Ok d0 ->
  numbers_fit (run_calls calls d0) ->
  pages_resolve (run_calls calls d0).
Proof.
  intros Hconstruct Hfit.
  apply (keeps_pages_run_calls calls d0); [|exact Hfit].
  replace d0 with (snd (init (new_document gd conv)))
    by (now rewrite (construct_is_init _ _ _ Hconstruct)).
  apply (keeps_pages_init (new_document gd conv)).
  intros _. unfold pages_resolve, size_of. simpl.
  split; [lia|]. split; [lia|].
  split; [intros i po Hi; discriminate|].
  split; [intros w n Hw; now rewrite lookup_empty in Hw|].
  split; [intros a n Ha; now rewrite lookup_empty in Ha|].
  intros item u Hu. now rewrite lookup_empty in Hu.
Qed.

Lemma pages_stay_resolved_witness :
  pages_resolve
    (run_calls (E:=debug_env)
       [CallOperation (OpAddPage (E:=debug_env) "<<>>" "<<" "q Q" tt ∅ {[5]} [7; 8] None []);
        CallAddOptionalContentGroup "Layer";
        CallOperation (OpAddPage (E:=debug_env) "<<>>" "<<" "q Q" tt {[3]} ∅ [] None [])]
       sample_document).
Proof.
  apply (pages_stay_resolved (E:=debug_env) rgb_options no_profiles).
  - reflexivity.
  - unfold numbers_fit. vm_compute. discriminate.
Defined.

(** ** Which options [construct] accepts *)

Lemma construct_cases {E : Env} (gd : PdfGenerationData) (conv : PdfColorConverter) :
  match construct gd conv with
  | Ok d =>
      (output_profile_bytes gd conv = "" ->
       output_colorspace gd <> CAPY_CS_DEVICE_CMYK /\ subtype gd = None)
      /\ (is_Some (subtype gd) -> intent_condition_identifier gd <> "")
      /\ opts d = gd /\ cm d = conv /\ pages d = []
      /\ output_profile d
         = (if bool_decide (output_profile_bytes gd conv = "") then None else Some 0)
      /\ size_of (icc_profiles d)
         = (if bool_decide (output_profile_bytes gd conv = "") then 0 else 1)
      /\ size_of (separation_objects d)
         = (if bool_decide (output_colorspace gd = CAPY_CS_DEVICE_CMYK) then 1 else 0)
      /\ (is_Some (output_intent_object d) <-> is_Some (subtype gd))
  | Err e =>
      (e = OutputProfileMissing /\ output_profile_bytes gd conv = ""
       /\ (output_colorspace gd = CAPY_CS_DEVICE_CMYK \/ is_Some (subtype gd)))
      \/ (e = MissingIntentIdentifier /\ output_profile_bytes gd conv <> ""
          /\ is_Some (subtype gd) /\ intent_condition_identifier gd = "")
  | Crash => False
  end.
Proof.
  destruct E as [nd ? ? ? ? ? ? ? ? ? ? ? ? ? ? ? ? ?].
  destruct gd as [t a c l k st ici cmp tg]. destruct conv as [rgb gray cmyk].
  unfold output_profile_bytes. simpl.
  destruct nd, k, st as [st|], rgb as [|r1 rgb], gray as [|g1 gray], cmyk as [|c1 cmyk],
    ici as [|i1 ici];
    vm_compute;
    first [ left; split; [reflexivity|]; split; [reflexivity|]; solve [left; reflexivity | right; eauto]
          | right; split; [reflexivity|]; split; [discriminate|]; split; [eauto | reflexivity]
          | repeat split; intros; try discriminate; try congruence; eauto;
            match goal with
            | H : ex _ |- _ => destruct H; discriminate
            end ].
Qed.

(** [construct] returns OutputProfileMissing exactly when the colour
    converter has no profile for the output colourspace and either the
    output colourspace is CMYK or an intent subtype is set;
    MissingIntentIdentifier exactly when there is a profile, an intent
    subtype is set and the condition identifier is empty; it returns no other
    error and does not abort; and the document it returns otherwise has the
    options and the converter it was given, no page, the output profile
    (when there is one) as ICC profile 0 and no other profile, one
    separation exactly when the output colourspace is CMYK, and an output
    intent exactly when an intent subtype is set. *)
Theorem construct_checks {E : Env} (gd : PdfGenerationData) (conv : PdfColorConverter) :
  (construct gd conv = Err OutputProfileMissing
   <-> output_profile_bytes gd conv = ""
       /\ (output_colorspace gd = CAPY_CS_DEVICE_CMYK \/ is_Some (subtype gd)))
  /\ (construct gd conv = Err MissingIntentIdentifier
      <-> output_profile_bytes gd conv <> ""
          /\ is_Some (subtype gd) /\ intent_condition_identifier gd = "")
  /\ (construct gd conv = Err OutputProfileMissing
      \/ construct gd conv = Err MissingIntentIdentifier
      \/ exists d,
           construct gd conv = Ok d
           /\ opts d = gd /\ cm d = conv /\ pages d = []
           /\ output_profile d
              = (if bool_decide (output_profile_bytes gd conv = "") then None else Some 0)
           /\ size_of (icc_profiles d)
              = (if bool_decide (output_profile_bytes gd conv = "") then 0 else 1)
           /\ size_of (separation_objects d)
              = (if bool_decide (output_colorspace gd = CAPY_CS_DEVICE_CMYK) then 1 else 0)
           /\ (is_Some (output_intent_object d) <-> is_Some (subtype gd))).
Proof.
  pose proof (construct_cases gd conv) as H.
  destruct (construct gd conv) as [d|e|].
  - destruct H as (Hp & Hi & Hrest).
    split; [split; [discriminate|]|split; [split; [discriminate|]|]].
    + intros (Hempty & Hor). destruct (Hp Hempty) as (Hk & Hst).
      destruct Hor as [Hor|Hor]; [contradiction|]. rewrite Hst in Hor. now destruct Hor.
    + intros (_ & Hs & Hempty). now destruct (Hi Hs).
    + right. right. exists d. split; [reflexivity | exact Hrest].
  - destruct H as [(-> & Hempty & Hor)|(-> & Hne & Hs & Hempty)].
    + split; [split; auto|]. split; [split; [discriminate | tauto]|]. now left.
    + split; [split; [discriminate | tauto]|]. split; [split; auto|]. right. now left.
  - destruct H.
Qed.

(** ** What a call hands out *)

Section Handles.
Context {E : Env}.

Ltac call_fails :=
  right; eexists; split; [reflexivity | intros ?; discriminate].

Ltac call_adds :=
  left; eexists _, _; split; [reflexivity | first [left; reflexivity | right; reflexivity]].

(** A call of an [ObjectCall] appends one object and returns its number, or
    returns no number and leaves the document as it was. *)
Lemma object_call_cases (call : ObjectCall) (d : PdfDocument) :
  (exists o n,
     object_call call d
     = (Ok n, set_document_objects d (document_objects d ++ [Full o]))
     /\ (n = to_int32 (size_of (document_objects d))
         \/ n = to_int32 (size_of (document_objects d ++ [Full o])) - 1))
  \/ (exists r, object_call call d = (r, d) /\ forall n, r <> Ok n).
Proof.
  destruct call; simpl.
  - unfold add_lab_colorspace, bind, add_object, get, ret. simpl. call_adds.
  - unfold add_graphics_state, bind, get, lift. simpl.
    destruct (gs_name_key "RenderingIntent" _ _ _) as [buf1| |]; simpl; try call_fails.
    destruct (gs_name_key "BM" _ _ _) as [buf2| |]; simpl; try call_fails.
    unfold add_object, ret. simpl. call_adds.
  - unfold add_function. destruct (negb _); [unfold fail; call_fails|].
    unfold bind, lift. simpl.
    destruct (color2numbers (C0 func)) as [c0| |]; simpl; try call_fails.
    destruct (color2numbers (C1 func)) as [c1| |]; simpl; try call_fails.
    unfold add_object. call_adds.
  - unfold add_shading2, add_object. call_adds.
  - unfold add_shading3, add_object. call_adds.
  - unfold add_shading4, bind, lift.
    destruct (serialize_shade4 shade) as [s| |]; simpl; try call_fails.
    unfold add_object. call_adds.
  - unfold add_shading6, bind, lift.
    destruct (serialize_shade6 shade) as [s| |]; simpl; try call_fails.
    unfold add_object. call_adds.
  - unfold add_pattern.
    destruct (bool_decide _); [unfold fail; call_fails|].
    destruct (bool_decide _); [unfold fail; call_fails|].
    destruct (bool_decide _); [unfold fail; call_fails|].
    unfold add_object. call_adds.
Qed.

Lemma add_image_object_returns (wd ht bpc : Z) (ip : CapyPDF_Image_Interpolation)
    (k : ColorspaceType) (sm : option Z) (mask : bool) (bytes : string)
    (d d1 : PdfDocument) (id : Z) :
  add_image_object wd ht bpc ip k sm mask bytes d = (Ok id, d1) ->
  exists o,
    document_objects d1 = document_objects d ++ [Full o]
    /\ flate_compress bytes = Ok (stream o)
    /\ id = to_int32 (size_of (image_info d1)) - 1
    /\ image_info d1
       = image_info d ++ [{| image_size := {| iw := wd; ih := ht |};
                             obj := to_int32 (size_of (document_objects d)) |}].
Proof.
  unfold add_image_object. intros H.
  apply bind_inv in H as (compressed & d2 & Hc & H).
  unfold lift in Hc. inversion Hc. subst d2. clear Hc.
  apply bind_inv in H as (buf & d2 & Hbuf & H).
  assert (d2 = d) as ->.
  { destruct mask; [now inversion Hbuf|]. destruct k as [k|icc]; [now inversion Hbuf|].
    unfold bind, get, lift, ret in Hbuf. simpl in Hbuf.
    destruct (at_ (icc_profiles d) icc); now inversion Hbuf. }
  unfold bind, add_object, modify, get, ret in H. simpl in H. inversion H.
  eexists. simpl. split; [reflexivity|]. split; [assumption|]. split; reflexivity.
Qed.

(** When [add_image] returns an id, its last step was the call of
    [add_image_object] for the pixels. *)
Lemma add_image_ends (image : RasterImage) (mask : bool) (d d1 : PdfDocument) (id : Z) :
  add_image image mask d = (Ok id, d1) ->
  exists k sm d',
    extends d d'
    /\ add_image_object (w (md image)) (h (md image)) (pixel_depth (md image))
         (interp (md image)) k sm mask (pixels image) d' = (Ok id, d1).
Proof.
  unfold add_image.
  destruct (_ || _); [discriminate|].
  destruct (bool_decide (pixels image = "")); [discriminate|].
  destruct (mask && _); [discriminate|].
  intros H. apply bind_inv in H as (sm & d2 & Hsm & H).
  assert (Hd2 : extends d d2).
  { match type of Hsm with ?m d = _ => replace d2 with (snd (m d)) by now rewrite Hsm end.
    match goal with |- extends d (snd (?m d)) =>
      assert (Hs : steps extends m); [|apply Hs] end.
    steps_with extends_refl extends_trans ltac:(fail)
      ltac:(apply extends_add_image_object). }
  destruct (negb (bool_decide (icc_profile image = ""))).
  - apply bind_inv in H as (icc & d3 & Hicc & H).
    exists (IccCs icc), sm, d3. split; [|exact H].
    apply (extends_trans _ _ _ Hd2).
    replace d3 with (snd (store_icc_profile (icc_profile image)
                            (num_channels_for (cs (md image))) d2)) by now rewrite Hicc.
    apply extends_store_icc_profile.
  - destruct (bool_decide (cs (md image) = CAPY_CS_DEVICE_GRAY)); [eauto|].
    apply bind_inv in H as (o & d3 & Ho & H). inversion Ho. subst o d3.
    apply bind_inv in H as (conv & d3 & Hconv & H). inversion Hconv. subst conv d3.
    destruct (output_colorspace (opts d2)).
    + apply bind_inv in H as (u & d3 & Hu & H). unfold lift in Hu. inversion Hu. subst d3. eauto.
    + apply bind_inv in H as (u & d3 & Hu & H). unfold lift in Hu. inversion Hu. subst d3. eauto.
    + apply bind_inv in H as (u & d3 & Hu & H). unfold lift in Hu. inversion Hu. subst d3.
      destruct (bool_decide (get_cmyk (cm d2) = "")); [discriminate|].
      destruct (negb (bool_decide (cs (md image) = CAPY_CS_DEVICE_CMYK)));
        [discriminate|]. eauto.
Qed.

Lemma table_call_registers (call : TableCall) (d d1 : PdfDocument) (id : Z) :
  table_call call d = (Ok id, d1) -> registers call d d1 id.
Proof.
  destruct call; simpl; intros H.
  - unfold create_separation, bind, add_object, modify, get, ret in H. simpl in H.
    inversion H. eexists _, _. simpl.
    split; [apply prefix_app_r; reflexivity|]. split; [reflexivity|].
    split; [reflexivity|]. split; reflexivity.
  - unfold add_optional_content_group, bind, add_object, modify, get, ret in H. simpl in H.
    inversion H. exists (document_objects d). eexists. simpl.
    split; [reflexivity|]. split; [reflexivity|]. split; [reflexivity|]. split; reflexivity.
  - unfold add_transparency_group in H.
    destruct (bool_decide _); [discriminate|]. destruct (bool_decide _); [discriminate|].
    destruct (serialize ctx ex) as [sc|sx] eqn:Hser; [discriminate|].
    unfold bind, add_object, modify, get, ret in H. simpl in H.
    inversion H. exists (document_objects d). eexists. simpl.
    split; [reflexivity|]. split; [reflexivity|].
    split; [exists sx; rewrite Hser; auto|]. split; reflexivity.
  - unfold embed_jpg, bind, add_object, modify, get, ret in H. simpl in H.
    inversion H. exists (document_objects d). eexists. simpl.
    split; [reflexivity|]. split; [reflexivity|]. split; [reflexivity|]. split; reflexivity.
  - unfold add_mask_image in H. destruct (_ || _); [discriminate|].
    apply add_image_object_returns in H as (o & Hobjs & Hflate & Hid & Hinfo).
    exists (document_objects d), o. simpl.
    split; [reflexivity|]. split; [exact Hobjs|]. split; [exact Hflate|].
    split; [exact Hid|]. exists (image_info d). split; [reflexivity | exact Hinfo].
  - apply add_image_ends in H as (k & sm & d' & Hext & H).
    apply add_image_object_returns in H as (o & Hobjs & Hflate & Hid & Hinfo).
    destruct Hext as (_ & _ & Hpre & _ & _ & Hipre & _).
    exists (document_objects d'), o. simpl.
    split; [exact Hpre|]. split; [exact Hobjs|]. split; [exact Hflate|].
    split; [exact Hid|]. exists (image_info d'). split; [exact Hipre | exact Hinfo].
Qed.

Lemma at_size_snoc {A : Type} (l extra : list A) (a : A) (i : Z) :
  i = size_of (l ++ [a]) - 1 -> at_ ((l ++ [a]) ++ extra) i = Ok a.
Proof.
  intros ->. apply at_prefix.
  replace (size_of (l ++ [a]) - 1) with (size_of l); [apply at_snoc|].
  unfold size_of. rewrite length_app. simpl. lia.
Qed.

Lemma size_of_snoc {A : Type} (l : list A) (a : A) : size_of (l ++ [a]) = size_of l + 1.
Proof. unfold size_of. rewrite length_app. simpl. lia. Qed.

Lemma size_of_nonneg {A : Type} (l : list A) : 0 <= size_of l.
Proof. unfold size_of. lia. Qed.

End Handles.

(** The number that [add_lab_colorspace], [add_graphics_state],
    [add_function], an [add_shading] or [add_pattern] returns is the index at
    which the object table held its last entry before the call; the call
    appended exactly one object and changed nothing else; and after any
    later calls, while the table has fewer than 2^31 entries, the number
    still designates that object. A call that returns no number leaves the
    document as it was. *)
Theorem object_numbers_stay_valid {E : Env} (call : ObjectCall) (d : PdfDocument) :
  (forall (n : Z) (d1 : PdfDocument) (calls : list Call),
     object_call call d = (Ok n, d1) ->
     size_of (document_objects (run_calls calls d1)) < 2 ^ 31 ->
     n = size_of (document_objects d)
     /\ exists o,
          d1 = set_document_objects d (document_objects d ++ [Full o])
          /\ at_ (document_objects (run_calls calls d1)) n = Ok (Full o))
  /\ (forall (r : rvoe Z) (d1 : PdfDocument),
        object_call call d = (r, d1) -> (forall n, r <> Ok n) -> d1 = d).
Proof.
  destruct (object_call_cases call d) as [(o & n' & Heq & Hn)|(r' & Heq & Hr)]; split.
  - intros n d1 calls H Hsize. rewrite Heq in H. inversion H. subst n' d1. clear H.
    destruct (extends_run_calls calls
                (set_document_objects d (document_objects d ++ [Full o])))
      as (_ & _ & [extra Hobjs] & _).
    simpl in Hobjs. rewrite Hobjs in *.
    pose proof (size_of_nonneg (document_objects d)) as Hpos.
    assert (Hlt : size_of (document_objects d) + 1 < 2 ^ 31).
    { unfold size_of in *. rewrite !length_app in Hsize. simpl in Hsize. lia. }
    assert (n = size_of (document_objects d)) as ->.
    { destruct Hn as [->| ->].
      - apply to_int32_small. lia.
      - rewrite size_of_snoc, to_int32_small by lia. lia. }
    split; [reflexivity|]. exists o. split; [reflexivity|].
    apply at_prefix. apply at_snoc.
  - intros r d1 H Hnot. rewrite Heq in H. inversion H. subst r. now destruct (Hnot n').
  - intros n d1 calls H. rewrite Heq in H. inversion H. subst r'. now destruct (Hr n).
  - intros r d1 H _. rewrite Heq in H. now inversion H.
Qed.

Lemma object_numbers_stay_valid_witness :
  4 = size_of (document_objects (sample_document (E:=debug_env)))
  /\ exists o,
       snd (add_function (E:=debug_env)
              {| domain := [0%float; 1%float]; C0 := DeviceGrayColor (ld 0);
                 C1 := DeviceGrayColor (ld 1); n := 1%float |} sample_document)
       = set_document_objects sample_document (document_objects sample_document ++ [Full o])
       /\ at_ (document_objects
                 (run_calls (E:=debug_env) [CallAddOptionalContentGroup "Layer"]
                    (snd (add_function (E:=debug_env)
                            {| domain := [0%float; 1%float]; C0 := DeviceGrayColor (ld 0);
                               C1 := DeviceGrayColor (ld 1); n := 1%float |}
                            sample_document)))) 4
          = Ok (Full o).
Proof.
  apply (proj1 (object_numbers_stay_valid (E:=debug_env)
                  (ObjFunction {| domain := [0%float; 1%float]; C0 := DeviceGrayColor (ld 0);
                                  C1 := DeviceGrayColor (ld 1); n := 1%float |})
                  sample_document)).
  - reflexivity.
  - vm_compute. reflexivity.
Defined.

(** The id that [create_separation], [add_optional_content_group],
    [add_transparency_group], [embed_jpg], [add_mask_image] or [add_image]
    returns is the index of the last entry of its table, while that table
    has fewer than 2^31 entries; and after any later calls, while the object
    table has at most 2^31 entries, the table still holds at this id the
    number of the object that the call made (for an image, with the width
    and height of the image beside it), and that number still designates
    the object. *)
Theorem table_ids_stay_valid {E : Env} (call : TableCall) (d d1 : PdfDocument) (id : Z)
    (calls : list Call) :
  table_call call d = (Ok id, d1) ->
  table_size call d1 < 2 ^ 31 ->
  numbers_fit (run_calls calls d1) ->
  id = table_size call d1 - 1
  /\ (exists n o,
        registered_object call (run_calls calls d1) id = Ok n
        /\ at_ (document_objects (run_calls calls d1)) n = Ok (Full o)
        /\ last (document_objects d1) = Some (Full o)
        /\ made_by call o)
  /\ recorded_size call (run_calls calls d1) id.
Proof.
  intros Hcall Hsize Hfit.
  apply table_call_registers in Hcall as (pre & o & Hpre & Hobjs & Hmade & Hid & Htab).
  pose proof (extends_run_calls calls d1)
    as (_ & _ & [extra Hext] & _ & _ & [infos' Himg] & [seps' Hsep] & _ & [grps' Hgrp]
        & [ocgs' Hocg] & _).
  assert (Hn : to_int32 (size_of pre) = size_of pre).
  { apply to_int32_small. unfold numbers_fit in Hfit. rewrite Hext, Hobjs in Hfit.
    unfold size_of in *. rewrite !length_app in Hfit. simpl in Hfit. lia. }
  assert (Hobj : at_ (document_objects (run_calls calls d1)) (to_int32 (size_of pre))
                 = Ok (Full o)).
  { rewrite Hn, Hext, Hobjs. apply at_prefix. apply at_snoc. }
  assert (Hlast : last (document_objects d1) = Some (Full o)).
  { rewrite Hobjs. apply last_snoc. }
  assert (Hpos : 1 <= table_size call d1).
  { destruct call; simpl in *; try destruct Htab as (infos & _ & Htab);
      rewrite Htab, size_of_snoc; pose proof (size_of_nonneg (A:=Z)); unfold size_of; lia. }
  rewrite to_int32_small in Hid by lia.
  split; [exact Hid|].
  destruct call; simpl in *.
  - split; [|exact I]. exists (to_int32 (size_of pre)), o.
    split; [|auto]. rewrite Hsep, Htab. apply at_size_snoc. now rewrite <- Htab.
  - split; [|exact I]. exists (to_int32 (size_of pre)), o.
    split; [|auto]. rewrite Hocg, Htab. apply at_size_snoc. now rewrite <- Htab.
  - split; [|exact I]. exists (to_int32 (size_of pre)), o.
    split; [|auto]. rewrite Hgrp, Htab. apply at_size_snoc. now rewrite <- Htab.
  - assert (Hat : at_ (image_info (run_calls calls d1)) id
                  = Ok {| image_size := {| iw := Jpg.w jpg; ih := Jpg.h jpg |};
                          obj := to_int32 (size_of pre) |}).
    { rewrite Himg, Htab. apply at_size_snoc. now rewrite <- Htab. }
    split; [|eexists; split; [exact Hat | reflexivity]].
    exists (to_int32 (size_of pre)), o. rewrite Hat. simpl. auto.
  - destruct Htab as (infos & _ & Htab).
    assert (Hat : at_ (image_info (run_calls calls d1)) id
                  = Ok {| image_size := {| iw := w (md image); ih := h (md image) |};
                          obj := to_int32 (size_of pre) |}).
    { rewrite Himg, Htab. apply at_size_snoc. now rewrite <- Htab. }
    split; [|eexists; split; [exact Hat | reflexivity]].
    exists (to_int32 (size_of pre)), o. rewrite Hat. simpl. auto.
  - destruct Htab as (infos & _ & Htab).
    assert (Hat : at_ (image_info (run_calls calls d1)) id
                  = Ok {| image_size := {| iw := w (md image); ih := h (md image) |};
                          obj := to_int32 (size_of pre) |}).
    { rewrite Himg, Htab. apply at_size_snoc. now rewrite <- Htab. }
    split; [|eexists; split; [exact Hat | reflexivity]].
    exists (to_int32 (size_of pre)), o. rewrite Hat. simpl. auto.
Qed.

Lemma table_ids_stay_valid_witness :
  1 = table_size (E:=debug_env) (TabImage image_with_alpha false)
        (snd (add_image (E:=debug_env) image_with_alpha false sample_document)) - 1
  /\ (exists n o,
        registered_object (E:=debug_env) (TabImage image_with_alpha false)
          (run_calls (E:=debug_env) [CallAddOptionalContentGroup "Layer"]
             (snd (add_image (E:=debug_env) image_with_alpha false sample_document))) 1
        = Ok n
        /\ at_ (document_objects
                  (run_calls (E:=debug_env) [CallAddOptionalContentGroup "Layer"]
                     (snd (add_image (E:=debug_env) image_with_alpha false sample_document))))
             n
           = Ok (Full o)
        /\ last (document_objects
                   (snd (add_image (E:=debug_env) image_with_alpha false sample_document)))
           = Some (Full o)
        /\ made_by (E:=debug_env) (TabImage image_with_alpha false) o)
  /\ recorded_size (E:=debug_env) (TabImage image_with_alpha false)
       (run_calls (E:=debug_env) [CallAddOptionalContentGroup "Layer"]
          (snd (add_image (E:=debug_env) image_with_alpha false sample_document))) 1.
Proof.
  apply (table_ids_stay_valid (E:=debug_env) (TabImage image_with_alpha false)
           sample_document).
  - vm_compute. reflexivity.
  - vm_compute. reflexivity.
  - unfold numbers_fit. vm_compute. discriminate.
Defined.

(** ** The checks of add_function *)

(** [add_function] compares the alternatives that [C0] and [C1] hold and
    nothing else. When they differ it returns ColorspaceMismatch and leaves
    the document as it was; when both are the same alternative and that is
    not a device colour (an ICC, Lab, separation or pattern colour), the
    call ends in [std::abort]; when both are device colours of the same
    kind, one object without a stream is appended and its number
    returned. *)
Theorem add_function_outcome {E : Env} (func : FunctionType2) (d : PdfDocument) :
  (color_index (C0 func) <> color_index (C1 func) ->
   add_function func d = (Err ColorspaceMismatch, d))
  /\ (color_index (C0 func) = color_index (C1 func) ->
      is_device_color (C0 func) = false ->
      add_function func d = (Crash, d))
  /\ (color_index (C0 func) = color_index (C1 func) ->
      is_device_color (C0 func) = true ->
      exists text,
        add_function func d
        = (Ok (to_int32 (size_of (document_objects d))),
           set_document_objects d
             (document_objects d ++ [Full {| dictionary := text; stream := "" |}]))).
Proof.
  unfold add_function. split; [|split].
  - intros Hne. apply Z.eqb_neq in Hne. now rewrite Hne.
  - intros Heq Hdev. apply Z.eqb_eq in Heq. rewrite Heq. simpl.
    unfold bind, lift. destruct (C0 func); try discriminate; reflexivity.
  - intros Heq Hdev. pose proof Heq as Heqb. apply Z.eqb_eq in Heqb. rewrite Heqb. simpl.
    unfold bind, lift, add_object.
    destruct (C0 func), (C1 func); try discriminate; simpl; eexists; reflexivity.
Qed.

Lemma add_function_outcome_witness :
  add_function (E:=debug_env)
    {| domain := [0%float; 1%float]; C0 := DeviceGrayColor (ld 0);
       C1 := DeviceRGBColor (ld 1) (ld 1) (ld 1); n := 1%float |} sample_document
  = (Err ColorspaceMismatch, sample_document).
Proof.
  apply (proj1 (add_function_outcome (E:=debug_env)
                  {| domain := [0%float; 1%float]; C0 := DeviceGrayColor (ld 0);
                     C1 := DeviceRGBColor (ld 1) (ld 1) (ld 1); n := 1%float |}
                  sample_document)).
  simpl. discriminate.
Defined.

(** ** What a failed add_image leaves behind *)

(** [add_image] returns InvalidImageSize, MissingPixels and MaskAndAlpha
    before it writes anything, so the document is as it was. The checks on
    the output colourspace come after the alpha channel has been registered:
    when a CMYK document is given an image with an alpha channel, without an
    embedded profile, whose pixels are not CMYK (nor gray), the call returns
    UnsupportedFormat, and the image of the alpha channel, which nothing
    refers to, stays in the object table and in the image list. *)
Theorem add_image_failures {E : Env} (image : RasterImage) (is_mask : bool) (d : PdfDocument) :
  (w (md image) <= 0 \/ h (md image) <= 0 ->
   add_image image is_mask d = (Err InvalidImageSize, d))
  /\ (0 < w (md image) -> 0 < h (md image) -> pixels image = "" ->
      add_image image is_mask d = (Err MissingPixels, d))
  /\ (0 < w (md image) -> 0 < h (md image) -> pixels image <> "" ->
      is_mask = true -> alpha image <> "" ->
      add_image image is_mask d = (Err MaskAndAlpha, d))
  /\ (forall compressed : string,
        0 < w (md image) -> 0 < h (md image) -> pixels image <> "" ->
        is_mask = false -> alpha image <> "" -> icc_profile image = "" ->
        cs (md image) = CAPY_CS_DEVICE_RGB ->
        output_colorspace (opts d) = CAPY_CS_DEVICE_CMYK -> get_cmyk (cm d) <> "" ->
        flate_compress (alpha image) = Ok compressed ->
        size_of (image_info d) + 1 < 2 ^ 31 ->
        exists (text : string) (d' : PdfDocument),
          add_image image is_mask d = (Err UnsupportedFormat, d')
          /\ document_objects d'
             = document_objects d ++ [Full {| dictionary := text; stream := compressed |}]
          /\ image_info d'
             = image_info d
               ++ [{| image_size := {| iw := w (md image); ih := h (md image) |};
                      obj := to_int32 (size_of (document_objects d)) |}]).
Proof.
  unfold add_image. split; [|split; [|split]].
  - intros Hsize.
    assert ((w (md image) <=? 0) || (h (md image) <=? 0) = true) as ->; [|reflexivity].
    apply orb_true_iff. destruct Hsize; [left | right]; now apply Z.leb_le.
  - intros Hw Hh Hp.
    assert ((w (md image) <=? 0) || (h (md image) <=? 0) = false) as ->.
    { apply orb_false_iff. split; apply Z.leb_gt; assumption. }
    now rewrite bool_decide_eq_true_2.
  - intros Hw Hh Hp -> Ha.
    assert ((w (md image) <=? 0) || (h (md image) <=? 0) = false) as ->.
    { apply orb_false_iff. split; apply Z.leb_gt; assumption. }
    rewrite bool_decide_eq_false_2 by assumption.
    now rewrite (bool_decide_eq_false_2 (alpha image = "")).
  - intros compressed Hw Hh Hp -> Ha Hicc Hcs Hout Hcmyk Hflate Hfit.
    assert ((w (md image) <=? 0) || (h (md image) <=? 0) = false) as ->.
    { apply orb_false_iff. split; apply Z.leb_gt; assumption. }
    rewrite bool_decide_eq_false_2 by assumption.
    rewrite (bool_decide_eq_false_2 (alpha image = "")) by assumption.
    rewrite (bool_decide_eq_true_2 (icc_profile image = "")) by assumption.
    rewrite Hcs. simpl.
    unfold bind at 1. unfold bind at 1.
    unfold add_image_object, bind, lift, ret, add_object, modify, get. rewrite Hflate. simpl.
    assert (Hid : to_int32 (size_of (image_info d ++
                     [{| image_size := {| iw := w (md image); ih := h (md image) |};
                         obj := to_int32 (size_of (document_objects d)) |}])) - 1
                  = size_of (image_info d)).
    { rewrite size_of_snoc, to_int32_small; [lia|].
      pose proof (size_of_nonneg (image_info d)). lia. }
    rewrite Hid, at_snoc. simpl. rewrite Hout. unfold cassert. rewrite orb_true_r. simpl.
    rewrite bool_decide_eq_false_2 by assumption. unfold fail.
    eexists _, _. split; [reflexivity|]. simpl. split; reflexivity.
Qed.

Lemma add_image_failures_witness :
  exists (text : string) (d' : PdfDocument (E:=debug_env)),
    add_image (E:=debug_env) image_with_alpha false cmyk_document = (Err UnsupportedFormat, d')
    /\ document_objects d'
       = document_objects cmyk_document ++ [Full {| dictionary := text; stream := "xy" |}]
    /\ image_info d'
       = image_info cmyk_document
         ++ [{| image_size := {| iw := 2; ih := 1 |};
                obj := to_int32 (size_of (document_objects cmyk_document)) |}].
Proof.
  apply (proj2 (proj2 (proj2 (add_image_failures (E:=debug_env) image_with_alpha false
                                cmyk_document))) "xy");
    try reflexivity; try discriminate.
Defined.

(** ** Looking up an ICC profile *)

Section IccLookup.
Context {E : Env}.

Lemma keeps_profiles_refl (d : PdfDocument) : keeps_profiles d d.
Proof. unfold keeps_profiles. auto. Qed.

Lemma keeps_profiles_trans (d1 d2 d3 : PdfDocument) :
  keeps_profiles d1 d2 -> keeps_profiles d2 d3 -> keeps_profiles d1 d3.
Proof. unfold keeps_profiles. auto. Qed.

(** More objects, and at the end of the profile list at most one new
    profile, whose stream is stored. *)
Lemma keeps_profiles_step (d d' : PdfDocument) (icc : list IccInfo) :
  document_objects d `prefix_of` document_objects d' ->
  icc_profiles d' = icc_profiles d ++ icc ->
  size_of (icc_profiles d') - size_of (icc_profiles d)
  <= size_of (document_objects d') - size_of (document_objects d) ->
  (numbers_fit d' ->
   Forall (fun info => exists o, at_ (document_objects d') (stream_num info) = Ok (Deflate o)
                                 /\ dstream o <> "") icc) ->
  keeps_profiles d d'.
Proof.
  intros Hpre Hicc Hsize Hnew Hold Hfit.
  destruct (Hold (numbers_fit_prefix _ _ Hpre Hfit)) as (Hle & Hall).
  split; [lia|]. rewrite Hicc. apply Forall_app. split; [|now apply Hnew].
  eapply Forall_impl; [exact Hall|]. intros info (o & Hat & Hne).
  exists o. split; [|exact Hne]. destruct Hpre as [extra ->]. now apply at_prefix.
Qed.

Lemma keeps_profiles_same (d d' : PdfDocument) :
  document_objects d `prefix_of` document_objects d' ->
  icc_profiles d' = icc_profiles d ->
  keeps_profiles d d'.
Proof.
  intros Hpre Hicc. apply (keeps_profiles_step d d' []); rewrite ?app_nil_r; auto.
  rewrite Hicc. destruct Hpre as [extra ->]. unfold size_of. rewrite length_app. lia.
Qed.

Ltac same_profiles_prim :=
  apply keeps_profiles_same; simpl;
  first [reflexivity | apply prefix_app_r; reflexivity].

Ltac keeps_profiles_auto :=
  steps_with keeps_profiles_refl keeps_profiles_trans same_profiles_prim ltac:(fail).

Lemma keeps_profiles_push (d : PdfDocument) (o : ObjectType) :
  keeps_profiles d (set_document_objects d (document_objects d ++ [o])).
Proof. same_profiles_prim. Qed.

Lemma keeps_profiles_store_icc_profile (contents : string) (n_channels : Z) :
  steps keeps_profiles (store_icc_profile contents n_channels).
Proof.
  intros d. unfold store_icc_profile, bind, find_icc_profile, lift.
  destruct (find_icc_profile_from _ _ _ _) as [existing| |]; simpl;
    try apply keeps_profiles_refl.
  destruct (cassert _); simpl; try apply keeps_profiles_refl.
  destruct (bool_decide_reflect (contents = "")) as [Hempty|Hne]; simpl;
    [apply keeps_profiles_refl|].
  eapply (keeps_profiles_step _ _ [_]); simpl; try reflexivity.
  - rewrite <- app_assoc. apply prefix_app_r. reflexivity.
  - unfold size_of. rewrite !length_app. simpl. lia.
  - intros Hfit. unfold numbers_fit in Hfit. simpl in Hfit.
    apply Forall_singleton. eexists. simpl.
    split; [apply at_pushed_before; exact Hfit | exact Hne].
Qed.

Lemma keeps_profiles_create_separation (sep_name : string) (fc fm fy fk : LimitDouble) :
  steps keeps_profiles (create_separation sep_name fc fm fy fk).
Proof. unfold create_separation. keeps_profiles_auto. Qed.

Lemma keeps_profiles_add_image_object (wd ht bpc : Z) (ip : CapyPDF_Image_Interpolation)
    (k : ColorspaceType) (sm : option Z) (mask : bool) (bytes : string) :
  steps keeps_profiles (add_image_object wd ht bpc ip k sm mask bytes).
Proof. unfold add_image_object. keeps_profiles_auto. Qed.

Lemma keeps_profiles_embed_jpg (jpg : Jpg.jpg_image) (ip : CapyPDF_Image_Interpolation) :
  steps keeps_profiles (embed_jpg jpg ip).
Proof. unfold embed_jpg. keeps_profiles_auto. Qed.

Lemma keeps_profiles_add_transparency_group (this : Z) (ctx : PdfDrawContext)
    (ex : option TransparencyGroupExtra) :
  steps keeps_profiles (add_transparency_group this ctx ex).
Proof. unfold add_transparency_group. keeps_profiles_auto. Qed.

Lemma keeps_profiles_add_optional_content_group (g_name : string) :
  steps keeps_profiles (add_optional_content_group g_name).
Proof. unfold add_optional_content_group. keeps_profiles_auto. Qed.

Lemma keeps_profiles_pad_subset_fonts : steps keeps_profiles pad_subset_fonts.
Proof. unfold pad_subset_fonts. keeps_profiles_auto. Qed.

Lemma keeps_profiles_subnav_nodes (ocgs : list Z) (first_obj : Z)
    (subnav : list SubPageNavigation) :
  forall i prev, steps keeps_profiles (subnav_nodes ocgs first_obj i prev subnav).
Proof.
  induction subnav as [|sn rest IH]; intros i prev; simpl;
    [apply (steps_ret _ keeps_profiles_refl)|].
  apply (steps_bind _ keeps_profiles_trans); [|intros _; apply IH].
  apply steps_add_object. intros d. apply keeps_profiles_push.
Qed.

Lemma keeps_profiles_add_page (rd ud cstream : string) (cp : PageProperties)
    (fws annots : gset Z) (structs : list Z) (trn : option Transition)
    (subnav : list SubPageNavigation) :
  steps keeps_profiles (add_page rd ud cstream cp fws annots structs trn subnav).
Proof.
  add_page_steps keeps_profiles_refl keeps_profiles_trans.
  unfold create_subnavigation.
  steps_with keeps_profiles_refl keeps_profiles_trans same_profiles_prim
    ltac:(apply keeps_profiles_subnav_nodes).
Qed.

Lemma keeps_profiles_run_calls (calls : list Call) (d : PdfDocument) :
  keeps_profiles d (run_calls calls d).
Proof.
  apply (calls_run_calls keeps_profiles keeps_profiles_refl keeps_profiles_trans
           keeps_profiles_push keeps_profiles_store_icc_profile
           keeps_profiles_add_image_object keeps_profiles_embed_jpg
           keeps_profiles_create_separation keeps_profiles_add_transparency_group
           keeps_profiles_add_optional_content_group keeps_profiles_add_page
           keeps_profiles_pad_subset_fonts).
Qed.

Lemma keeps_profiles_init : steps keeps_profiles init.
Proof.
  unfold init, generate_info_object, create_page_group, create_output_intent.
  steps_with keeps_profiles_refl keeps_profiles_trans same_profiles_prim
    ltac:(first [apply keeps_profiles_create_separation
                | apply keeps_profiles_store_icc_profile]).
Qed.

(** What the loop of [find_icc_profile] returns on stored profiles. *)
Lemma find_icc_profile_from_spec (objs : list ObjectType) (contents : string)
    (profiles : list IccInfo) :
  Forall (fun info => exists o, at_ objs (stream_num info) = Ok (Deflate o)
                                /\ dstream o <> "") profiles ->
  forall i : Z,
    0 <= i -> i + size_of profiles <= 2 ^ 31 ->
    match find_icc_profile_from objs contents profiles i with
    | Ok (Some id) =>
        exists (k : nat) (info : IccInfo) (o : DeflatePDFObject),
          id = i + Z.of_nat k
          /\ profiles !! k = Some info
          /\ at_ objs (stream_num info) = Ok (Deflate o)
          /\ dstream o = contents
          /\ forall (j : nat) (info' : IccInfo) (o' : DeflatePDFObject),
               (j < k)%nat -> profiles !! j = Some info' ->
               at_ objs (stream_num info') = Ok (Deflate o') -> dstream o' <> contents
    | Ok None =>
        forall (j : nat) (info' : IccInfo) (o' : DeflatePDFObject),
          profiles !! j = Some info' ->
          at_ objs (stream_num info') = Ok (Deflate o') -> dstream o' <> contents
    | _ => False
    end.
Proof.
  induction 1 as [|info profiles (o & Hat & Hne) _ IH]; intros i Hi Hfit; simpl.
  - intros j info' o' Hj. discriminate.
  - rewrite Hat. simpl.
    unfold size_of in Hfit. simpl in Hfit.
    destruct (bool_decide_reflect (dstream o = contents)) as [Heq|Hneq].
    + exists 0%nat, info, o. rewrite to_int32_small by lia.
      split; [lia|]. split; [reflexivity|]. split; [exact Hat|]. split; [exact Heq|].
      intros j info' o' Hj. lia.
    + specialize (IH (i + 1)).
      destruct (find_icc_profile_from objs contents profiles (i + 1)) as [[id|]| |].
      * destruct IH as (k & info1 & o1 & Hid & Hk & Hat1 & Heq1 & Hfirst);
          [lia | unfold size_of; lia |].
        exists (S k), info1, o1. split; [lia|]. split; [exact Hk|].
        split; [exact Hat1|]. split; [exact Heq1|].
        intros [|j] info' o' Hj Hl Hat'.
        -- simpl in Hl. inversion Hl. subst info'. rewrite Hat in Hat'. inversion Hat'.
           now subst o'.
        -- apply (Hfirst j info' o'); [lia | exact Hl | exact Hat'].
      * intros [|j] info' o' Hl Hat'.
        -- simpl in Hl. inversion Hl. subst info'. rewrite Hat in Hat'. inversion Hat'.
           now subst o'.
        -- apply (IH ltac:(lia) ltac:(unfold size_of; lia) j info' o'); assumption.
      * apply IH; [lia | unfold size_of; lia].
      * apply IH; [lia | unfold size_of; lia].
Qed.

End IccLookup.

(** In a document that [construct] returned and that any calls were
    made on, while the object table has at most 2^31 entries,
    [find_icc_profile] returns the id of the first registered profile whose
    bytes are the ones asked for, and nothing exactly when no registered
    profile has these bytes. No registered profile is empty; so
    [load_icc_file] of an empty file finds nothing, stores nothing and
    leaves the document as it was: when [get_num_channels] fails on the
    empty bytes the call fails in the same way, and otherwise it returns the
    id -1, which is no index of the profile list. *)
Theorem icc_lookup_correct {E : Env} (gd : PdfGenerationData) (conv : PdfColorConverter)
    (d0 : PdfDocument) (calls : list Call) :
  construct gd conv = Ok d0 ->
  numbers_fit (run_calls calls d0) ->
  let d := run_calls calls d0 in
  (forall contents : string,
     (exists id, find_icc_profile contents d = (Ok (Some id), d)
                 /\ profile_bytes d id = Some contents
                 /\ forall id', 0 <= id' < id -> profile_bytes d id' <> Some contents)
     \/ (find_icc_profile contents d = (Ok None, d)
         /\ forall id', profile_bytes d id' <> Some contents))
  /\ (forall id, profile_bytes d id <> Some "")
  /\ (forall fname : string,
        load_file fname = Ok "" ->
        load_icc_file fname d
        = (match get_num_channels "" with
           | Ok _ => Ok (-1)
           | Err e => Err e
           | Crash => Crash
           end, d)
        /\ at_ (icc_profiles d) (-1) = Crash).
Proof.
  intros Hconstruct Hfit d.
  assert (Hstored : profiles_stored d).
  { apply (keeps_profiles_run_calls calls d0); [|exact Hfit].
    replace d0 with (snd (init (new_document gd conv)))
      by (now rewrite (construct_is_init _ _ _ Hconstruct)).
    apply (keeps_profiles_init (new_document gd conv)).
    intros _. unfold profiles_stored, size_of. simpl. split; [lia | constructor]. }
  destruct Hstored as (Hle & Hall).
  change (numbers_fit d) in Hfit. clearbody d. unfold numbers_fit in Hfit.
  assert (Hbytes : forall (k : nat) (info : IccInfo) (o : DeflatePDFObject),
             icc_profiles d !! k = Some info ->
             at_ (document_objects d) (stream_num info) = Ok (Deflate o) ->
             profile_bytes d (Z.of_nat k) = Some (dstream o)).
  { intros k info o Hk Hat. unfold profile_bytes.
    rewrite (at_lookup _ _ _ Hk). now rewrite Hat. }
  assert (Hinv : forall id contents,
             profile_bytes d id = Some contents ->
             exists (k : nat) info o,
               id = Z.of_nat k /\ icc_profiles d !! k = Some info
               /\ at_ (document_objects d) (stream_num info) = Ok (Deflate o)
               /\ dstream o = contents).
  { intros id contents. unfold profile_bytes, at_ at 1.
    destruct (Z.ltb_spec id 0) as [Hneg|Hpos]; [discriminate|].
    destruct (icc_profiles d !! Z.to_nat id) as [info|] eqn:Hk; [|discriminate].
    destruct (at_ (document_objects d) (stream_num info)) as [[]| |] eqn:Hat;
      try discriminate.
    intros Heq. inversion Heq. exists (Z.to_nat id), info, o.
    split; [lia|]. split; [exact Hk|]. split; [exact Hat | reflexivity]. }
  assert (Hspec : forall contents,
             (exists id, find_icc_profile contents d = (Ok (Some id), d)
                         /\ profile_bytes d id = Some contents
                         /\ forall id', 0 <= id' < id -> profile_bytes d id' <> Some contents)
             \/ (find_icc_profile contents d = (Ok None, d)
                 /\ forall id', profile_bytes d id' <> Some contents)).
  { intros contents. unfold find_icc_profile.
    pose proof (find_icc_profile_from_spec (document_objects d) contents (icc_profiles d)
                  Hall 0 ltac:(lia)) as Hfind.
    destruct (find_icc_profile_from (document_objects d) contents (icc_profiles d) 0)
      as [[id|]| |].
    - destruct Hfind as (k & info & o & Hid & Hk & Hat & Heq & Hfirst); [lia|].
      left. exists id. split; [reflexivity|]. rewrite Z.add_0_l in Hid. subst id.
      split; [rewrite (Hbytes k info o Hk Hat); now rewrite Heq|].
      intros id' Hrange Hsome.
      destruct (Hinv id' contents Hsome) as (j & info' & o' & -> & Hj & Hat' & Heq').
      apply (Hfirst j info' o'); [lia | exact Hj | exact Hat' | exact Heq'].
    - right. split; [reflexivity|]. intros id' Hsome.
      destruct (Hinv id' contents Hsome) as (j & info' & o' & -> & Hj & Hat' & Heq').
      apply (Hfind ltac:(lia) j info' o'); assumption.
    - destruct Hfind. lia.
    - destruct Hfind. lia. }
  assert (Hnonempty : forall id, profile_bytes d id <> Some "").
  { intros id Hsome.
    destruct (Hinv id "" Hsome) as (k & info & o & -> & Hk & Hat & Heq).
    rewrite Forall_lookup in Hall. destruct (Hall k info Hk) as (o' & Hat' & Hne).
    rewrite Hat in Hat'. inversion Hat'. subst o'. contradiction. }
  split; [exact Hspec|]. split; [exact Hnonempty|].
  intros fname Hfile. split; [|reflexivity].
  destruct (Hspec "") as [(id & _ & Hsome & _)|(Hnone & _)];
    [now destruct (Hnonempty id)|].
  unfold load_icc_file. rewrite Hfile. unfold bind at 1. unfold lift at 1.
  rewrite (bind_ok _ _ _ _ _ Hnone).
  destruct (get_num_channels "") as [n|e|]; unfold bind at 1; unfold lift at 1;
    try reflexivity.
  unfold store_icc_profile. rewrite (bind_ok _ _ _ _ _ Hnone).
  unfold cassert. simpl. rewrite orb_true_r. reflexivity.
Qed.

Lemma icc_lookup_correct_witness :
  let d := run_calls (E:=debug_env) [CallOperation (OpLoadIccFile "PROFILE")]
             sample_document in
  (forall contents : string,
     (exists id, find_icc_profile contents d = (Ok (Some id), d)
                 /\ profile_bytes d id = Some contents
                 /\ forall id', 0 <= id' < id -> profile_bytes d id' <> Some contents)
     \/ (find_icc_profile contents d = (Ok None, d)
         /\ forall id', profile_bytes d id' <> Some contents))
  /\ (forall id, profile_bytes d id <> Some "")
  /\ (forall fname : string,
        @load_file debug_env fname = Ok "" ->
        load_icc_file fname d
        = (match @get_num_channels debug_env "" with
           | Ok _ => Ok (-1)
           | Err e => Err e
           | Crash => Crash
           end, d)
        /\ at_ (icc_profiles d) (-1) = Crash).
Proof.
  apply (icc_lookup_correct (E:=debug_env) rgb_options no_profiles).
  - reflexivity.
  - unfold numbers_fit. vm_compute. discriminate.
Defined.

(** ** The outline tree *)

Lemma filed_under_snoc (key : Z) (calls : list Outline) (call : Outline) :
  forall k,
    filed_under key k (calls ++ [call])
    = filed_under key k calls
      ++ (if bool_decide (parent_key call = key) then [k + size_of calls] else []).
Proof.
  induction calls as [|c calls IH]; intros k; simpl.
  - unfold size_of. simpl. rewrite Z.add_0_r. now destruct (bool_decide _).
  - rewrite IH. replace (k + 1 + size_of calls) with (k + size_of (c :: calls))
      by (unfold size_of; simpl; lia).
    now destruct (bool_decide (parent_key c = key)).
Qed.

Lemma elem_of_filed_under (key : Z) (calls : list Outline) :
  forall k x,
    x ∈ filed_under key k calls
    <-> exists (i : nat) call,
          x = k + Z.of_nat i /\ calls !! i = Some call /\ parent_key call = key.
Proof.
  induction calls as [|c calls IH]; intros k x; simpl.
  - split; [intros H; inversion H | intros (i & call & _ & H & _); discriminate].
  - destruct (bool_decide_reflect (parent_key c = key)) as [Hkey|Hkey].
    + rewrite elem_of_cons, IH. split.
      * intros [->|(i & call & -> & Hi & Hc)].
        -- exists 0%nat, c. split; [lia | auto].
        -- exists (S i), call. split; [lia | auto].
      * intros ([|i] & call & -> & Hi & Hc).
        -- left. lia.
        -- right. exists i, call. split; [lia | auto].
    + rewrite IH. split.
      * intros (i & call & -> & Hi & Hc). exists (S i), call. split; [lia | auto].
      * intros ([|i] & call & -> & Hi & Hc).
        -- simpl in Hi. inversion Hi. subst call. contradiction.
        -- exists i, call. split; [lia | auto].
Qed.

Lemma after_outline_calls_snoc (calls : list Outline) (call : Outline) (outlines : Outlines) :
  after_outline_calls (calls ++ [call]) outlines
  = snd (add_outline (otitle call) (dest call) (oparent call)
           (after_outline_calls calls outlines)).
Proof. unfold after_outline_calls. now rewrite fold_left_app. Qed.

(** What the calls leave in [outlines]: the items are the calls, the parent
    of item [i] is the key of call [i], and the children of a key are the
    ids filed under it, in the order of the calls; a key that nothing was
    filed under has no entry. *)
Lemma after_outline_calls_spec (calls : list Outline) :
  size_of calls < 2 ^ 31 ->
  items (after_outline_calls calls empty_outlines) = calls
  /\ (forall (i : nat) (call : Outline),
        calls !! i = Some call ->
        parent (after_outline_calls calls empty_outlines) !! Z.of_nat i
        = Some (parent_key call))
  /\ (forall key : Z,
        children (after_outline_calls calls empty_outlines) !! key
        = match filed_under key 0 calls with
          | [] => None
          | ids => Some ids
          end).
Proof.
  induction calls as [|call calls IH] using rev_ind; intros Hsize.
  - simpl. split; [reflexivity|]. split; [intros i call Hi; discriminate|].
    intros key. apply lookup_empty.
  - unfold size_of in Hsize. rewrite length_app in Hsize. simpl in Hsize.
    destruct IH as (Hitems & Hparent & Hchildren); [unfold size_of; lia|].
    rewrite after_outline_calls_snoc. unfold add_outline. cbn [snd items parent children].
    rewrite Hitems, to_int32_small by (unfold size_of; lia).
    destruct call as [call_title call_dest call_parent].
    cbn [otitle dest oparent].
    split; [reflexivity|]. split.
    + intros i c Hi. apply lookup_app_Some in Hi as [Hi|[Hge Hi]].
      * rewrite lookup_insert_ne; [now apply Hparent|].
        apply lookup_lt_Some in Hi. unfold size_of. lia.
      * destruct (i - length calls)%nat as [|j] eqn:Hj; [|now destruct j].
        simpl in Hi. inversion Hi. subst c.
        replace (Z.of_nat i) with (size_of calls) by (unfold size_of; lia).
        apply lookup_insert_eq.
    + intros key. rewrite filed_under_snoc. rewrite Z.add_0_l.
      unfold parent_key at 1. cbn [oparent].
      destruct (decide (default (-1) call_parent = key)) as [Hkey|Hkey].
      * subst key. rewrite bool_decide_eq_true_2 by reflexivity.
        rewrite lookup_insert_eq, Hchildren.
        destruct (filed_under (default (-1) call_parent) 0 calls) as [|id ids]; reflexivity.
      * rewrite bool_decide_eq_false_2 by exact Hkey.
        rewrite lookup_insert_ne by exact Hkey. rewrite Hchildren, app_nil_r. reflexivity.
Qed.

Lemma find_index_elem (x : Z) (l : list Z) :
  x ∈ l -> exists loc, find_index x l = Some loc.
Proof.
  induction l as [|y l IH]; intros H; [inversion H|]. simpl.
  destruct (bool_decide_reflect (y = x)) as [Heq|Hne]; [eauto|].
  apply elem_of_cons in H as [H|H]; [congruence|].
  destruct (IH H) as (loc & ->). simpl. eauto.
Qed.

Section OutlineNodes.
Context {E : Env}.

Lemma outline_links_returns (first_obj_num cur_id : Z) (siblings : list Z) (oitem : string) :
  cur_id ∈ siblings -> exists text, outline_links first_obj_num cur_id siblings oitem = Ok text.
Proof.
  intros Hin. unfold outline_links. destruct (1 <? size_of siblings); [|eauto].
  destruct (find_index_elem _ _ Hin) as (loc & ->). eauto.
Qed.

Lemma outline_links_no_error (first_obj_num cur_id : Z) (siblings : list Z) (oitem : string)
    (e : ErrorCode) :
  outline_links first_obj_num cur_id siblings oitem <> Err e.
Proof.
  unfold outline_links. destruct (1 <? size_of siblings); [|discriminate].
  destruct (find_index cur_id siblings); discriminate.
Qed.

Lemma outline_item_no_error (outlines : Outlines) (pgs : list PageOffsets)
    (first_obj_num catalog_obj_num cur_id : Z) (cur_obj : Outline) (e : ErrorCode) :
  outline_item outlines pgs first_obj_num catalog_obj_num cur_id cur_obj <> Err e.
Proof.
  unfold outline_item, map_at, at_.
  destruct (parent outlines !! cur_id) as [p|]; simpl; [|discriminate].
  destruct (children outlines !! p) as [siblings|]; simpl; [|discriminate].
  destruct (dest cur_obj <? 0); simpl; [discriminate|].
  destruct (pgs !! Z.to_nat (dest cur_obj)) as [page|]; simpl; [|discriminate].
  pose proof (outline_links_no_error first_obj_num cur_id siblings) as Hlinks.
  destruct (outline_links first_obj_num cur_id siblings _) as [text| |] eqn:Hl; simpl;
    [| now destruct (Hlinks _ e0 Hl) | discriminate].
  destruct (children outlines !! cur_id) as [[|front more]|]; simpl; discriminate.
Qed.

Lemma outline_nodes_no_error (outlines : Outlines) (first_obj_num catalog_obj_num : Z)
    (todo : list Outline) (e : ErrorCode) :
  forall cur_id d,
    fst (outline_nodes outlines first_obj_num catalog_obj_num cur_id todo d) <> Err e.
Proof.
  induction todo as [|cur_obj rest IH]; intros cur_id d; simpl; [discriminate|].
  unfold bind at 1. unfold get at 1. unfold bind at 1. unfold lift at 1.
  pose proof (outline_item_no_error outlines (pages d) first_obj_num catalog_obj_num cur_id
                cur_obj) as Hitem.
  destruct (outline_item outlines (pages d) first_obj_num catalog_obj_num cur_id cur_obj)
    as [text|e'|] eqn:Hi; simpl; [| now destruct (Hitem e') | discriminate].
  unfold bind at 1. unfold add_object at 1. apply IH.
Qed.

Lemma outline_item_returns (calls : list Outline) (pgs : list PageOffsets)
    (first_obj_num catalog_obj_num : Z) (i : nat) (call : Outline) :
  size_of calls < 2 ^ 31 ->
  calls !! i = Some call ->
  0 <= dest call < size_of pgs ->
  exists text,
    outline_item (after_outline_calls calls empty_outlines) pgs first_obj_num catalog_obj_num
      (Z.of_nat i) call
    = Ok text.
Proof.
  intros Hsize Hi Hdest.
  destruct (after_outline_calls_spec calls Hsize) as (_ & Hparent & Hchildren).
  unfold outline_item, map_at. rewrite (Hparent i call Hi). simpl.
  assert (Hin : Z.of_nat i ∈ filed_under (parent_key call) 0 calls).
  { apply elem_of_filed_under. exists i, call. split; [lia | auto]. }
  rewrite Hchildren.
  destruct (filed_under (parent_key call) 0 calls) as [|id ids] eqn:Hfiled;
    [inversion Hin|]. simpl.
  assert (Hpage : exists page, at_ pgs (dest call) = Ok page).
  { unfold at_. destruct (Z.ltb_spec (dest call) 0); [lia|].
    destruct (lookup_lt_is_Some_2 pgs (Z.to_nat (dest call))) as (page & ->); [|eauto].
    unfold size_of in Hdest. lia. }
  destruct Hpage as (page & ->). simpl.
  match goal with
  | |- context [outline_links ?f ?c ?l ?t] =>
      destruct (outline_links_returns f c l t Hin) as (text & ->)
  end.
  simpl. rewrite Hchildren.
  destruct (filed_under (Z.of_nat i) 0 calls) as [|front more]; simpl; eauto.
Qed.

Lemma outline_nodes_returns (calls : list Outline) (first_obj_num catalog_obj_num : Z)
    (todo : list Outline) :
  size_of calls < 2 ^ 31 ->
  forall (done : list Outline) (d : PdfDocument),
    calls = done ++ todo ->
    Forall (fun call => 0 <= dest call < size_of (pages d)) todo ->
    exists nodes : list FullPDFObject,
      outline_nodes (after_outline_calls calls empty_outlines) first_obj_num catalog_obj_num
        (size_of done) todo d
      = (Ok tt, set_document_objects d (document_objects d ++ map Full nodes))
      /\ length nodes = length todo.
Proof.
  intros Hsize. induction todo as [|call rest IH]; intros done d Hcalls Hdest.
  - exists []. simpl. rewrite app_nil_r. split; [now destruct d | reflexivity].
  - apply Forall_cons in Hdest as (Hcall & Hrest). simpl.
    unfold bind at 1. unfold get at 1. unfold bind at 1. unfold lift at 1.
    destruct (outline_item_returns calls (pages d) first_obj_num catalog_obj_num
                (length done) call Hsize) as (text & Htext); [| exact Hcall |].
    { rewrite Hcalls. apply list_lookup_middle. reflexivity. }
    change (Z.of_nat (length done)) with (size_of done) in Htext. rewrite Htext.
    unfold bind at 1. unfold add_object at 1.
    destruct (IH (done ++ [call])
                (set_document_objects d
                   (document_objects d ++ [Full {| dictionary := text; stream := "" |}])))
      as (nodes & Heq & Hlen).
    { rewrite Hcalls, <- app_assoc. reflexivity. }
    { exact Hrest. }
    replace (size_of done + 1) with (size_of (done ++ [call]))
      by (unfold size_of; rewrite length_app; simpl; lia).
    rewrite Heq. exists ({| dictionary := text; stream := "" |} :: nodes).
    simpl. rewrite <- app_assoc. split; [reflexivity | now rewrite Hlen].
Qed.

End OutlineNodes.

(** [add_outline] numbers the outlines in the order of the calls, and
    after any calls on an empty tree (fewer than 2^31) [create_outlines]
    finds every entry it looks up with [at] and its [assert]s hold, whatever
    parents were given, as long as one outline is at the top level and every
    destination is a page of the document: it appends one dictionary per
    outline and the dictionary of the tree, and returns the number of the
    latter. When no outline is at the top level (none was added, or each
    was given a parent), [children.at(-1)] throws. *)
Theorem create_outlines_returns {E : Env} (calls : list Outline) (d : PdfDocument) :
  size_of (document_objects d) + size_of calls + 1 < 2 ^ 31 ->
  items (after_outline_calls calls empty_outlines) = calls
  /\ (forall (i : nat) (call : Outline),
        calls !! i = Some call ->
        fst (add_outline (otitle call) (dest call) (oparent call)
               (after_outline_calls (take i calls) empty_outlines))
        = Ok (Z.of_nat i))
  /\ (Exists (fun call => parent_key call = -1) calls ->
      Forall (fun call => 0 <= dest call < size_of (pages d)) calls ->
      exists (nodes : list FullPDFObject) (tree : FullPDFObject),
        create_outlines (after_outline_calls calls empty_outlines) d
        = (Ok (size_of (document_objects d) + size_of calls),
           set_document_objects d (document_objects d ++ map Full nodes ++ [Full tree]))
        /\ length nodes = length calls)
  /\ (Forall (fun call => parent_key call <> -1) calls ->
      fst (create_outlines (after_outline_calls calls empty_outlines) d) = Crash).
Proof.
  intros Hfit.
  pose proof (size_of_nonneg (document_objects d)) as Hobjs.
  pose proof (size_of_nonneg calls) as Hcalls.
  assert (Hsize : size_of calls < 2 ^ 31) by lia.
  destruct (after_outline_calls_spec calls Hsize) as (Hitems & Hparent & Hchildren).
  split; [exact Hitems|]. split; [|split].
  - intros i call Hi. unfold add_outline. simpl.
    assert (Hlt : (i < length calls)%nat) by (eapply lookup_lt_Some; eauto).
    destruct (after_outline_calls_spec (take i calls)) as (Hitems' & _).
    { unfold size_of in *. rewrite length_take. lia. }
    rewrite Hitems'. unfold size_of in *. rewrite length_take.
    rewrite to_int32_small by lia. f_equal. lia.
  - intros Htop Hdest. unfold create_outlines.
    unfold bind at 1. unfold get at 1.
    rewrite Hitems, !to_int32_small by lia.
    replace (Z.to_nat (size_of calls)) with (length calls) by (unfold size_of; lia).
    rewrite firstn_all.
    destruct (outline_nodes_returns calls (size_of (document_objects d))
                (size_of (document_objects d) + size_of calls) calls Hsize [] d
                eq_refl Hdest) as (nodes & Hnodes & Hlen).
    change (size_of []) with 0 in Hnodes. unfold bind at 1. rewrite Hnodes.
    unfold bind at 1. unfold lift at 1. unfold map_at. rewrite Hchildren.
    assert (Hne : filed_under (-1) 0 calls <> []).
    { apply Exists_exists in Htop as (call & Hin & Hkey).
      apply list_elem_of_lookup in Hin as (i & Hi).
      assert (Hx : Z.of_nat i ∈ filed_under (-1) 0 calls).
      { apply elem_of_filed_under. exists i, call. split; [lia | auto]. }
      intros Hnil. rewrite Hnil in Hx. inversion Hx. }
    destruct (filed_under (-1) 0 calls) as [|front more]; [contradiction|].
    unfold bind at 1. unfold get at 1. simpl.
    assert (Hnew : size_of (document_objects d ++ map Full nodes)
                   = size_of (document_objects d) + size_of calls).
    { unfold size_of. rewrite length_app, length_map, Hlen. lia. }
    rewrite Hnew, to_int32_small by lia.
    unfold cassert. rewrite Z.eqb_refl, orb_true_r.
    unfold bind, lift, add_object. simpl. rewrite Hnew, to_int32_small by lia.
    exists nodes. eexists. rewrite <- app_assoc. split; [reflexivity | exact Hlen].
  - intros Hnone. unfold create_outlines.
    unfold bind at 1. unfold get at 1. unfold bind at 1.
    match goal with
    | |- context [outline_nodes ?o ?f ?c ?k ?todo d] =>
        pose proof (outline_nodes_no_error o f c todo) as Hno;
        destruct (outline_nodes o f c k todo d) as [[u|e|] d1] eqn:Hloop
    end.
    + unfold bind at 1. unfold lift at 1. unfold map_at. rewrite Hchildren.
      assert (Hnil : filed_under (-1) 0 calls = []).
      { destruct (filed_under (-1) 0 calls) as [|x l] eqn:Hf; [reflexivity|].
        assert (Hx : x ∈ filed_under (-1) 0 calls) by (rewrite Hf; apply elem_of_cons; now left).
        apply elem_of_filed_under in Hx as (i & call & _ & Hi & Hkey).
        rewrite Forall_lookup in Hnone. now destruct (Hnone i call Hi). }
      rewrite Hnil. reflexivity.
    + specialize (Hno e 0 d). rewrite Hloop in Hno. now destruct Hno.
    + reflexivity.
Qed.

Lemma create_outlines_returns_witness :
  items (after_outline_calls sample_outline_calls empty_outlines) = sample_outline_calls
  /\ (forall (i : nat) (call : Outline),
        sample_outline_calls !! i = Some call ->
        fst (add_outline (otitle call) (dest call) (oparent call)
               (after_outline_calls (take i sample_outline_calls) empty_outlines))
        = Ok (Z.of_nat i))
  /\ (Exists (fun call => parent_key call = -1) sample_outline_calls ->
      Forall (fun call => 0 <= dest call < size_of (pages one_page_document))
        sample_outline_calls ->
      exists (nodes : list FullPDFObject) (tree : FullPDFObject),
        create_outlines (E:=debug_env)
          (after_outline_calls sample_outline_calls empty_outlines) one_page_document
        = (Ok (size_of (document_objects one_page_document) + size_of sample_outline_calls),
           set_document_objects one_page_document
             (document_objects one_page_document ++ map Full nodes ++ [Full tree]))
        /\ length nodes = length sample_outline_calls)
  /\ (Forall (fun call => parent_key call <> -1) sample_outline_calls ->
      fst (create_outlines (E:=debug_env)
             (after_outline_calls sample_outline_calls empty_outlines) one_page_document)
      = Crash).
Proof.
  apply (create_outlines_returns (E:=debug_env) sample_outline_calls one_page_document).
  vm_compute. reflexivity.
Defined.

(** ** Builtin fonts *)

Lemma at_in_range {A : Type} (l : list A) (i : Z) (a : A) :
  at_ l i = Ok a -> 0 <= i < size_of l.
Proof.
  unfold at_, size_of. destruct (Z.ltb_spec i 0); [discriminate|].
  destruct (l !! Z.to_nat i) eqn:Hl; [|discriminate].
  apply lookup_lt_Some in Hl. lia.
Qed.

(** [get_builtin_font_id] hands out one id per builtin font. On tables
    in which every font that has an id has its own, a request for one of
    the 14 fonts returns (while the tables have fewer than 2^31 entries): a
    font that has an id gets it again and nothing is written; a font that
    has none gets the index of a new entry of [font_objects], different from
    every id handed out before, and one dictionary naming the font is
    appended to the object table. The other fonts keep their ids, the
    tables stay as described, and asking again gives the same id and changes
    nothing. *)
Theorem get_builtin_font_id_memo {E : Env} (size_t_bytes font : Z) (tables : FontTables)
    (d : PdfDocument) :
  font_tables_ok tables d ->
  0 <= font < 14 ->
  size_of (font_objects tables) + 1 < 2 ^ 31 ->
  size_of (document_objects d) < 2 ^ 31 ->
  exists (id : Z) (tables' : FontTables) (d' : PdfDocument),
    get_builtin_font_id size_t_bytes font tables d = (Ok (id, tables'), d')
    /\ builtin_fonts tables' !! font = Some id
    /\ get_builtin_font_id size_t_bytes font tables' d' = (Ok (id, tables'), d')
    /\ font_tables_ok tables' d'
    /\ (forall (other id' : Z),
          builtin_fonts tables !! other = Some id' ->
          builtin_fonts tables' !! other = Some id' /\ (other <> font -> id' <> id))
    /\ (is_Some (builtin_fonts tables !! font) -> tables' = tables /\ d' = d)
    /\ (builtin_fonts tables !! font = None ->
        exists font_name,
          at_ font_names font = Ok font_name
          /\ d' = set_document_objects d
                    (document_objects d
                       ++ [Full {| dictionary := builtin_font_dict font_name; stream := "" |}])
          /\ id = size_of (font_objects tables)
          /\ size_of (font_objects tables') = size_of (font_objects tables) + 1).
Proof.
  intros (Hvalid & Hinj) Hfont Hfonts Hobjs.
  unfold get_builtin_font_id.
  destruct (builtin_fonts tables !! font) as [id0|] eqn:Hlookup.
  - exists id0, tables, d. unfold ret.
    split; [reflexivity|]. split; [exact Hlookup|].
    split; [now rewrite Hlookup|]. split; [split; assumption|].
    split; [|split; [auto | discriminate]].
    intros other id' Hother. split; [exact Hother|].
    intros Hne ->. apply Hne. exact (Hinj _ _ _ Hother Hlookup).
  - destruct (Z.ltb_spec font 0) as [Hneg|_]; [lia|].
    destruct (lookup_lt_is_Some_2 font_names (Z.to_nat font)) as (font_name & Hname);
      [simpl; lia|].
    rewrite Hname. unfold bind, add_object, ret. simpl.
    pose proof (size_of_nonneg (font_objects tables)) as Hpos.
    pose proof (size_of_nonneg (document_objects d)) as Hpos'.
    rewrite size_of_snoc, !to_int32_small by lia.
    replace (size_of (font_objects tables) + 1 - 1) with (size_of (font_objects tables))
      by lia.
    assert (Hat : at_ font_names font = Ok font_name).
    { unfold at_. destruct (Z.ltb_spec font 0); [lia|]. now rewrite Hname. }
    eexists _, _, _. split; [reflexivity|]. cbn [builtin_fonts font_objects fst snd].
    split; [apply lookup_insert_eq|].
    split; [now rewrite lookup_insert_eq|].
    split; [unfold font_tables_ok;
            cbn [builtin_fonts font_objects document_objects set_document_objects]; split|].
    + intros f id. destruct (decide (f = font)) as [->|Hne].
      * rewrite lookup_insert_eq. intros Hid. inversion Hid. subst id.
        eexists _, font_name. split; [apply at_snoc|]. split; [exact Hat|].
        unfold font_object_of. simpl. apply at_snoc.
      * rewrite lookup_insert_ne by congruence. intros Hid.
        destruct (Hvalid f id Hid) as (info & nm & A1 & A2 & A3).
        exists info, nm. split; [now apply at_prefix|]. split; [exact A2|].
        now apply at_prefix.
    + intros f1 f2 id.
      destruct (decide (f1 = font)) as [->|Hne1], (decide (f2 = font)) as [->|Hne2];
        rewrite ?lookup_insert_eq, ?lookup_insert_ne by congruence; intros H1 H2.
      * reflexivity.
      * inversion H1. subst id.
        destruct (Hvalid f2 _ H2) as (info & _ & A1 & _). apply at_in_range in A1. lia.
      * inversion H2. subst id.
        destruct (Hvalid f1 _ H1) as (info & _ & A1 & _). apply at_in_range in A1. lia.
      * exact (Hinj _ _ _ H1 H2).
    + split; [|split].
      * intros other id' Hother.
        assert (other <> font) by (intros ->; congruence).
        rewrite lookup_insert_ne by congruence. split; [exact Hother|].
        intros _ ->. destruct (Hvalid other _ Hother) as (info & _ & A1 & _).
        apply at_in_range in A1. lia.
      * intros [x Hx]. discriminate.
      * intros _. exists font_name. split; [exact Hat|]. split; [reflexivity|].
        split; [reflexivity|]. apply size_of_snoc.
Qed.

Lemma get_builtin_font_id_memo_witness :
  exists (id : Z) (tables' : FontTables) (d' : PdfDocument (E:=debug_env)),
    get_builtin_font_id (E:=debug_env) 8 1 {| font_objects := []; builtin_fonts := ∅ |}
      sample_document
    = (Ok (id, tables'), d')
    /\ builtin_fonts tables' !! 1 = Some id
    /\ get_builtin_font_id (E:=debug_env) 8 1 tables' d' = (Ok (id, tables'), d')
    /\ font_tables_ok tables' d'
    /\ (forall (other id' : Z),
          builtin_fonts {| font_objects := []; builtin_fonts := ∅ |} !! other = Some id' ->
          builtin_fonts tables' !! other = Some id' /\ (other <> 1 -> id' <> id))
    /\ (is_Some (builtin_fonts {| font_objects := []; builtin_fonts := ∅ |} !! 1) ->
        tables' = {| font_objects := []; builtin_fonts := ∅ |} /\ d' = sample_document)
    /\ (builtin_fonts {| font_objects := []; builtin_fonts := ∅ |} !! 1 = None ->
        exists font_name,
          at_ font_names 1 = Ok font_name
          /\ d' = set_document_objects sample_document
                    (document_objects sample_document
                       ++ [Full {| dictionary := builtin_font_dict font_name; stream := "" |}])
          /\ id = size_of (font_objects {| font_objects := []; builtin_fonts := ∅ |})
          /\ size_of (font_objects tables')
             = size_of (font_objects {| font_objects := []; builtin_fonts := ∅ |}) + 1).
Proof.
  apply (get_builtin_font_id_memo (E:=debug_env) 8 1 {| font_objects := []; builtin_fonts := ∅ |}
           sample_document).
  - split; intros *; simpl; rewrite lookup_empty; discriminate.
  - lia.
  - vm_compute. reflexivity.
  - vm_compute. reflexivity.
Defined.
